(** * Personalized video feed API: a shallow embedding and its properties

    The definitions follow the layout of the Python sources:

    - [app/core/circuit_breaker.py]   Module [Breaker]
    - [app/core/cache.py]             Module [Cache]
    - [app/models/schemas.py]         the records [UserSignals] to [FeedResponse]
    - [app/services/ranking.py]       Module [Ranking]
    - [app/config/settings.py], [app/models/interfaces.py]
    - [app/services/feature_flags.py] Module [FeatureFlags]
    - [app/services/feed.py]          Module [Feed]
    - [app/api/routers/feed.py]       Module [Router]
    - [app/api/routers/health.py]     Module [Health]
    - [app/repositories/memory.py]    Module [Memory]

    Module [Py] models the built-ins and library calls they use: slices and
    [list.insert], stable sorting, [base64], UTF-8, [json], [hashlib.md5].

    Conventions.  A Python [int] is a [Z].  A [float], and a reading of the
    clock ([time.time()]), is idealised as a rational [Q]: arithmetic is
    exact.  A [str] is a [string] of bytes, read as UTF-8.  A call that may
    raise returns an [outcome]; a method that updates its object returns the
    object afterwards.  One request reads the clock once.  Calls are taken
    one after the other: the locks of the cache and of the breaker have no
    counterpart here.  A dictionary that is only looked up is a [gmap]; one
    that is built and iterated is an association list in insertion order. *)

From Stdlib Require Import ZArith QArith Lia Lqa Ascii Sorted DecimalString DecimalZ DecimalPos DecimalN DecimalFacts.
From stdpp Require Import gmap strings list.

Local Open Scope Z_scope.

(** ** Exceptions and outcomes *)

(** The subclasses of [Exception] the sources can raise or catch. *)
Inductive exn : Type :=
| TypeError
| ValueError
| AttributeError
| CircuitBreakerOpenError (service_name : string)
| OtherError (message : string).

Inductive outcome (T : Type) : Type :=
| Returned (v : T)
| Raised (e : exn).
Arguments Returned {T} v.
Arguments Raised {T} e.

(** Truthiness of a Python number: [0] and [0.0] are falsy. *)
Definition truthy (q : Q) : bool := negb (Qeq_bool q 0).

(** [a > b] on numbers. *)
Definition Qgtb (a b : Q) : bool := negb (Qle_bool a b).

(** ** app/core/circuit_breaker.py *)

Module Breaker.

Inductive CircuitState : Type := CLOSED | OPEN | HALF_OPEN.

Record CircuitBreaker : Type := mkBreaker {
  _name : string;
  _failure_threshold : Z;
  _recovery_timeout_sec : Q;
  _state : CircuitState;
  _failure_count : Z;
  _last_failure_time : option Q
}.

(** [CircuitBreaker.__init__] *)
Definition init (name : string) (failure_threshold : Z)
    (recovery_timeout_sec : Q) : CircuitBreaker :=
  mkBreaker name failure_threshold recovery_timeout_sec CLOSED 0 None.

Definition with_state (cb : CircuitBreaker) (s : CircuitState) : CircuitBreaker :=
  mkBreaker (_name cb) (_failure_threshold cb) (_recovery_timeout_sec cb)
            s (_failure_count cb) (_last_failure_time cb).

Section Call.
(** The protected callables act on a world [W]; [clock] is what
    [time.time()] reads in it.  A callable that is not executed leaves the
    world as it was. *)
Context {W T : Type} (clock : W -> Q).

Definition callable : Type := W -> outcome T * W.

Definition _should_attempt_reset (cb : CircuitBreaker) (w : W) : bool :=
  match _last_failure_time cb with
  | None => true
  | Some t => Qle_bool (_recovery_timeout_sec cb) (clock w - t)
  end.

Definition _on_success (cb : CircuitBreaker) : CircuitBreaker :=
  mkBreaker (_name cb) (_failure_threshold cb) (_recovery_timeout_sec cb)
            (match _state cb with HALF_OPEN => CLOSED | s => s end)
            0 (_last_failure_time cb).

Definition _on_failure (cb : CircuitBreaker) (w : W) : CircuitBreaker :=
  let failure_count := _failure_count cb + 1 in
  mkBreaker (_name cb) (_failure_threshold cb) (_recovery_timeout_sec cb)
            (if _failure_threshold cb <=? failure_count then OPEN else _state cb)
            failure_count (Some (clock w)).

(** First block of [call], under the lock: [Some cb'] when the primary is
    to be executed (with the state set to HALF_OPEN on a reset attempt),
    [None] when the call short-circuits. *)
Definition before_call (cb : CircuitBreaker) (w : W) : option CircuitBreaker :=
  match _state cb with
  | OPEN => if _should_attempt_reset cb w then Some (with_state cb HALF_OPEN)
            else None
  | _ => Some cb
  end.

(** [CircuitBreaker.call] *)
Definition call (cb : CircuitBreaker) (func : callable)
    (fallback : option callable) (w : W) : outcome T * CircuitBreaker * W :=
  match before_call cb w with
  | None =>
      match fallback with
      | Some fb => let '(r, w') := fb w in (r, cb, w')
      | None => (Raised (CircuitBreakerOpenError (_name cb)), cb, w)
      end
  | Some cb1 =>
      let '(r, w1) := func w in
      match r with
      | Returned v => (Returned v, _on_success cb1, w1)
      | Raised e =>
          let cb2 := _on_failure cb1 w1 in
          match fallback with
          | Some fb => let '(r', w2) := fb w1 in (r', cb2, w2)
          | None => (Raised e, cb2, w1)
          end
      end
  end.

(** A run of [n] consecutive calls, each of which executes its primary
    and sees it raise.  Between two calls the world may change freely. *)
Inductive failing_calls : nat -> CircuitBreaker -> CircuitBreaker -> Prop :=
| failing_nil cb : failing_calls 0 cb cb
| failing_cons n cb cb1 func fallback w e w1 cb' cb'' :
    before_call cb w = Some cb1 ->
    func w = (Raised e, w1) ->
    (call cb func fallback w).1.2 = cb' ->
    failing_calls n cb' cb'' ->
    failing_calls (S n) cb cb''.

(** The same run, with the clock readings of its failures: [ts] lists,
    first call first, what [time.time()] reads when [_on_failure] runs, that
    is in the world the raising primary leaves. *)
Inductive failing_calls_at : list Q -> CircuitBreaker -> CircuitBreaker -> Prop :=
| failing_at_nil cb : failing_calls_at [] cb cb
| failing_at_cons ts cb cb1 func fallback w e w1 cb' cb'' :
    before_call cb w = Some cb1 ->
    func w = (Raised e, w1) ->
    (call cb func fallback w).1.2 = cb' ->
    failing_calls_at ts cb' cb'' ->
    failing_calls_at (clock w1 :: ts) cb cb''.

End Call.

(** [CircuitBreaker.reset] *)
Definition reset (cb : CircuitBreaker) : CircuitBreaker :=
  mkBreaker (_name cb) (_failure_threshold cb) (_recovery_timeout_sec cb)
            CLOSED 0 None.

(** The values of the [CircuitState] enumeration. *)
Definition state_value (s : CircuitState) : string :=
  match s with
  | CLOSED => "closed"
  | OPEN => "open"
  | HALF_OPEN => "half_open"
  end.

Section Reachable.
Context {W T : Type} (clock : W -> Q).

(** The breakers a program can come to hold: a new one, and what [call]
    and [reset] leave behind. *)
Inductive reachable : CircuitBreaker -> Prop :=
| reachable_init name failure_threshold recovery_timeout_sec :
    reachable (init name failure_threshold recovery_timeout_sec)
| reachable_call cb (func : callable (W:=W) (T:=T)) fallback w :
    reachable cb -> reachable (call clock cb func fallback w).1.2
| reachable_reset cb :
    reachable cb -> reachable (reset cb).

End Reachable.

End Breaker.

(** ** app/core/cache.py *)

Module Cache.

Section Cache.
Context {V : Type}.

Record CacheEntry : Type := mkEntry {
  value : V;
  expires_at : option Q
}.

(** [CacheEntry.is_expired], at clock reading [now] *)
Definition is_expired (e : CacheEntry) (now : Q) : bool :=
  match expires_at e with
  | None => false
  | Some t => Qgtb now t
  end.

Record InMemoryCache : Type := mkCache {
  _store : gmap string CacheEntry;
  _default_ttl : option Q
}.

Definition init (default_ttl_seconds : option Q) : InMemoryCache :=
  mkCache ∅ default_ttl_seconds.

(** [InMemoryCache.get]: the value read, and the cache afterwards. *)
Definition get (c : InMemoryCache) (key : string) (now : Q)
    : option V * InMemoryCache :=
  match _store c !! key with
  | None => (None, c)
  | Some entry =>
      if is_expired entry now
      then (None, mkCache (delete key (_store c)) (_default_ttl c))
      else (Some (value entry), c)
  end.

(** [InMemoryCache.set] *)
Definition set (c : InMemoryCache) (key : string) (v : V)
    (ttl_seconds : option Q) (now : Q) : InMemoryCache :=
  let ttl := match ttl_seconds with
             | Some t => Some t
             | None => _default_ttl c
             end in
  let expires := match ttl with
                 | Some t => if truthy t then Some (now + t)%Q else None
                 | None => None
                 end in
  mkCache (<[key := mkEntry v expires]> (_store c)) (_default_ttl c).

Definition delete (c : InMemoryCache) (key : string) : bool * InMemoryCache :=
  match _store c !! key with
  | Some _ => (true, mkCache (base.delete key (_store c)) (_default_ttl c))
  | None => (false, c)
  end.

Definition clear (c : InMemoryCache) : InMemoryCache :=
  mkCache ∅ (_default_ttl c).

Definition size (c : InMemoryCache) : nat := base.size (_store c).

(** [InMemoryCache.get_or_set].  The factory acts on a world [W] in which
    [time.time()] reads [clock]; it is not called when [get] finds a value.
    [V] holds the values other than [None]. *)
Definition get_or_set {W : Type} (clock : W -> Q) (c : InMemoryCache)
    (key : string) (factory : W -> outcome V * W) (ttl_seconds : option Q)
    (w : W) : outcome V * InMemoryCache * W :=
  let '(value, c1) := get c key (clock w) in
  match value with
  | Some v => (Returned v, c1, w)
  | None =>
      let '(r, w1) := factory w in
      match r with
      | Raised e => (Raised e, c1, w1)
      | Returned computed_value =>
          (Returned computed_value,
           set c1 key computed_value ttl_seconds (clock w1), w1)
      end
  end.

(** [InMemoryCache.cleanup_expired]: the number of entries removed, and the
    cache afterwards.  [reading k] is what [time.time()] reads when the
    entry under [k] is examined. *)
Definition cleanup_expired (c : InMemoryCache) (reading : string -> Q)
    : nat * InMemoryCache :=
  let expired_keys :=
    (List.filter (fun kv => is_expired kv.2 (reading kv.1))
                 (map_to_list (_store c))).*1 in
  (length expired_keys,
   mkCache (foldl (fun store key => base.delete key store) (_store c) expired_keys)
           (_default_ttl c)).

End Cache.
Arguments CacheEntry V : clear implicits.
Arguments InMemoryCache V : clear implicits.

End Cache.

(** ** Models of the Python built-ins and library calls the sources use *)

Module Py.

(** *** Lists: slicing, [list.insert], stable sorting *)

(** Clamp a slice bound to [0, len]; negative bounds count from the end. *)
Definition slice_bound (len i : Z) : Z :=
  if i <? 0 then Z.max 0 (len + i) else Z.min i len.

(** [l[start:stop]] *)
Definition slice {A} (l : list A) (start stop : Z) : list A :=
  let len := Z.of_nat (length l) in
  let a := slice_bound len start in
  let b := slice_bound len stop in
  take (Z.to_nat (b - a)) (drop (Z.to_nat a) l).

(** [l.insert(i, x)] *)
Definition insert {A} (l : list A) (i : Z) (x : A) : list A :=
  let n := Z.to_nat (slice_bound (Z.of_nat (length l)) i) in
  take n l ++ x :: drop n l.

(** Insertion of [x] in front of a list sorted by decreasing [key]: [x]
    passes only the elements whose key is strictly greater. *)
Fixpoint insert_desc {A} (key : A -> Q) (x : A) (l : list A) : list A :=
  match l with
  | [] => [x]
  | y :: l' => if Qgtb (key y) (key x) then y :: insert_desc key x l'
               else x :: l
  end.

(** [sorted(l, key=key, reverse=True)] and [l.sort(key=key, reverse=True)]:
    a stable sort by decreasing key. *)
Definition sorted_desc {A} (key : A -> Q) (l : list A) : list A :=
  foldr (insert_desc key) [] l.

(** The same by increasing integer key, for [sorted(d.items())] on a
    dictionary with integer keys. *)
Fixpoint insert_asc {A} (key : A -> Z) (x : A) (l : list A) : list A :=
  match l with
  | [] => [x]
  | y :: l' => if key y <? key x then y :: insert_asc key x l'
               else x :: l
  end.

Definition sorted_asc {A} (key : A -> Z) (l : list A) : list A :=
  foldr (insert_asc key) [] l.

(** [x] stands before [y] in [l]. *)
Definition precedes {A} (x y : A) (l : list A) : Prop :=
  exists l1 l2 l3, l = l1 ++ x :: l2 ++ y :: l3.

(** *** Dictionaries that are built and iterated: association lists in
    insertion order.  [d[k] = v] overwrites the value of a key in place. *)
Fixpoint dict_set {K A} `{EqDecision K} (d : list (K * A)) (k : K) (v : A)
    : list (K * A) :=
  match d with
  | [] => [(k, v)]
  | (k', v') :: d' => if decide (k' = k) then (k, v) :: d'
                      else (k', v') :: dict_set d' k v
  end.

Fixpoint dict_get {K A} `{EqDecision K} (d : list (K * A)) (k : K) : option A :=
  match d with
  | [] => None
  | (k', v') :: d' => if decide (k' = k) then Some v' else dict_get d' k
  end.

(** *** Texts *)

(** The double quote, and a text between double quotes. *)
Definition quote : ascii := ascii_of_nat 34.

Definition quoted (s : string) : string := String quote (s +:+ String quote "").

(** *** Numbers *)

(** [min(a, b)] and [max(a, b)] on numbers: the first argument, unless the
    second is strictly smaller (greater). *)
Definition min (a b : Q) : Q := if Qgtb a b then b else a.

Definition max (a b : Q) : Q := if Qgtb b a then b else a.

(** [str(n)] for an [int]. *)
Definition str_int (n : Z) : string :=
  NilZero.string_of_int (Z.to_int n).

(** [int(x)]: truncation towards zero. *)
Definition int (x : Q) : Z := Z.quot (Qnum x) (Zpos (Qden x)).

(** [round(x, 2)]: the nearest multiple of 1/100, ties to even. *)
Definition round2 (x : Q) : Q :=
  let n := Qnum x * 100 in
  let d := Zpos (Qden x) in
  let q := n / d in
  let r := 2 * (n mod d) in
  let up := if d <? r then true
            else if r <? d then false
            else Z.odd q in
  ((if up then q + 1 else q) # 100).

(** *** [base64] *)

Definition b64_alphabet : string :=
  "ABCDEFGHIJKLMNOPQRSTUVWXYZabcdefghijklmnopqrstuvwxyz0123456789+/".

Definition b64_char (i : N) : ascii :=
  match String.get (N.to_nat i) b64_alphabet with
  | Some c => c
  | None => "="%char
  end.

Definition b64_value (c : ascii) : option N :=
  let n := N_of_ascii c in
  (if (65 <=? n) && (n <=? 90) then Some (n - 65)
   else if (97 <=? n) && (n <=? 122) then Some (n - 97 + 26)
   else if (48 <=? n) && (n <=? 57) then Some (n - 48 + 52)
   else if n =? 43 then Some 62
   else if n =? 47 then Some 63
   else None)%N.

(** [base64.b64encode] on bytes. *)
Fixpoint b64encode (s : string) : string :=
  match s with
  | "" => ""
  | String a "" =>
      let x := N_of_ascii a in
      String (b64_char (x / 4)) (String (b64_char (x mod 4 * 16)) "==")
  | String a (String b "") =>
      let x := N_of_ascii a in
      let y := N_of_ascii b in
      String (b64_char (x / 4))
        (String (b64_char (x mod 4 * 16 + y / 16))
           (String (b64_char (y mod 16 * 4)) "="))
  | String a (String b (String c rest)) =>
      let x := N_of_ascii a in
      let y := N_of_ascii b in
      let z := N_of_ascii c in
      String (b64_char (x / 4))
        (String (b64_char (x mod 4 * 16 + y / 16))
           (String (b64_char (y mod 16 * 4 + z / 64))
              (String (b64_char (z mod 64)) (b64encode rest))))
  end%N.

(** [binascii.a2b_base64] in its default, non-strict mode (CPython 3.11):
    characters outside the alphabet are skipped, a pad sequence that
    completes a quad ends the input, and an incomplete quad is an error.
    [quad_pos] counts the sextets of the current quad, [leftchar] holds the
    bits not yet written, [out] the bytes written so far, last first. *)
Fixpoint a2b_base64 (s : string) (quad_pos leftchar pads : N)
    (out : list ascii) : option string :=
  match s with
  | "" => if (quad_pos =? 0)%N then Some (String.string_of_list_ascii (rev out))
          else None
  | String ch rest =>
      if Ascii.eqb ch "="%char
      then if (2 <=? quad_pos)%N
           then if (4 <=? quad_pos + (pads + 1))%N
                then Some (String.string_of_list_ascii (rev out))
                else a2b_base64 rest quad_pos leftchar (pads + 1)%N out
           else a2b_base64 rest quad_pos leftchar pads out
      else match b64_value ch with
           | None => a2b_base64 rest quad_pos leftchar pads out
           | Some v =>
               if (quad_pos =? 0)%N then a2b_base64 rest 1%N v 0%N out
               else if (quad_pos =? 1)%N then
                 a2b_base64 rest 2%N (v mod 16)%N 0%N
                            (ascii_of_N (leftchar * 4 + v / 16) :: out)
               else if (quad_pos =? 2)%N then
                 a2b_base64 rest 3%N (v mod 4)%N 0%N
                            (ascii_of_N (leftchar * 16 + v / 4) :: out)
               else
                 a2b_base64 rest 0%N 0%N 0%N
                            (ascii_of_N (leftchar * 64 + v) :: out)
           end
  end.

Definition is_ascii (c : ascii) : bool := (N_of_ascii c <? 128)%N.

Fixpoint all_ascii (s : string) : bool :=
  match s with
  | "" => true
  | String c rest => is_ascii c && all_ascii rest
  end.

(** [base64.b64decode(s)] for a [str] argument: [None] when it raises (a
    character outside ASCII, or an incomplete quad). *)
Definition b64decode (s : string) : option string :=
  if all_ascii s then a2b_base64 s 0%N 0%N 0%N [] else None.

(** *** UTF-8 *)

Definition byte_in (lo hi : N) (c : ascii) : bool :=
  ((lo <=? N_of_ascii c) && (N_of_ascii c <=? hi))%N.

(** Well-formedness of a byte string as UTF-8 (shortest forms only, no
    surrogates, at most U+10FFFF). *)
Fixpoint utf8_valid (s : string) : bool :=
  match s with
  | "" => true
  | String a r =>
      if byte_in 0 127 a then utf8_valid r
      else match r with
      | "" => false
      | String b r1 =>
          if byte_in 194 223 a then byte_in 128 191 b && utf8_valid r1
          else match r1 with
          | "" => false
          | String c r2 =>
              if byte_in 224 239 a then
                (if byte_in 224 224 a then byte_in 160 191 b
                 else if byte_in 237 237 a then byte_in 128 159 b
                 else byte_in 128 191 b)
                && byte_in 128 191 c && utf8_valid r2
              else match r2 with
              | "" => false
              | String d r3 =>
                  byte_in 240 244 a
                  && (if byte_in 240 240 a then byte_in 144 191 b
                      else if byte_in 244 244 a then byte_in 128 143 b
                      else byte_in 128 191 b)
                  && byte_in 128 191 c && byte_in 128 191 d && utf8_valid r3
              end
          end
      end
  end.

(** [bytes.decode("utf-8")]: the text is kept as its bytes. *)
Definition utf8_decode (s : string) : option string :=
  if utf8_valid s then Some s else None.

(** The bytes of one code point. *)
Definition utf8_encode_char (u : N) : string :=
  (if u <? 128 then String (ascii_of_N u) ""
   else if u <? 2048 then
     String (ascii_of_N (192 + u / 64)) (String (ascii_of_N (128 + u mod 64)) "")
   else if u <? 65536 then
     String (ascii_of_N (224 + u / 4096))
       (String (ascii_of_N (128 + u / 64 mod 64))
          (String (ascii_of_N (128 + u mod 64)) ""))
   else
     String (ascii_of_N (240 + u / 262144))
       (String (ascii_of_N (128 + u / 4096 mod 64))
          (String (ascii_of_N (128 + u / 64 mod 64))
             (String (ascii_of_N (128 + u mod 64)) ""))))%N.

(** *** [json] *)

(** The Python values [json.loads] produces.  A float is kept as the
    literal it was read from: nothing in the sources computes with one. *)
Local Unset Elimination Schemes.
Inductive json : Type :=
| JNull
| JBool (b : bool)
| JInt (n : Z)
| JFloat (literal : string)
| JStr (s : string)
| JList (l : list json)
| JDict (d : list (string * json)).
Local Set Elimination Schemes.

Definition is_ws (c : ascii) : bool :=
  let n := N_of_ascii c in
  ((n =? 32) || (n =? 9) || (n =? 10) || (n =? 13))%N.

Fixpoint skip_ws (s : string) : string :=
  match s with
  | String c r => if is_ws c then skip_ws r else s
  | "" => ""
  end.

Fixpoint strip_prefix (p s : string) : option string :=
  match p, s with
  | "", _ => Some s
  | String a p', String b s' => if Ascii.eqb a b then strip_prefix p' s' else None
  | String _ _, "" => None
  end.

Definition is_digit (c : ascii) : bool := byte_in 48 57 c.

Fixpoint span_digits (s : string) : string * string :=
  match s with
  | String c r =>
      if is_digit c then let '(ds, r') := span_digits r in (String c ds, r')
      else ("", s)
  | "" => ("", "")
  end.

Definition hex_value (c : ascii) : option N :=
  let n := N_of_ascii c in
  (if (48 <=? n) && (n <=? 57) then Some (n - 48)
   else if (65 <=? n) && (n <=? 70) then Some (n - 55)
   else if (97 <=? n) && (n <=? 102) then Some (n - 87)
   else None)%N.

Definition hex4 (a b c d : ascii) : option N :=
  match hex_value a, hex_value b, hex_value c, hex_value d with
  | Some x, Some y, Some z, Some t => Some (((x * 16 + y) * 16 + z) * 16 + t)%N
  | _, _, _, _ => None
  end.

(** The single-character escapes of [json.decoder.BACKSLASH]. *)
Definition backslash (c : ascii) : option ascii :=
  let n := N_of_ascii c in
  (if n =? 34 then Some c
   else if n =? 92 then Some c
   else if n =? 47 then Some c
   else if n =? 98 then Some (ascii_of_N 8)
   else if n =? 102 then Some (ascii_of_N 12)
   else if n =? 110 then Some (ascii_of_N 10)
   else if n =? 114 then Some (ascii_of_N 13)
   else if n =? 116 then Some (ascii_of_N 9)
   else None)%N.

(** [json.decoder.py_scanstring] from just after the opening quote, in
    strict mode: the contents and what follows the closing quote. *)
Fixpoint scanstring (s : string) : option (string * string) :=
  match s with
  | "" => None
  | String c r =>
      if (N_of_ascii c =? 34)%N then Some ("", r)
      else if (N_of_ascii c <? 32)%N then None
      else if (N_of_ascii c =? 92)%N then
        match r with
        | "" => None
        | String e r1 =>
            if (N_of_ascii e =? 117)%N then
              match r1 with
              | String h1 (String h2 (String h3 (String h4 r2))) =>
                  match hex4 h1 h2 h3 h4 with
                  | None => None
                  | Some uni =>
                      let single :=
                        match scanstring r2 with
                        | Some (body, r') => Some (utf8_encode_char uni +:+ body, r')
                        | None => None
                        end in
                      if ((55296 <=? uni) && (uni <=? 56319))%N then
                        match r2 with
                        | String b1 (String b2 r3) =>
                            if ((N_of_ascii b1 =? 92) && (N_of_ascii b2 =? 117))%N
                            then
                              match r3 with
                              | String g1 (String g2 (String g3 (String g4 r4))) =>
                                  match hex4 g1 g2 g3 g4 with
                                  | None => None
                                  | Some uni2 =>
                                      if ((56320 <=? uni2) && (uni2 <=? 57343))%N
                                      then
                                        let u := (65536 + (uni - 55296) * 1024
                                                  + (uni2 - 56320))%N in
                                        match scanstring r4 with
                                        | Some (body, r') =>
                                            Some (utf8_encode_char u +:+ body, r')
                                        | None => None
                                        end
                                      else single
                                  end
                              | _ => None
                              end
                            else single
                        | _ => single
                        end
                      else single
                  end
              | _ => None
              end
            else
              match backslash e with
              | None => None
              | Some x =>
                  match scanstring r1 with
                  | Some (body, r') => Some (String x body, r')
                  | None => None
                  end
              end
        end
      else
        match scanstring r with
        | Some (body, r') => Some (String c body, r')
        | None => None
        end
  end.

(** [json.scanner.NUMBER_RE], matched at the start of [s]: an optional
    minus sign and an integer part (a lone 0, or a digit from 1 to 9 and any
    digits), then optionally a point and digits, then optionally an exponent
    (e or E, an optional sign, digits). *)
Definition scan_int_part (s : string) : option (string * string) :=
  match s with
  | "" => None
  | String c r =>
      if (N_of_ascii c =? 48)%N then Some ("0", r)
      else if is_digit c then Some (span_digits s)
      else None
  end.

Definition scan_frac (s : string) : option (string * string) :=
  match s with
  | String c r =>
      if (N_of_ascii c =? 46)%N then
        match span_digits r with
        | ("", _) => None
        | (ds, r') => Some (String c ds, r')
        end
      else None
  | "" => None
  end.

Definition scan_exp (s : string) : option (string * string) :=
  match s with
  | String c r =>
      if ((N_of_ascii c =? 101) || (N_of_ascii c =? 69))%N then
        let '(sign, r1) :=
          match r with
          | String g r' =>
              if ((N_of_ascii g =? 45) || (N_of_ascii g =? 43))%N
              then (String g "", r') else ("", r)
          | "" => ("", r)
          end in
        match span_digits r1 with
        | ("", _) => None
        | (ds, r') => Some (String c (sign +:+ ds), r')
        end
      else None
  | "" => None
  end.

Definition scan_number (s : string) : option (json * string) :=
  let '(neg, s1) :=
    match s with
    | String c r => if (N_of_ascii c =? 45)%N then (true, r) else (false, s)
    | "" => (false, s)
    end in
  match scan_int_part s1 with
  | None => None
  | Some (ds, r) =>
      let '(frac, r1) := match scan_frac r with
                         | Some (f, r') => (f, r')
                         | None => ("", r)
                         end in
      let '(exp, r2) := match scan_exp r1 with
                        | Some (e, r') => (e, r')
                        | None => ("", r1)
                        end in
      match frac, exp with
      | "", "" =>
          match NilEmpty.uint_of_string ds with
          | Some u => Some (JInt (if neg then - Z.of_uint u else Z.of_uint u), r)
          | None => None
          end
      | _, _ =>
          Some (JFloat ((if neg then "-" else "") +:+ ds +:+ frac +:+ exp), r2)
      end
  end.

(** The loops of [JSONObject] and [JSONArray], over the scanner of values;
    [n] bounds the number of members. *)
Fixpoint object_members (scan : string -> option (json * string)) (n : nat)
    (s : string) (pairs : list (string * json)) : option (json * string) :=
  match n with
  | O => None
  | S n' =>
      match scanstring s with
      | None => None
      | Some (key, r) =>
          match skip_ws r with
          | String c r1 =>
              if (N_of_ascii c =? 58)%N then
                match scan (skip_ws r1) with
                | None => None
                | Some (v, r2) =>
                    let pairs' := dict_set pairs key v in
                    match skip_ws r2 with
                    | String d r3 =>
                        if (N_of_ascii d =? 125)%N then Some (JDict pairs', r3)
                        else if (N_of_ascii d =? 44)%N then
                          match skip_ws r3 with
                          | String q r4 =>
                              if (N_of_ascii q =? 34)%N
                              then object_members scan n' r4 pairs'
                              else None
                          | "" => None
                          end
                        else None
                    | "" => None
                    end
                end
              else None
          | "" => None
          end
      end
  end.

Fixpoint array_items (scan : string -> option (json * string)) (n : nat)
    (s : string) (items : list json) : option (json * string) :=
  match n with
  | O => None
  | S n' =>
      match scan s with
      | None => None
      | Some (v, r) =>
          match skip_ws r with
          | String d r1 =>
              if (N_of_ascii d =? 93)%N then Some (JList (items ++ [v]), r1)
              else if (N_of_ascii d =? 44)%N
              then array_items scan n' (skip_ws r1) (items ++ [v])
              else None
          | "" => None
          end
      end
  end.

(** [scan_once] of [json.scanner.py_make_scanner]; [fuel] bounds the
    nesting depth. *)
Fixpoint scan_once (fuel : nat) (s : string) : option (json * string) :=
  match fuel with
  | O => None
  | S fuel' =>
      match s with
      | "" => None
      | String c r =>
          if (N_of_ascii c =? 34)%N then
            match scanstring r with
            | Some (body, r') => Some (JStr body, r')
            | None => None
            end
          else if (N_of_ascii c =? 123)%N then
            match skip_ws r with
            | String q r1 =>
                if (N_of_ascii q =? 125)%N then Some (JDict [], r1)
                else if (N_of_ascii q =? 34)%N
                then object_members (scan_once fuel') (String.length s) r1 []
                else None
            | "" => None
            end
          else if (N_of_ascii c =? 91)%N then
            match skip_ws r with
            | String q r1 =>
                if (N_of_ascii q =? 93)%N then Some (JList [], r1)
                else array_items (scan_once fuel') (String.length s)
                                 (String q r1) []
            | "" => None
            end
          else
            match strip_prefix "null" s, strip_prefix "true" s,
                  strip_prefix "false" s with
            | Some r', _, _ => Some (JNull, r')
            | _, Some r', _ => Some (JBool true, r')
            | _, _, Some r' => Some (JBool false, r')
            | None, None, None =>
                match scan_number s with
                | Some res => Some res
                | None =>
                    match strip_prefix "NaN" s, strip_prefix "Infinity" s,
                          strip_prefix "-Infinity" s with
                    | Some r', _, _ => Some (JFloat "NaN", r')
                    | _, Some r', _ => Some (JFloat "Infinity", r')
                    | _, _, Some r' => Some (JFloat "-Infinity", r')
                    | None, None, None => None
                    end
                end
            end
      end
  end.

(** [json.loads]: [None] when it raises [JSONDecodeError]. *)
Definition json_loads (s : string) : option json :=
  match scan_once (S (String.length s)) (skip_ws s) with
  | Some (v, r) => match skip_ws r with "" => Some v | _ => None end
  | None => None
  end.

(** [json.dumps({"offset": offset})] for an [int] offset. *)
Definition json_dumps_offset (offset : Z) : string :=
  "{" +:+ quoted "offset" +:+ ": " +:+ str_int offset +:+ "}".

(** *** [hashlib.md5] (RFC 1321), on bytes *)

Definition bytes_of (s : string) : list Z :=
  map (fun c => Z.of_N (N_of_ascii c)) (String.list_ascii_of_string s).

Definition w32 (x : Z) : Z := x mod 4294967296.

Definition rotl32 (x c : Z) : Z :=
  w32 (Z.lor (Z.shiftl x c) (Z.shiftr x (32 - c))).

Definition md5_K : list Z :=
  [
    3614090360; 3905402710; 606105819; 3250441966;
    4118548399; 1200080426; 2821735955; 4249261313;
    1770035416; 2336552879; 4294925233; 2304563134;
    1804603682; 4254626195; 2792965006; 1236535329;
    4129170786; 3225465664; 643717713; 3921069994;
    3593408605; 38016083; 3634488961; 3889429448;
    568446438; 3275163606; 4107603335; 1163531501;
    2850285829; 4243563512; 1735328473; 2368359562;
    4294588738; 2272392833; 1839030562; 4259657740;
    2763975236; 1272893353; 4139469664; 3200236656;
    681279174; 3936430074; 3572445317; 76029189;
    3654602809; 3873151461; 530742520; 3299628645;
    4096336452; 1126891415; 2878612391; 4237533241;
    1700485571; 2399980690; 4293915773; 2240044497;
    1873313359; 4264355552; 2734768916; 1309151649;
    4149444226; 3174756917; 718787259; 3951481745 ].

Definition md5_S : list Z :=
  [ 7; 12; 17; 22; 7; 12; 17; 22; 7; 12; 17; 22; 7; 12; 17; 22;
    5; 9; 14; 20; 5; 9; 14; 20; 5; 9; 14; 20; 5; 9; 14; 20;
    4; 11; 16; 23; 4; 11; 16; 23; 4; 11; 16; 23; 4; 11; 16; 23;
    6; 10; 15; 21; 6; 10; 15; 21; 6; 10; 15; 21; 6; 10; 15; 21 ].

(** The bytes of [x], least significant first. *)
Fixpoint le_bytes (n : nat) (x : Z) : list Z :=
  match n with
  | O => []
  | S n' => x mod 256 :: le_bytes n' (x / 256)
  end.

Fixpoint le_word (bs : list Z) : Z :=
  match bs with
  | [] => 0
  | b :: bs' => b + 256 * le_word bs'
  end.

Definition md5_pad (msg : list Z) : list Z :=
  let len := Z.of_nat (length msg) in
  let zeros := Z.to_nat ((55 - len) mod 64) in
  msg ++ 128 :: repeat 0 zeros ++ le_bytes 8 (8 * len).

Fixpoint words (n : nat) (bs : list Z) : list Z :=
  match n with
  | O => []
  | S n' => le_word (take 4 bs) :: words n' (drop 4 bs)
  end.

Definition md5_round (M : list Z) (st : Z * Z * Z * Z) (i : nat)
    : Z * Z * Z * Z :=
  let '(A, B, C, D) := st in
  let not32 x := Z.lxor x 4294967295 in
  let '(F, g) :=
    if (i <? 16)%nat then (Z.lor (Z.land B C) (Z.land (not32 B) D), i)
    else if (i <? 32)%nat then
      (Z.lor (Z.land D B) (Z.land (not32 D) C), ((5 * i + 1) mod 16)%nat)
    else if (i <? 48)%nat then
      (Z.lxor B (Z.lxor C D), ((3 * i + 5) mod 16)%nat)
    else (Z.lxor C (Z.lor B (not32 D)), ((7 * i) mod 16)%nat) in
  let F' := w32 (F + A + nth i md5_K 0 + nth g M 0) in
  (D, w32 (B + rotl32 F' (nth i md5_S 0)), B, C).

Definition md5_chunk (st : Z * Z * Z * Z) (chunk : list Z) : Z * Z * Z * Z :=
  let '(sa, sb, sc, sd) := st in
  let '(A, B, C, D) := fold_left (md5_round (words 16 chunk)) (seq 0 64) st in
  (w32 (sa + A), w32 (sb + B), w32 (sc + C), w32 (sd + D)).

Fixpoint md5_chunks (n : nat) (st : Z * Z * Z * Z) (bs : list Z)
    : Z * Z * Z * Z :=
  match n with
  | O => st
  | S n' => md5_chunks n' (md5_chunk st (take 64 bs)) (drop 64 bs)
  end.

Definition md5_digest (msg : list Z) : list Z :=
  let padded := md5_pad msg in
  let '(a, b, c, d) :=
    md5_chunks (length padded / 64)
               (1732584193, 4023233417, 2562383102, 271733878) padded in
  le_bytes 4 a ++ le_bytes 4 b ++ le_bytes 4 c ++ le_bytes 4 d.

Definition hex_digit (n : Z) : ascii :=
  ascii_of_N (Z.to_N (if n <? 10 then 48 + n else 87 + n)).

Fixpoint hex_of_bytes (bs : list Z) : string :=
  match bs with
  | [] => ""
  | b :: bs' => String (hex_digit (b / 16)) (String (hex_digit (b mod 16))
                                              (hex_of_bytes bs'))
  end.

(** [hashlib.md5(s.encode()).hexdigest()] *)
Definition md5_hexdigest (s : string) : string :=
  hex_of_bytes (md5_digest (bytes_of s)).

(** Arithmetic on bytes and sextets, with divisions by constants. *)
Ltac sextet := zify; Z.to_euclidean_division_equations; lia.

End Py.

(** ** app/models/schemas.py *)

Record UserSignals : Type := mkUserSignals {
  user_hash : string;
  watched_ids : list string;
  affinities : gmap string Q;
  last_demographics : gmap string string
}.

Record VideoMetadata : Type := mkVideo {
  video_id : string;
  video_title : string;
  video_score : Q;
  tags : list string;
  maturity_rating : string;
  published_at : Z
}.

(** The two recognised keys of [TenantRankingRules.filters]; a key that is
    absent from the dictionary reads as [config.filters.get] does. *)
Record Filters : Type := mkFilters {
  exclude_tags : list string;
  max_maturity : option string
}.

Record TenantRankingRules : Type := mkRules {
  tenant_id : string;
  boost_weights : gmap string Q;
  filters : Filters;
  editorial_boosts : gmap string Z
}.

Record ScoredVideo : Type := mkScored {
  video : VideoMetadata;
  final_score : Q;
  score_breakdown : list (string * Q)
}.

Record FeedItem : Type := mkFeedItem {
  item_id : string;
  item_title : string;
  playback_url : string;
  tracking_token : string;
  debug_score : option Q
}.

Record FeedResponse : Type := mkFeedResponse {
  items : list FeedItem;
  next_cursor : option string;
  has_more : bool;
  degraded : bool;
  is_personalized : bool
}.

(** [UserSignals(user_hash=...)] with the field defaults. *)
Definition empty_signals (h : string) : UserSignals := mkUserSignals h [] ∅ ∅.

(** [UserSignals.is_cold_start] *)
Definition is_cold_start (u : UserSignals) : bool :=
  (length (watched_ids u) =? 0)%nat && (size (affinities u) =? 0)%nat.

(** [TenantRankingRules(tenant_id=...)] with the field defaults. *)
Definition default_rules (t : string) : TenantRankingRules :=
  mkRules t
    (<["recency" := 1%Q]> (<["popularity" := 1%Q]> (<["user_affinity" := 1%Q]> ∅)))
    (mkFilters [] None) ∅.

(** ** app/services/ranking.py *)

Module Ranking.
Import Py.

(** [d.get(key, 1.0)] on the boost weights. *)
Definition weight (config : TenantRankingRules) (key : string) : Q :=
  default 1%Q (boost_weights config !! key).

(** A [ScoringStrategy]: its [calculate_boost], at clock reading [now]. *)
Record ScoringStrategy : Type := mkStrategy {
  calculate_boost : Q -> VideoMetadata -> UserSignals -> TenantRankingRules
                    -> Q * string
}.

Definition DECAY_HOURS : Q := 48%Q.

Definition RecencyScoring : ScoringStrategy :=
  mkStrategy (fun now video user config =>
    let x := ((now - inject_Z (published_at video)) / 3600)%Q in
    let age_hours := if Qgtb x 0 then x else 0%Q in
    let boost :=
      if Qle_bool DECAY_HOURS age_hours then 0%Q
      else
        let decay_factor := (1 - age_hours / DECAY_HOURS)%Q in
        (weight config "recency" * decay_factor)%Q in
    (boost, "recency")).

Definition AffinityScoring : ScoringStrategy :=
  mkStrategy (fun now video user config =>
    let max_affinity :=
      fold_left (fun acc tag =>
                   let affinity := default 0%Q (affinities user !! tag) in
                   if Qgtb affinity acc then affinity else acc)
                (tags video) 0%Q in
    ((weight config "user_affinity" * max_affinity)%Q, "affinity")).

Definition PopularityScoring : ScoringStrategy :=
  mkStrategy (fun now video user config => (weight config "popularity", "popularity")).

Record RankingEngine : Type := mkEngine {
  _strategies : list ScoringStrategy
}.

(** [RankingEngine()] *)
Definition default_engine : RankingEngine :=
  mkEngine [RecencyScoring; AffinityScoring].

Definition ratings : list string := ["G"; "PG"; "PG-13"; "R"; "NC-17"].

(** [l.index(x)]; [None] where Python raises [ValueError]. *)
Fixpoint index (l : list string) (x : string) : option nat :=
  match l with
  | [] => None
  | y :: l' => if decide (y = x) then Some O else S <$> index l' x
  end.

Definition _is_maturity_allowed (video_rating max_rating : string) : bool :=
  match index ratings video_rating, index ratings max_rating with
  | Some video_idx, Some max_idx => (video_idx <=? max_idx)%nat
  | _, _ => true
  end.

(** The body of the loop of [_filter_candidates]: [true] when the video is
    appended, [false] on each [continue]. *)
Definition keeps (user : UserSignals) (config : TenantRankingRules)
    (v : VideoMetadata) : bool :=
  if bool_decide (video_id v ∈ watched_ids user) then false
  else if existsb (fun tag => bool_decide (tag ∈ exclude_tags (filters config)))
                  (tags v) then false
  else match max_maturity (filters config) with
       | Some max_rating =>
           if negb (String.eqb max_rating "")
              && negb (_is_maturity_allowed (maturity_rating v) max_rating)
           then false else true
       | None => true
       end.

Definition _filter_candidates (candidates : list VideoMetadata)
    (user : UserSignals) (config : TenantRankingRules) : list VideoMetadata :=
  List.filter (keeps user config) candidates.

Section Engine.
Variable self : RankingEngine.
(** The reading of [time.time()] during the call. *)
Variable now : Q.

Definition score_one (user : UserSignals) (config : TenantRankingRules)
    (popularity_weight : Q) (v : VideoMetadata) : ScoredVideo :=
  let base_score := (video_score v * popularity_weight)%Q in
  let '(total_boost, breakdown) :=
    fold_left (fun '(total, bd) strategy =>
                 let '(boost, name) := calculate_boost strategy now v user config in
                 ((total + boost)%Q, dict_set bd name boost))
              (_strategies self) (0%Q, [("base", base_score)]) in
  let final := (base_score * (1 + total_boost))%Q in
  mkScored v final
    (dict_set (dict_set breakdown "total_boost" total_boost) "final" final).

Definition _score_candidates (candidates : list VideoMetadata)
    (user : UserSignals) (config : TenantRankingRules) : list ScoredVideo :=
  let popularity_weight :=
    fst (calculate_boost PopularityScoring now
           (match candidates with
            | v :: _ => v
            | [] => mkVideo "" "" 0%Q [] "G" 0
            end) user config) in
  map (score_one user config popularity_weight) candidates.

(** The first loop of [_apply_editorial_boosts]: the boosted items by
    position, and the remaining ones. *)
Definition extract_step (config : TenantRankingRules)
    (acc : list (Z * ScoredVideo) * list ScoredVideo) (item : ScoredVideo)
    : list (Z * ScoredVideo) * list ScoredVideo :=
  let '(boosted_items, remaining) := acc in
  match editorial_boosts config !! video_id (video item) with
  | Some position => (dict_set boosted_items position item, remaining)
  | None => (boosted_items, remaining ++ [item])
  end.

Definition extract_boosted (config : TenantRankingRules)
    (scored : list ScoredVideo)
    : list (Z * ScoredVideo) * list ScoredVideo :=
  fold_left (extract_step config) scored ([], []).

(** The body of the second loop: one boosted item is put back. *)
Definition reinsert (result : list ScoredVideo) (entry : Z * ScoredVideo)
    : list ScoredVideo :=
  let '(position, item) := entry in
  let insert_idx := Z.min position (Z.of_nat (length result)) in
  insert result insert_idx item.

Definition _apply_editorial_boosts (scored : list ScoredVideo)
    (config : TenantRankingRules) : list ScoredVideo :=
  if decide (editorial_boosts config = ∅) then scored
  else
    let '(boosted_items, remaining) := extract_boosted config scored in
    let result := remaining in
    fold_left reinsert (sorted_asc fst boosted_items) result.

Definition _to_feed_items (scored : list ScoredVideo) : list FeedItem :=
  map (fun sv =>
         mkFeedItem (video_id (video sv)) (video_title (video sv))
           ("https://cdn.example.com/v/" +:+ video_id (video sv) +:+ ".m3u8")
           ("tok_" +:+ video_id (video sv) +:+ "_" +:+ str_int (int now))
           (Some (round2 (final_score sv))))
      scored.

(** [_decode_cursor]: what it returns is whatever the payload holds under
    ["offset"]; every exception of the [try] block gives [0]. *)
Definition _decode_cursor (cursor : option string) : json :=
  match cursor with
  | None => JInt 0
  | Some "" => JInt 0
  | Some c =>
      match b64decode c with
      | None => JInt 0
      | Some bytes =>
          match utf8_decode bytes with
          | None => JInt 0
          | Some decoded =>
              match json_loads decoded with
              | None => JInt 0
              | Some (JDict data) => default (JInt 0) (dict_get data "offset")
              | Some _ => JInt 0
              end
          end
      end
  end.

Definition _encode_cursor (offset : Z) : string :=
  b64encode (json_dumps_offset offset).

(** Steps 1 to 4 of [rank]: filter, score, sort, editorial overrides. *)
Definition sorted_scored (candidates : list VideoMetadata)
    (user : UserSignals) (config : TenantRankingRules) : list ScoredVideo :=
  let filtered := _filter_candidates candidates user config in
  let scored := _score_candidates filtered user config in
  sorted_desc final_score scored.

Definition ranked (candidates : list VideoMetadata)
    (user : UserSignals) (config : TenantRankingRules) : list ScoredVideo :=
  _apply_editorial_boosts (sorted_scored candidates user config) config.

(** An object usable as a slice bound and as an [int] operand: an [int]
    or a [bool]. *)
Definition as_int (v : json) : option Z :=
  match v with
  | JInt n => Some n
  | JBool b => Some (if b then 1 else 0)
  | _ => None
  end.

(** [RankingEngine.rank].  The slice [scored[offset : offset + limit]]
    raises [TypeError] unless the offset is an [int] (or a [bool]). *)
Definition rank (candidates : list VideoMetadata) (user : UserSignals)
    (config : TenantRankingRules) (limit : Z) (cursor : option string)
    : outcome (list FeedItem * option string * bool) :=
  let offset := _decode_cursor cursor in
  let scored := ranked candidates user config in
  match as_int offset with
  | None => Raised TypeError
  | Some offset =>
      let page_items := slice scored offset (offset + limit) in
      let has_more := Z.of_nat (length scored) >? offset + limit in
      let feed_items := _to_feed_items page_items in
      let next_cursor :=
        if has_more then Some (_encode_cursor (offset + limit)) else None in
      Returned (feed_items, next_cursor, has_more)
  end.

(** Successive requests of one client: each follows the [next_cursor] of
    the answer before, until an answer carries none.  The items of all the
    pages, in order; [fuel] bounds the number of requests. *)
Fixpoint feed_pages (fuel : nat) (candidates : list VideoMetadata)
    (user : UserSignals) (config : TenantRankingRules) (limit : Z)
    (cursor : option string) : list FeedItem :=
  match fuel with
  | O => []
  | S fuel' =>
      match rank candidates user config limit cursor with
      | Returned (page, Some next, _) =>
          page ++ feed_pages fuel' candidates user config limit (Some next)
      | Returned (page, None, _) => page
      | Raised _ => []
      end
  end.

End Engine.

(** The scored items an editorial override applies to, with their target
    positions, and the other items; both in the order of [scored]. *)
Definition editorial_pairs (config : TenantRankingRules)
    (scored : list ScoredVideo) : list (Z * ScoredVideo) :=
  omap (fun item => (fun position => (position, item))
                      <$> editorial_boosts config !! video_id (video item))
       scored.

Definition non_editorial (config : TenantRankingRules)
    (scored : list ScoredVideo) : list ScoredVideo :=
  List.filter (fun item =>
                 bool_decide (editorial_boosts config !! video_id (video item) = None))
              scored.

Definition ids (l : list ScoredVideo) : list string :=
  map (fun sv => video_id (video sv)) l.

(** Ties broken by id: of two items of [l] with equal final scores, the one
    with the smaller id comes first. *)
Definition ties_by_id (l : list ScoredVideo) : Prop :=
  forall (i j : nat) (x y : ScoredVideo),
    l !! i = Some x -> l !! j = Some y ->
    (final_score x == final_score y)%Q ->
    String.ltb (video_id (video x)) (video_id (video y)) = true ->
    (i < j)%nat.

(** No editorial item is lost between two sequences. *)
Definition no_editorial_dropped (config : TenantRankingRules)
    (before after : list ScoredVideo) : Prop :=
  forall i : string,
    is_Some (editorial_boosts config !! i) -> i ∈ ids before -> i ∈ ids after.

End Ranking.

(** ** app/config/settings.py *)

Record Settings : Type := mkSettings {
  PERSONALIZATION_ENABLED : bool;
  KILL_SWITCH_ACTIVE : bool;
  ROLLOUT_PERCENTAGE : Z;
  CIRCUIT_BREAKER_FAILURE_THRESHOLD : Z;
  CIRCUIT_BREAKER_RECOVERY_TIMEOUT_SEC : Z;
  DEFAULT_FEED_LIMIT : Z;
  MAX_FEED_LIMIT : Z
}.

(** [Settings()] with no environment override. *)
Definition default_settings : Settings := mkSettings true false 100 5 30 20 50.

(** ** app/models/interfaces.py *)

(** The repository protocols, as the outcomes of their (awaited) calls. *)
Record Repositories : Type := mkRepositories {
  get_signals : string -> outcome (option UserSignals);
  get_candidates : string -> outcome (list VideoMetadata);
  get_fallback_feed : string -> outcome (list VideoMetadata);
  get_config : string -> outcome (option TenantRankingRules);
  get_default_config : string -> TenantRankingRules
}.

Record FeatureFlagService : Type := mkFlags {
  is_personalization_enabled : string -> string -> bool;
  is_kill_switch_active : bool
}.

(** ** app/services/feature_flags.py *)

Module FeatureFlags.
Import Py.

Record ConfigBasedFeatureFlagService : Type := mkService {
  _rollout_percentage : Q
}.

Fixpoint be_word (bs : list Z) (acc : Z) : Z :=
  match bs with
  | [] => acc
  | b :: bs' => be_word bs' (acc * 256 + b)
  end.

Definition _is_user_in_rollout (self : ConfigBasedFeatureFlagService)
    (user_hash : string) : bool :=
  let hash_bytes := md5_digest (bytes_of user_hash) in
  let hash_value := be_word (take 4 hash_bytes) 0 in
  let bucket := hash_value mod 100 in
  Qgtb (_rollout_percentage self) (inject_Z bucket).

Definition kill_switch (settings : Settings) : bool := KILL_SWITCH_ACTIVE settings.

Definition personalization_enabled (settings : Settings)
    (self : ConfigBasedFeatureFlagService) (tenant_id user_hash : string) : bool :=
  if kill_switch settings then false
  else if negb (PERSONALIZATION_ENABLED settings) then false
  else if Qgtb 100 (_rollout_percentage self)
       then _is_user_in_rollout self user_hash
  else true.

(** [set_rollout_percentage] *)
Definition set_rollout_percentage (self : ConfigBasedFeatureFlagService)
    (percentage : Q) : ConfigBasedFeatureFlagService :=
  mkService (max 0 (min 100 percentage)).

(** The service as a [FeatureFlagService]. *)
Definition service (settings : Settings) (self : ConfigBasedFeatureFlagService)
    : FeatureFlagService :=
  mkFlags (personalization_enabled settings self) (kill_switch settings).

End FeatureFlags.

(** ** app/services/feed.py *)

Module Feed.
Import Py.

Record FeedService : Type := mkFeedService {
  _repos : Repositories;
  _feature_flags : FeatureFlagService;
  _ranking_engine : Ranking.RankingEngine;
  _circuit_breaker : Breaker.CircuitBreaker
}.

Definition with_breaker (self : FeedService) (cb : Breaker.CircuitBreaker)
    : FeedService :=
  mkFeedService (_repos self) (_feature_flags self) (_ranking_engine self) cb.

(** The code points of a text, for [ord]. *)
Fixpoint code_points (s : string) : list Z :=
  match s with
  | "" => []
  | String a r =>
      let x := Z.of_N (N_of_ascii a) in
      let cont c := Z.of_N (N_of_ascii c) - 128 in
      if x <? 192 then x :: code_points r
      else match r with
      | "" => [x]
      | String b r1 =>
          if x <? 224 then ((x - 192) * 64 + cont b) :: code_points r1
          else match r1 with
          | "" => [x]
          | String c r2 =>
              if x <? 240
              then (((x - 224) * 64 + cont b) * 64 + cont c) :: code_points r2
              else match r2 with
              | "" => [x]
              | String d r3 =>
                  ((((x - 240) * 64 + cont b) * 64 + cont c) * 64 + cont d)
                    :: code_points r3
              end
          end
      end
  end.

Section Service.
Variable settings : Settings.
(** The reading of [time.time()] while the request is served. *)
Variable now : Q.

Definition fallback_item (prefix : string) (v : VideoMetadata) : FeedItem :=
  mkFeedItem (video_id v) (video_title v)
    ("https://cdn.example.com/v/" +:+ video_id v +:+ ".m3u8")
    (prefix +:+ video_id v +:+ "_" +:+ str_int (int now))
    (Some (video_score v)).

(** [FeedService._get_fallback_feed] *)
Definition _get_fallback_feed (self : FeedService) (tenant_id : string)
    (limit : Z) (degraded : bool) : outcome FeedResponse :=
  match get_fallback_feed (_repos self) tenant_id with
  | Raised e => Raised e
  | Returned fallback_videos =>
      Returned (mkFeedResponse
                  (map (fallback_item "fallback_") (slice fallback_videos 0 limit))
                  None false degraded false)
  end.

(** [FeedService._get_fallback_items_sync] *)
Definition _get_fallback_items_sync (candidates : list VideoMetadata)
    (limit : Z) : list FeedItem * option string * bool :=
  let sorted_candidates := slice (sorted_desc video_score candidates) 0 limit in
  (map (fallback_item "cb_fallback_") sorted_candidates, None, false).

(** [FeedService._get_personalized_feed]: the response (or the exception
    that escapes) and the circuit breaker afterwards. *)
Definition _get_personalized_feed (self : FeedService)
    (tenant_id user_hash : string) (limit : Z) (cursor : option string)
    : outcome FeedResponse * Breaker.CircuitBreaker :=
  let cb := _circuit_breaker self in
  match get_signals (_repos self) user_hash with
  | Raised e => (Raised e, cb)
  | Returned user_signals =>
  match get_candidates (_repos self) tenant_id with
  | Raised e => (Raised e, cb)
  | Returned candidates =>
  match get_config (_repos self) tenant_id with
  | Raised e => (Raised e, cb)
  | Returned config =>
      let user_signals := default (empty_signals user_hash) user_signals in
      match candidates with
      | [] => (_get_fallback_feed self tenant_id limit true, cb)
      | _ :: _ =>
          let config := default (get_default_config (_repos self) tenant_id) config in
          let candidates :=
            if (200 <? length candidates)%nat then slice candidates 0 200
            else candidates in
          let '(r, cb', _) :=
            Breaker.call (fun w : Q => w) cb
              (fun w => (Ranking.rank (_ranking_engine self) w candidates
                                      user_signals config limit cursor, w))
              (Some (fun w => (Returned (_get_fallback_items_sync candidates limit), w)))
              now in
          match r with
          | Raised e => (Raised e, cb')
          | Returned (items, next_cursor, has_more) =>
              (Returned (mkFeedResponse items next_cursor has_more false true), cb')
          end
      end
  end end end.

(** [FeedService.get_feed] *)
Definition get_feed (self : FeedService) (tenant_id user_hash : string)
    (limit : Z) (cursor : option string)
    : outcome FeedResponse * Breaker.CircuitBreaker :=
  let personalization_enabled :=
    is_personalization_enabled (_feature_flags self) tenant_id user_hash in
  let user_hash_int := foldr Z.add 0 (code_points user_hash) in
  let personalization_enabled :=
    if ROLLOUT_PERCENTAGE settings <=? user_hash_int mod 100 then false
    else personalization_enabled in
  if negb personalization_enabled
  then (_get_fallback_feed self tenant_id limit false, _circuit_breaker self)
  else
    match _get_personalized_feed self tenant_id user_hash limit cursor with
    | (Returned feed_response, cb) => (Returned feed_response, cb)
    | (Raised e, cb) => (_get_fallback_feed self tenant_id limit true, cb)
    end.

(** The two gates of [get_feed]: the secondary rollout check, and its
    conjunction with the feature-flag service. *)
Definition in_rollout (user_hash : string) : Prop :=
  foldr Z.add 0 (code_points user_hash) mod 100 < ROLLOUT_PERCENTAGE settings.

Definition personalizes (self : FeedService) (tenant_id user_hash : string)
    : Prop :=
  is_personalization_enabled (_feature_flags self) tenant_id user_hash = true
  /\ in_rollout user_hash.

End Service.

End Feed.

(** ** app/api/routers/feed.py *)

Module Router.
Import Py.

(** What the endpoint answers: the status, the headers set on the answer
    and the body, if any. *)
Record HttpResponse : Type := mkHttp {
  status_code : Z;
  headers : list (string * string);
  body : option FeedResponse
}.

(** The [ETag / 304 Logic] block: the weak ETag of a feed response. *)
Definition compute_etag (feed_response : FeedResponse) : option string :=
  match items feed_response with
  | [] => None
  | _ :: _ =>
      let content_str := String.concat "" (map item_id (items feed_response)) in
      let etag_hash := String.substring 0 16 (md5_hexdigest content_str) in
      Some ("W/" +:+ quoted etag_hash)
  end.

(** The handler from the feed response on. *)
Definition respond (feed_response : FeedResponse) (if_none_match : option string)
    : HttpResponse :=
  let etag := compute_etag feed_response in
  let headers := match etag with
                 | Some e => [("ETag", e)]
                 | None => []
                 end in
  let hit := match if_none_match, etag with
             | Some inm, Some e => negb (String.eqb inm "") && String.eqb inm e
             | _, _ => false
             end in
  if hit then mkHttp 304 [] None
  else
    let headers :=
      if is_personalized feed_response && negb (degraded feed_response)
      then dict_set (dict_set headers "Cache-Control" "private, max-age=30")
                    "Vary" "X-User-Hash"
      else dict_set (dict_set headers "Cache-Control"
                       "public, max-age=30, stale-while-revalidate=15")
                    "Vary" "Accept-Encoding" in
    let headers :=
      dict_set headers "X-Personalized"
               (if is_personalized feed_response then "true" else "false") in
    mkHttp 200 headers (Some feed_response).

(** [get_feed] of the router. *)
Definition get_feed (settings : Settings) (now : Q) (feed_service : Feed.FeedService)
    (limit : Z) (cursor : option string) (user_hash x_tenant_id : string)
    (if_none_match : option string)
    : outcome HttpResponse * Breaker.CircuitBreaker :=
  let effective_limit := Z.min limit (MAX_FEED_LIMIT settings) in
  match Feed.get_feed settings now feed_service x_tenant_id user_hash
                      effective_limit cursor with
  | (Raised e, cb) => (Raised e, cb)
  | (Returned feed_response, cb) => (Returned (respond feed_response if_none_match), cb)
  end.

End Router.

(** ** app/api/routers/health.py *)

Module Health.

(** The answer of the readiness endpoint. *)
Record Readiness : Type := mkReadiness {
  status : string;
  circuit_breaker_name : string;
  circuit_breaker_state : string;
  personalization_enabled : bool;
  kill_switch_active : bool
}.

(** [readiness_check], for the settings and the ranking circuit breaker
    that [dependencies.py] holds. *)
Definition readiness_check (settings : Settings)
    (circuit_breaker : Breaker.CircuitBreaker) : Readiness :=
  mkReadiness "ready"
    (Breaker._name circuit_breaker)
    (Breaker.state_value (Breaker._state circuit_breaker))
    (PERSONALIZATION_ENABLED settings)
    (KILL_SWITCH_ACTIVE settings).

End Health.

(** ** app/repositories/memory.py *)

Module Memory.

(** The mock data of [_initialize_mock_data], built at clock reading [now]. *)
Section Mock.
Variable now : Q.
Let t0 : Z := Py.int now.
Let hour : Z := 3600.

Definition mock_users : list UserSignals :=
  [ mkUserSignals "user_sporty" ["v2"]
      (<["sports" := 0.9%Q]> (<["football" := 0.8%Q]> (<["strategy" := 0.1%Q]> ∅))) ∅;
    mkUserSignals "user_newsy" ["n1"]
      (<["politics" := 0.9%Q]> (<["finance" := 0.7%Q]> ∅)) ∅;
    mkUserSignals "user_new" [] ∅ ∅ ].

Definition sports_videos : list VideoMetadata :=
  [ mkVideo "v1" "Amazing Goal Messi" 95 ["sports"; "football"; "viral"] "G"
            (t0 - 2 * hour);
    mkVideo "v2" "Tennis Highlights" 80 ["sports"; "tennis"] "G" (t0 - 24 * hour);
    mkVideo "v3" "Chess Championship" 60 ["strategy"; "board_games"] "G"
            (t0 - 48 * hour);
    mkVideo "v4" "Funny Cat Fails" 85 ["viral"; "animals"] "G" (t0 - 12 * hour);
    mkVideo "v5" "Live: Stadium Construction" 40 ["news"; "construction"] "G"
            (t0 - 1 * hour) ].

Definition news_videos : list VideoMetadata :=
  [ mkVideo "n1" "Election Results" 99 ["politics"; "news"] "G" (t0 - 1 * hour);
    mkVideo "n2" "Weather Forecast" 70 ["news"; "weather"] "G" (t0 - 4 * hour);
    mkVideo "n3" "Tech Stock Crash" 88 ["finance"; "tech"] "G" (t0 - 10 * hour);
    mkVideo "n4" "Cute Panda Born" 92 ["animals"; "positive"] "G" (t0 - 72 * hour) ].

Definition mock_configs : list TenantRankingRules :=
  [ mkRules "tenant_sports"
      (<["recency" := 1.5%Q]> (<["popularity" := 0.5%Q]> (<["user_affinity" := 2%Q]> ∅)))
      (mkFilters ["politics"] None) ∅;
    mkRules "tenant_news"
      (<["recency" := 2%Q]> (<["popularity" := 1%Q]> (<["user_affinity" := 0.5%Q]> ∅)))
      (mkFilters [] (Some "PG")) ∅ ].

Definition user_cache : Cache.InMemoryCache UserSignals :=
  fold_left (fun c u => Cache.set c (user_hash u) u None now) mock_users
            (Cache.init None).

Definition candidate_cache : Cache.InMemoryCache (list VideoMetadata) :=
  Cache.set (Cache.set (Cache.init None) "tenant_sports" sports_videos None now)
            "tenant_news" news_videos None now.

Definition fallback_cache : gmap string (list VideoMetadata) :=
  <["tenant_news" := Py.slice (Py.sorted_desc video_score news_videos) 0 3]>
    (<["tenant_sports" := Py.slice (Py.sorted_desc video_score sports_videos) 0 3]> ∅).

Definition config_cache : Cache.InMemoryCache TenantRankingRules :=
  fold_left (fun c r => Cache.set c (tenant_id r) r None now) mock_configs
            (Cache.init None).

(** The three in-memory repositories, read at clock reading [t]. *)
Definition repositories (t : Q) : Repositories :=
  mkRepositories
    (fun h => Returned (Some (default (empty_signals h)
                                      (Cache.get user_cache h t).1)))
    (fun tenant => Returned (default [] (Cache.get candidate_cache tenant t).1))
    (fun tenant => Returned (default [] (fallback_cache !! tenant)))
    (fun tenant => Returned (Cache.get config_cache tenant t).1)
    default_rules.

End Mock.

(** The repositories as objects over their caches, read and written at
    clock reading [t]: what each method returns, and the cache afterwards. *)
Definition get_signals (cache : Cache.InMemoryCache UserSignals)
    (user_hash : string) (t : Q) : UserSignals * Cache.InMemoryCache UserSignals :=
  let '(signals, cache') := Cache.get cache user_hash t in
  (default (empty_signals user_hash) signals, cache').

Definition save_signals (cache : Cache.InMemoryCache UserSignals)
    (signals : UserSignals) (t : Q) : Cache.InMemoryCache UserSignals :=
  Cache.set cache (user_hash signals) signals None t.

Definition get_candidates (cache : Cache.InMemoryCache (list VideoMetadata))
    (tenant_id : string) (t : Q)
    : list VideoMetadata * Cache.InMemoryCache (list VideoMetadata) :=
  let '(candidates, cache') := Cache.get cache tenant_id t in
  (default [] candidates, cache').

End Memory.


(** ** Concrete requests, for the examples *)

Module Scenarios.
Import Py Ranking.

Definition now0 : Q := 1700000000.

(** The fixtures of [memory.py]. *)
Definition sports : list VideoMetadata := Memory.sports_videos now0.
Definition user_sporty : UserSignals :=
  mkUserSignals "user_sporty" ["v2"]
    (<["sports" := 0.9%Q]> (<["football" := 0.8%Q]> (<["strategy" := 0.1%Q]> ∅))) ∅.
Definition sports_weights : gmap string Q :=
  <["recency" := 1.5%Q]> (<["popularity" := 0.5%Q]> (<["user_affinity" := 2%Q]> ∅)).
Definition sports_config : TenantRankingRules :=
  mkRules "tenant_sports" sports_weights (mkFilters ["politics"] None) ∅.

(** The feed service as [dependencies.py] wires it. *)
Definition service : Feed.FeedService :=
  Feed.mkFeedService (Memory.repositories now0 now0)
    (FeatureFlags.service default_settings (FeatureFlags.mkService 100))
    default_engine (Breaker.init "ranking_service" 5 30).

(** Two candidates that differ in their ids only, the larger id first. *)
Definition tie_b : VideoMetadata := mkVideo "b" "Second" 50 [] "G" 0.
Definition tie_a : VideoMetadata := mkVideo "a" "First" 50 [] "G" 0.

(** Editorial overrides: two videos pinned to distinct positions, and two
    videos pinned to the same position. *)
Definition pinned : TenantRankingRules :=
  mkRules "tenant_sports" sports_weights (mkFilters [] None)
          (<["v5" := 0]> (<["v3" := 1]> ∅)).
Definition pinned_twice : TenantRankingRules :=
  mkRules "tenant_sports" sports_weights (mkFilters [] None)
          (<["v1" := 0]> (<["v4" := 0]> ∅)).

(** Cursors: the base64 texts of a payload whose offset is the text x, and
    of a payload whose offset is -1. *)
Definition cursor_text : string := "eyJvZmZzZXQiOiAieCJ9".
Definition cursor_negative : string := "eyJvZmZzZXQiOiAtMX0=".

(** A breaker with threshold 2 and two calls that fail, at clock readings
    10 and 11; the world is the clock reading. *)
Definition fresh_breaker : Breaker.CircuitBreaker := Breaker.init "test" 2 30.
Definition failing : Breaker.callable (W:=Q) (T:=string) :=
  fun w => (Raised (OtherError "Error"), w).
Definition tripped : Breaker.CircuitBreaker :=
  Breaker.mkBreaker "test" 2 30 Breaker.OPEN 2 (Some 11%Q).

(** The first page of three items that [user_sporty] is served. *)
Definition first_page : list FeedItem * option string * bool :=
  match rank default_engine now0 sports user_sporty sports_config 3 None with
  | Returned answer => answer
  | Raised _ => ([], None, false)
  end.

(** The same service under an active kill switch. *)
Definition kill_switch_settings : Settings := mkSettings true true 100 5 30 20 50.
Definition gated_service : Feed.FeedService :=
  Feed.mkFeedService (Memory.repositories now0 now0)
    (FeatureFlags.service kill_switch_settings (FeatureFlags.mkService 100))
    default_engine (Breaker.init "ranking_service" 5 30).

(** Two clock readings 100 seconds apart, between which the recency boost
    of v5 falls below the score of v3. *)
Definition clock_first : Q := 1700077000.
Definition clock_second : Q := 1700077100.

(** A feed response with the given item ids. *)
Definition response_of_ids (ids : list string) : FeedResponse :=
  mkFeedResponse (map (fun i => mkFeedItem i "" "" "" None) ids) None false false true.

End Scenarios.

(** * Properties *)

Import Py.

(** ** The codec of cursors *)

(** *** [base64.b64decode] inverts [base64.b64encode] *)

Lemma b64_char_facts (i : N) :
  (i < 64)%N ->
  b64_value (b64_char i) = Some i
  /\ Ascii.eqb (b64_char i) "="%char = false
  /\ is_ascii (b64_char i) = true.
Proof.
  intros H.
  assert (A : forallb (fun i => match b64_value (b64_char i) with
                                | Some j => N.eqb i j
                                | None => false
                                end
                                && negb (Ascii.eqb (b64_char i) "="%char)
                                && is_ascii (b64_char i))
                      (map N.of_nat (seq 0 64)) = true)
    by (vm_compute; reflexivity).
  rewrite forallb_forall in A. specialize (A i).
  assert (I : In i (map N.of_nat (seq 0 64))).
  { apply in_map_iff. exists (N.to_nat i). split; [lia|]. apply in_seq. lia. }
  apply A in I. apply andb_prop in I as [I I3]. apply andb_prop in I as [I1 I2].
  destruct (b64_value (b64_char i)); [|discriminate].
  apply N.eqb_eq in I1. subst. apply negb_true_iff in I2. auto.
Qed.

Lemma b64_char_is_ascii (i : N) : (i < 64)%N -> is_ascii (b64_char i) = true.
Proof. intros H. apply (b64_char_facts i H). Qed.

(** One sextet read by the decoder, in each of the four positions of a quad. *)
Lemma a2b_alpha0 (i : N) rest l p out :
  (i < 64)%N ->
  a2b_base64 (String (b64_char i) rest) 0%N l p out = a2b_base64 rest 1%N i 0%N out.
Proof.
  intros H. destruct (b64_char_facts i H) as (E1 & E2 & _).
  cbn [a2b_base64]. rewrite E2, E1. reflexivity.
Qed.

Lemma a2b_alpha1 (i : N) rest l p out :
  (i < 64)%N ->
  a2b_base64 (String (b64_char i) rest) 1%N l p out
  = a2b_base64 rest 2%N (i mod 16)%N 0%N (ascii_of_N (l * 4 + i / 16) :: out).
Proof.
  intros H. destruct (b64_char_facts i H) as (E1 & E2 & _).
  cbn [a2b_base64]. rewrite E2, E1. reflexivity.
Qed.

Lemma a2b_alpha2 (i : N) rest l p out :
  (i < 64)%N ->
  a2b_base64 (String (b64_char i) rest) 2%N l p out
  = a2b_base64 rest 3%N (i mod 4)%N 0%N (ascii_of_N (l * 16 + i / 4) :: out).
Proof.
  intros H. destruct (b64_char_facts i H) as (E1 & E2 & _).
  cbn [a2b_base64]. rewrite E2, E1. reflexivity.
Qed.

Lemma a2b_alpha3 (i : N) rest l p out :
  (i < 64)%N ->
  a2b_base64 (String (b64_char i) rest) 3%N l p out
  = a2b_base64 rest 0%N 0%N 0%N (ascii_of_N (l * 64 + i) :: out).
Proof.
  intros H. destruct (b64_char_facts i H) as (E1 & E2 & _).
  cbn [a2b_base64]. rewrite E2, E1. reflexivity.
Qed.

Lemma ascii_of_N_of (a : ascii) (n : N) : n = N_of_ascii a -> ascii_of_N n = a.
Proof. intros ->. apply ascii_N_embedding. Qed.

(** The decoder, started between two quads with [out] already written, reads
    back the bytes of [s]; by induction on a bound of the length, three bytes
    at a time. *)
Lemma a2b_encode (n : nat) : forall (s : string) (out : list ascii),
  (String.length s <= n)%nat ->
  a2b_base64 (b64encode s) 0%N 0%N 0%N out
  = Some (String.string_of_list_ascii (rev out ++ String.list_ascii_of_string s)).
Proof.
  induction n as [n IH] using lt_wf_ind. intros s out Hn.
  destruct s as [|a [|b [|c rest]]].
  - cbn. by rewrite app_nil_r.
  - pose proof (N_ascii_bounded a) as Ha.
    cbn [b64encode].
    rewrite a2b_alpha0, a2b_alpha1 by sextet.
    cbn. repeat f_equal; apply ascii_of_N_of; sextet.
  - pose proof (N_ascii_bounded a) as Ha. pose proof (N_ascii_bounded b) as Hb.
    cbn [b64encode].
    rewrite a2b_alpha0, a2b_alpha1, a2b_alpha2 by sextet.
    cbn. rewrite <- app_assoc. cbn.
    repeat f_equal; apply ascii_of_N_of; sextet.
  - pose proof (N_ascii_bounded a) as Ha. pose proof (N_ascii_bounded b) as Hb.
    pose proof (N_ascii_bounded c) as Hc.
    cbn [b64encode].
    rewrite a2b_alpha0, a2b_alpha1, a2b_alpha2, a2b_alpha3 by sextet.
    cbn in Hn. rewrite (IH (n - 3)%nat) by lia.
    cbn. rewrite <- !app_assoc. cbn.
    repeat f_equal; apply ascii_of_N_of; sextet.
Qed.

Lemma all_ascii_encode (n : nat) : forall s : string,
  (String.length s <= n)%nat -> all_ascii (b64encode s) = true.
Proof.
  induction n as [n IH] using lt_wf_ind. intros s Hn.
  destruct s as [|a [|b [|c rest]]]; [reflexivity| | |].
  - pose proof (N_ascii_bounded a) as Ha. cbn [b64encode all_ascii].
    rewrite !b64_char_is_ascii by sextet. reflexivity.
  - pose proof (N_ascii_bounded a) as Ha. pose proof (N_ascii_bounded b) as Hb.
    cbn [b64encode all_ascii].
    rewrite !b64_char_is_ascii by sextet. reflexivity.
  - pose proof (N_ascii_bounded a) as Ha. pose proof (N_ascii_bounded b) as Hb.
    pose proof (N_ascii_bounded c) as Hc.
    cbn [b64encode all_ascii]. cbn in Hn.
    rewrite !b64_char_is_ascii by sextet.
    rewrite (IH (n - 3)%nat) by lia. reflexivity.
Qed.

Lemma b64decode_b64encode (s : string) : b64decode (b64encode s) = Some s.
Proof.
  unfold b64decode. rewrite (all_ascii_encode (String.length s)) by lia.
  rewrite (a2b_encode (String.length s)) by lia.
  cbn. by rewrite String.string_of_list_ascii_of_string.
Qed.
(** *** [json.loads] on the payload of a cursor *)

Lemma span_digits_uint (d : Decimal.uint) (x : ascii) (r : string) :
  is_digit x = false ->
  span_digits (NilEmpty.string_of_uint d +:+ String x r)
  = (NilEmpty.string_of_uint d, String x r).
Proof.
  intros Hx. induction d; simpl; [by rewrite Hx | by rewrite IHd ..].
Qed.

Lemma to_uint_head (p : positive) :
  exists c s, NilEmpty.string_of_uint (Pos.to_uint p) = String c s
              /\ is_digit c = true /\ (N_of_ascii c =? 48)%N = false.
Proof.
  pose proof (DecimalPos.Unsigned.to_uint_nonzero p) as Hz.
  pose proof (DecimalPos.Unsigned.to_uint_nonnil p) as Hn.
  assert (Hu : Decimal.unorm (Pos.to_uint p) = Pos.to_uint p).
  { rewrite <- (DecimalPos.Unsigned.to_of (Pos.to_uint p)).
    by rewrite DecimalPos.Unsigned.of_to. }
  destruct (Pos.to_uint p) as [|d|d|d|d|d|d|d|d|d|d] eqn:E;
    [done | | eexists _, _; split; [reflexivity|split; reflexivity] ..].
  exfalso. rewrite unorm_D0 in Hu.
  assert (Hd : d <> Decimal.Nil) by (intros ->; by apply Hz).
  pose proof (nb_digits_unorm d Hd) as Hl. rewrite Hu in Hl. cbn in Hl. lia.
Qed.

Lemma is_digit_range (c : ascii) :
  is_digit c = true -> (48 <= N_of_ascii c <= 57)%N.
Proof.
  unfold is_digit, byte_in. intros [H1 H2]%andb_prop.
  apply N.leb_le in H1, H2. lia.
Qed.

Lemma scan_number_uint (p : positive) (x : ascii) (r : string) :
  is_digit x = false ->
  scan_frac (String x r) = None -> scan_exp (String x r) = None ->
  scan_number (NilEmpty.string_of_uint (Pos.to_uint p) +:+ String x r)
  = Some (JInt (Z.pos p), String x r)
  /\ scan_number (String "-" (NilEmpty.string_of_uint (Pos.to_uint p) +:+ String x r))
  = Some (JInt (Z.neg p), String x r).
Proof.
  intros Hx Hf He.
  pose proof (span_digits_uint (Pos.to_uint p) x r Hx) as Hs.
  destruct (to_uint_head p) as (c & s & E & Hc & H0).
  assert (Hv : Z.of_uint (Pos.to_uint p) = Z.pos p).
  { unfold Z.of_uint. by rewrite DecimalPos.Unsigned.of_to. }
  assert (Hm : (N_of_ascii c =? 45)%N = false).
  { apply is_digit_range in Hc. apply N.eqb_neq. lia. }
  unfold scan_number, scan_int_part. rewrite E in *.
  change (String c s +:+ String x r) with (String c (s +:+ String x r)) in *.
  cbn iota. change (N_of_ascii "-" =? 45)%N with true. cbn iota.
  rewrite Hm, H0, Hc, Hs, Hf, He, <- E, NilEmpty.usu, Hv. done.
Qed.

Lemma str_int_head (n : Z) :
  exists c s, str_int n = String c s
              /\ (c = "-"%char \/ is_digit c = true).
Proof.
  destruct n as [|p|p]; cbn.
  - eexists _, _. split; [reflexivity|by right].
  - destruct (to_uint_head p) as (c & s & E & Hc & _).
    unfold str_int, NilZero.string_of_int, NilZero.string_of_uint. cbn.
    destruct (Pos.to_uint p); [discriminate| ..]; eauto.
  - eexists _, _. split; [reflexivity|by left].
Qed.

Lemma is_digit_cases (c : ascii) :
  is_digit c = true ->
  In c ["0"; "1"; "2"; "3"; "4"; "5"; "6"; "7"; "8"; "9"]%char.
Proof.
  destruct c as [[] [] [] [] [] [] [] []]; vm_compute; intros H;
    try discriminate H; tauto.
Qed.

Lemma scan_once_number (fuel : nat) (c : ascii) (s : string) res :
  c = "-"%char \/ is_digit c = true ->
  scan_number (String c s) = Some res ->
  scan_once (S fuel) (String c s) = Some res.
Proof.
  intros [->|Hd] H.
  - cbn -[scan_number]. by rewrite H.
  - apply is_digit_cases in Hd. cbn in Hd.
    repeat (destruct Hd as [<-|Hd]; [cbn -[scan_number]; by rewrite H|]). done.
Qed.

Lemma str_int_scan (n : Z) (x : ascii) (r : string) :
  is_digit x = false ->
  scan_frac (String x r) = None -> scan_exp (String x r) = None ->
  scan_number (str_int n +:+ String x r) = Some (JInt n, String x r).
Proof.
  intros Hx Hf He. destruct n as [|p|p].
  - change (str_int 0 +:+ String x r) with (String "0" (String x r)).
    lazy -[scan_frac scan_exp]. rewrite Hf, He. reflexivity.
  - destruct (scan_number_uint p x r Hx Hf He) as [H _].
    unfold str_int, NilZero.string_of_int, NilZero.string_of_uint. cbn [Z.to_int].
    destruct (to_uint_head p) as (c & s & E & _).
    destruct (Pos.to_uint p); [discriminate|exact H ..].
  - destruct (scan_number_uint p x r Hx Hf He) as [_ H].
    unfold str_int, NilZero.string_of_int, NilZero.string_of_uint. cbn [Z.to_int].
    destruct (to_uint_head p) as (c & s & E & _).
    destruct (Pos.to_uint p); [discriminate|exact H ..].
Qed.

Lemma scan_once_object (fuel : nat) (r r1 : string) :
  skip_ws r = String quote r1 ->
  scan_once (S fuel) (String "{" r)
  = object_members (scan_once fuel) (S (String.length r)) r1 [].
Proof.
  intros H.
  change (scan_once (S fuel) (String "{" r))
    with (match skip_ws r with
          | String q r1 =>
              if (N_of_ascii q =? 125)%N then Some (JDict [], r1)
              else if (N_of_ascii q =? 34)%N
              then object_members (scan_once fuel) (S (String.length r)) r1 []
              else None
          | "" => None
          end).
  rewrite H. reflexivity.
Qed.

Lemma object_members_offset (scan : string -> option (json * string))
    (n : nat) (t : string) (v : json) :
  skip_ws t = t -> scan t = Some (v, "}") ->
  object_members scan (S n) ("offset" +:+ String quote (": " +:+ t)) []
  = Some (JDict [("offset", v)], "").
Proof.
  intros Hws Hs.
  change (object_members scan (S n) ("offset" +:+ String quote (": " +:+ t)) [])
    with (match scan (skip_ws t) with
          | None => None
          | Some (v, r2) =>
              let pairs' := dict_set [] "offset" v in
              match skip_ws r2 with
              | String d r3 =>
                  if (N_of_ascii d =? 125)%N then Some (JDict pairs', r3)
                  else if (N_of_ascii d =? 44)%N then
                    match skip_ws r3 with
                    | String q r4 =>
                        if (N_of_ascii q =? 34)%N
                        then object_members scan n r4 pairs'
                        else None
                    | "" => None
                    end
                  else None
              | "" => None
              end
          end).
  rewrite Hws, Hs. reflexivity.
Qed.

Lemma json_loads_offset (n : Z) :
  json_loads (json_dumps_offset n) = Some (JDict [("offset", JInt n)]).
Proof.
  unfold json_loads, json_dumps_offset.
  pose proof (str_int_scan n "}" "" eq_refl eq_refl eq_refl) as Hn.
  destruct (str_int_head n) as (c & s & E & Hc).
  set (t := str_int n +:+ "}") in *.
  set (members := "offset" +:+ String quote (": " +:+ t)).
  change ("{" +:+ quoted "offset" +:+ ": " +:+ t)
    with (String "{" (String quote members)).
  change (skip_ws (String "{" (String quote members)))
    with (String "{" (String quote members)).
  rewrite (scan_once_object _ _ members) by reflexivity.
  assert (Et : t = String c (s +:+ "}")) by (subst t; by rewrite E).
  subst members.
  rewrite (object_members_offset _ _ t (JInt n)); [reflexivity| |].
  - rewrite Et. destruct Hc as [->|Hd]; [reflexivity|].
    apply is_digit_cases in Hd. cbn in Hd.
    repeat (destruct Hd as [<-|Hd]; [reflexivity|]). done.
  - rewrite Et in *. apply scan_once_number; [exact Hc|exact Hn].
Qed.

Import Ranking.

Lemma all_ascii_app (a b : string) :
  all_ascii (a +:+ b) = all_ascii a && all_ascii b.
Proof.
  induction a as [|c a IH]; [done|].
  change (String c a +:+ b) with (String c (a +:+ b)).
  cbn [all_ascii]. by rewrite IH, andb_assoc.
Qed.

Lemma all_ascii_uint (d : Decimal.uint) :
  all_ascii (NilEmpty.string_of_uint d) = true.
Proof.
  induction d; cbn [NilEmpty.string_of_uint all_ascii]; try done;
    by rewrite IHd.
Qed.

Lemma all_ascii_str_int (n : Z) : all_ascii (str_int n) = true.
Proof.
  destruct n as [|p|p]; [done| |];
    unfold str_int, NilZero.string_of_int, NilZero.string_of_uint; cbn [Z.to_int].
  - destruct (Pos.to_uint p) eqn:E; [done|rewrite <- E; apply all_ascii_uint ..].
  - change (all_ascii (String "-" ?s)) with (all_ascii s).
    destruct (Pos.to_uint p) eqn:E; [done|rewrite <- E; apply all_ascii_uint ..].
Qed.

Lemma utf8_valid_ascii (s : string) : all_ascii s = true -> utf8_valid s = true.
Proof.
  induction s as [|c s IH]; [done|]. cbn [all_ascii utf8_valid].
  intros [Hc Hs]%andb_prop.
  assert (byte_in 0 127 c = true) as ->; [|by apply IH].
  unfold is_ascii in Hc. unfold byte_in. apply N.ltb_lt in Hc.
  apply andb_true_intro. split; apply N.leb_le; lia.
Qed.

Lemma decode_encode_cursor (n : Z) :
  _decode_cursor (Some (_encode_cursor n)) = JInt n.
Proof.
  unfold _decode_cursor, _encode_cursor.
  set (payload := json_dumps_offset n).
  pose proof (b64decode_b64encode payload) as Hb.
  destruct (b64encode payload) as [|c s] eqn:E.
  - exfalso. vm_compute in Hb. discriminate Hb.
  - rewrite Hb. unfold utf8_decode.
    rewrite utf8_valid_ascii.
    + subst payload. rewrite json_loads_offset. reflexivity.
    + subst payload. unfold json_dumps_offset, quoted.
      rewrite !all_ascii_app. by rewrite all_ascii_str_int.
Qed.

(** ** Slices and sorting *)

Lemma slice_take_drop {A} (l : list A) (a n : Z) :
  0 <= a -> 0 <= n ->
  slice l a (a + n) = take (Z.to_nat n) (drop (Z.to_nat a) l).
Proof.
  intros Ha Hn. unfold slice, slice_bound.
  destruct (Z.ltb_spec a 0); [lia|]. destruct (Z.ltb_spec (a + n) 0); [lia|].
  set (len := Z.of_nat (length l)).
  destruct (Z.le_gt_cases a len) as [Hl|Hl].
  - rewrite (Z.min_l a len) by lia.
    destruct (Z.le_gt_cases (a + n) len) as [Hl'|Hl'].
    + rewrite Z.min_l by lia. f_equal. lia.
    + rewrite Z.min_r by lia.
      rewrite !take_ge; [done| |]; rewrite length_drop; lia.
  - rewrite !Z.min_r by lia. rewrite Z.sub_diag.
    rewrite (drop_ge l (Z.to_nat a)) by lia. by rewrite take_nil.
Qed.

Lemma slice_prefix {A} (l : list A) (n : Z) :
  0 <= n -> slice l 0 n = take (Z.to_nat n) l.
Proof.
  intros Hn. change n with (0 + n) at 1.
  by rewrite slice_take_drop by lia.
Qed.

Lemma Qgtb_true (a b : Q) : Qgtb a b = true -> (b < a)%Q.
Proof.
  unfold Qgtb. intros H%negb_true_iff. apply Qnot_le_lt. intros Hle.
  apply Qle_bool_iff in Hle. congruence.
Qed.

Lemma Qgtb_false (a b : Q) : Qgtb a b = false -> (a <= b)%Q.
Proof. unfold Qgtb. intros H%negb_false_iff. by apply Qle_bool_iff. Qed.

Section Sorting.
Context {A : Type} (key : A -> Q).

Local Abbreviation desc := (fun x y : A => (key y <= key x)%Q).

Lemma insert_desc_perm (x : A) (l : list A) : insert_desc key x l ≡ₚ x :: l.
Proof.
  induction l as [|y l IH]; cbn; [done|].
  destruct (Qgtb (key y) (key x)); [|done].
  rewrite IH. apply Permutation_swap.
Qed.

Lemma sorted_desc_perm (l : list A) : sorted_desc key l ≡ₚ l.
Proof.
  induction l as [|x l IH]; cbn; [done|].
  fold (sorted_desc key l). by rewrite insert_desc_perm, IH.
Qed.

Lemma insert_desc_sorted (x : A) (l : list A) :
  StronglySorted desc l -> StronglySorted desc (insert_desc key x l).
Proof.
  induction 1 as [|y l Hs IH Hy]; cbn.
  - repeat constructor.
  - destruct (Qgtb (key y) (key x)) eqn:E.
    + constructor; [done|].
      rewrite insert_desc_perm. constructor; [|done].
      apply Qgtb_true in E. by apply Qlt_le_weak.
    + apply Qgtb_false in E. constructor; [by constructor|].
      constructor; [done|].
      eapply Forall_impl; [exact Hy|]. intros z Hz. cbn in *.
      by apply Qle_trans with (key y).
Qed.

Lemma sorted_desc_sorted (l : list A) : StronglySorted desc (sorted_desc key l).
Proof.
  induction l as [|x l IH]; cbn; [constructor|].
  by apply insert_desc_sorted.
Qed.

(** Stability: the elements of any one key value keep their order. *)

Lemma insert_desc_filter (q : Q) (x : A) (l : list A) :
  List.filter (fun z => Qeq_bool (key z) q) (insert_desc key x l)
  = List.filter (fun z => Qeq_bool (key z) q) (x :: l).
Proof.
  induction l as [|y l IH]; [done|].
  cbn [insert_desc]. destruct (Qgtb (key y) (key x)) eqn:E; [|done].
  cbn [List.filter] in *. rewrite IH.
  destruct (Qeq_bool (key x) q) eqn:Ex, (Qeq_bool (key y) q) eqn:Ey; try done.
  exfalso. apply Qgtb_true in E. apply Qeq_bool_iff in Ex, Ey.
  rewrite Ex, Ey in E. by apply Qlt_irrefl in E.
Qed.

Lemma sorted_desc_stable (q : Q) (l : list A) :
  List.filter (fun z => Qeq_bool (key z) q) (sorted_desc key l)
  = List.filter (fun z => Qeq_bool (key z) q) l.
Proof.
  induction l as [|x l IH]; [done|].
  cbn [sorted_desc foldr]. fold (sorted_desc key l).
  rewrite insert_desc_filter. cbn [List.filter]. by rewrite IH.
Qed.
(** Filtering keeps, and reflects, the relative position of two elements. *)

Lemma filter_split {B} (P : B -> bool) (l a b : list B) :
  List.filter P l = a ++ b ->
  exists la lb, l = la ++ lb /\ List.filter P la = a /\ List.filter P lb = b.
Proof.
  revert a. induction l as [|z l IH]; intros a E; cbn in E.
  - symmetry in E. apply app_eq_nil in E as [-> ->]. by exists [], [].
  - destruct (P z) eqn:Pz.
    + destruct a as [|z' a]; cbn in E.
      * exists [], (z :: l). cbn. by rewrite Pz.
      * injection E as <- E. destruct (IH a E) as (la & lb & -> & <- & <-).
        exists (z :: la), lb. cbn. by rewrite Pz.
    + destruct (IH a E) as (la & lb & -> & <- & <-).
      exists (z :: la), lb. cbn. by rewrite Pz.
Qed.

Lemma filter_head {B} (P : B -> bool) (l r : list B) (x : B) :
  List.filter P l = x :: r ->
  exists l1 l2, l = l1 ++ x :: l2 /\ List.filter P l2 = r.
Proof.
  induction l as [|z l IH]; cbn; [done|].
  destruct (P z) eqn:Pz.
  - intros [= -> <-]. by exists [], l.
  - intros E. destruct (IH E) as (l1 & l2 & -> & <-). by exists (z :: l1), l2.
Qed.

Lemma precedes_filter {B} (P : B -> bool) (x y : B) (l : list B) :
  P x = true -> P y = true ->
  precedes x y l -> precedes x y (List.filter P l).
Proof.
  intros Px Py (l1 & l2 & l3 & ->).
  exists (List.filter P l1), (List.filter P l2), (List.filter P l3).
  rewrite List.filter_app. cbn. rewrite Px, List.filter_app. cbn. by rewrite Py.
Qed.

Lemma filter_precedes {B} (P : B -> bool) (x y : B) (l : list B) :
  precedes x y (List.filter P l) -> precedes x y l.
Proof.
  intros (l1 & l2 & l3 & E).
  apply filter_split in E as (la & lb & -> & _ & E).
  apply filter_head in E as (m1 & m2 & -> & E).
  apply filter_split in E as (n1 & n2 & -> & _ & E).
  apply filter_head in E as (k1 & k2 & -> & _).
  exists (la ++ m1), (n1 ++ k1), k2. by rewrite <- !app_assoc.
Qed.

(** Stability, pair by pair: two elements of equal keys keep their order. *)
Lemma sorted_desc_keeps_ties (x y : A) (l : list A) :
  (key x == key y)%Q -> precedes x y l -> precedes x y (sorted_desc key l).
Proof.
  intros Hq Hp.
  apply (filter_precedes (fun z => Qeq_bool (key z) (key x))).
  rewrite sorted_desc_stable. apply precedes_filter; [| |done].
  - by apply Qeq_bool_iff.
  - apply Qeq_bool_iff. by symmetry.
Qed.

End Sorting.

(** ** Editorial overrides *)

Lemma dict_set_fresh {K A} `{EqDecision K} (d : list (K * A)) (k : K) (v : A) :
  k ∉ d.*1 -> dict_set d k v = d ++ [(k, v)].
Proof.
  induction d as [|[k' v'] d IH]; [done|]. cbn.
  intros [Hk Hd]%not_elem_of_cons.
  destruct (decide (k' = k)); [congruence|]. by rewrite IH.
Qed.

Lemma dict_set_elem {K A} `{EqDecision K} (d : list (K * A)) (k : K) (v : A) kv :
  kv ∈ dict_set d k v -> kv ∈ d \/ kv = (k, v).
Proof.
  induction d as [|[k' v'] d IH]; cbn.
  - intros ->%list_elem_of_singleton. by right.
  - destruct (decide (k' = k)).
    + intros [->|?]%elem_of_cons; [by right|left; by right].
    + intros [->|?]%elem_of_cons; [left; by left|].
      destruct IH as [?|?]; [done|left; by right|by right].
Qed.

Lemma insert_perm {A} (l : list A) (i : Z) (x : A) : Py.insert l i x ≡ₚ x :: l.
Proof.
  unfold Py.insert. rewrite <- Permutation_middle. by rewrite take_drop.
Qed.

Section Asc.
Context {A : Type} (key : A -> Z).

Lemma insert_asc_perm (x : A) (l : list A) : insert_asc key x l ≡ₚ x :: l.
Proof.
  induction l as [|y l IH]; cbn; [done|].
  destruct (key y <? key x); [|done].
  rewrite IH. apply Permutation_swap.
Qed.

Lemma sorted_asc_perm (l : list A) : sorted_asc key l ≡ₚ l.
Proof.
  induction l as [|x l IH]; cbn; [done|].
  fold (sorted_asc key l). by rewrite insert_asc_perm, IH.
Qed.

Lemma insert_asc_sorted (x : A) (l : list A) :
  StronglySorted (fun a b => key a <= key b) l ->
  StronglySorted (fun a b => key a <= key b) (insert_asc key x l).
Proof.
  induction 1 as [|y l Hs IH Hy]; cbn.
  - repeat constructor.
  - destruct (Z.ltb_spec (key y) (key x)).
    + constructor; [done|]. rewrite insert_asc_perm. constructor; [lia|done].
    + constructor; [by constructor|]. constructor; [done|].
      eapply Forall_impl; [exact Hy|]. intros z Hz. cbn in *. lia.
Qed.

Lemma sorted_asc_sorted (l : list A) :
  StronglySorted (fun a b => key a <= key b) (sorted_asc key l).
Proof.
  induction l as [|x l IH]; cbn; [constructor|]. by apply insert_asc_sorted.
Qed.
End Asc.

Lemma reinsert_perm (L : list (Z * ScoredVideo)) (R : list ScoredVideo) :
  fold_left reinsert L R ≡ₚ R ++ L.*2.
Proof.
  revert R. induction L as [|[p item] L IH]; intros R; cbn.
  - by rewrite app_nil_r.
  - rewrite IH. unfold reinsert. rewrite insert_perm. apply Permutation_middle.
Qed.

Section Editorial.
Variable config : TenantRankingRules.

Local Abbreviation step := (extract_step config).

Lemma extract_distinct (scored : list ScoredVideo) b r :
  NoDup (b ++ editorial_pairs config scored).*1 ->
  fold_left step scored (b, r)
  = (b ++ editorial_pairs config scored, r ++ non_editorial config scored).
Proof.
  revert b r. induction scored as [|item scored IH]; intros b r Hnd; cbn.
  - by rewrite !app_nil_r.
  - unfold editorial_pairs, non_editorial in *. cbn in *.
    destruct (editorial_boosts config !! video_id (video item)) as [p|] eqn:E; cbn in *.
    + rewrite dict_set_fresh.
      * rewrite IH; [by rewrite <- app_assoc|]. by rewrite <- app_assoc.
      * rewrite fmap_app in Hnd. apply NoDup_app in Hnd as (_ & Hd & _).
        intros Hin. apply (Hd _ Hin). cbn. by left.
    + rewrite IH by done. by rewrite <- app_assoc.
Qed.

Lemma extract_elems (P : ScoredVideo -> Prop) (scored : list ScoredVideo) b r :
  Forall P scored -> Forall P b.*2 -> Forall P r ->
  Forall P (fold_left step scored (b, r)).1.*2
  /\ Forall P (fold_left step scored (b, r)).2.
Proof.
  revert b r. induction scored as [|item scored IH]; intros b r Hs Hb Hr; cbn.
  - done.
  - apply Forall_cons in Hs as [Hi Hs].
    destruct (editorial_boosts config !! video_id (video item)) as [p|] eqn:E.
    + apply IH; [done| |done].
      apply Forall_forall. intros x [[k y] [-> Hin]]%list_elem_of_fmap.
      apply dict_set_elem in Hin as [Hin|[= -> ->]]; [|done].
      rewrite Forall_forall in Hb. apply Hb. apply list_elem_of_fmap.
      by exists (k, y).
    + apply IH; [done|done|]. apply Forall_app. by split; [|constructor].
Qed.

Lemma editorial_elems (P : ScoredVideo -> Prop) (scored : list ScoredVideo) :
  Forall P scored -> Forall P (_apply_editorial_boosts scored config).
Proof.
  intros Hs. unfold _apply_editorial_boosts.
  destruct (decide (editorial_boosts config = ∅)); [done|].
  unfold extract_boosted.
  destruct (extract_elems P scored [] [] Hs) as [Hb Hr]; [constructor..|].
  destruct (fold_left step scored ([], [])) as [b r]. cbn in *.
  rewrite reinsert_perm. apply Forall_app. split; [done|].
  by rewrite sorted_asc_perm.
Qed.

Lemma editorial_distinct (scored : list ScoredVideo) :
  editorial_boosts config <> ∅ ->
  NoDup (editorial_pairs config scored).*1 ->
  _apply_editorial_boosts scored config
  = fold_left reinsert (sorted_asc fst (editorial_pairs config scored))
              (non_editorial config scored).
Proof.
  intros Hne Hnd. unfold _apply_editorial_boosts.
  destruct (decide (editorial_boosts config = ∅)); [done|].
  unfold extract_boosted. rewrite extract_distinct by done. done.
Qed.

Lemma editorial_partition (scored : list ScoredVideo) :
  non_editorial config scored ++ (editorial_pairs config scored).*2 ≡ₚ scored.
Proof.
  induction scored as [|item scored IH]; [done|].
  unfold editorial_pairs, non_editorial in *. cbn.
  destruct (editorial_boosts config !! video_id (video item)) as [p|] eqn:E; cbn.
  - rewrite <- Permutation_middle. by rewrite IH.
  - by rewrite IH.
Qed.
End Editorial.

(** ** The ranking engine *)

Section RankFacts.
Variables (self : RankingEngine) (now : Q).

Lemma rank_returns candidates user config limit cursor offset :
  as_int (_decode_cursor cursor) = Some offset ->
  rank self now candidates user config limit cursor
  = let scored := ranked self now candidates user config in
    let has_more := Z.of_nat (length scored) >? offset + limit in
    Returned (_to_feed_items now (slice scored offset (offset + limit)),
              if has_more then Some (_encode_cursor (offset + limit)) else None,
              has_more).
Proof. intros H. unfold rank. by rewrite H. Qed.

Lemma rank_raises candidates user config limit cursor :
  as_int (_decode_cursor cursor) = None ->
  rank self now candidates user config limit cursor = Raised TypeError.
Proof. intros H. unfold rank. by rewrite H. Qed.

Lemma rank_page candidates user config limit cursor page next more :
  rank self now candidates user config limit cursor = Returned (page, next, more) ->
  exists offset,
    page = _to_feed_items now (slice (ranked self now candidates user config)
                                     offset (offset + limit)).
Proof.
  unfold rank. destruct (as_int (_decode_cursor cursor)) as [o|]; [|done].
  intros [= <- _ _]. by exists o.
Qed.

Lemma score_one_video user config w v :
  video (score_one self now user config w v) = v.
Proof.
  unfold score_one.
  by destruct (fold_left _ (_strategies self) _).
Qed.

Lemma ranked_from_kept candidates user config :
  Forall (fun sv => video sv ∈ candidates /\ keeps user config (video sv) = true)
         (ranked self now candidates user config).
Proof.
  unfold ranked. apply editorial_elems. unfold sorted_scored.
  rewrite sorted_desc_perm. unfold _score_candidates, _filter_candidates.
  apply Forall_forall. intros sv [v [-> Hv]]%list_elem_of_fmap.
  rewrite score_one_video. apply list_elem_of_In, filter_In in Hv as [Hv Hk].
  split; [by apply list_elem_of_In|done].
Qed.
End RankFacts.

Lemma keeps_sound user config v :
  keeps user config v = true ->
  (video_id v ∉ watched_ids user)
  /\ (forall tag, tag ∈ tags v -> tag ∉ exclude_tags (filters config))
  /\ (forall cap i j, max_maturity (filters config) = Some cap ->
        index ratings (maturity_rating v) = Some i ->
        index ratings cap = Some j -> (i <= j)%nat).
Proof.
  unfold keeps.
  destruct (bool_decide (video_id v ∈ watched_ids user)) eqn:Hw; [done|].
  apply bool_decide_eq_false in Hw.
  destruct (existsb _ (tags v)) eqn:Ht; [done|].
  intros Hm. split; [done|]. split.
  - intros tag Hin Hex.
    assert (existsb (fun tag => bool_decide (tag ∈ exclude_tags (filters config)))
                    (tags v) = true); [|congruence].
    apply existsb_exists. exists tag. split; [by apply list_elem_of_In|].
    by apply bool_decide_eq_true.
  - intros cap i j Hcap Hi Hj. rewrite Hcap in Hm.
    unfold _is_maturity_allowed in Hm. rewrite Hi, Hj in Hm.
    destruct (String.eqb cap "") eqn:Hc.
    + apply String.eqb_eq in Hc as ->. discriminate Hj.
    + cbn in Hm. destruct (i <=? j)%nat eqn:Hle; [|done].
      by apply Nat.leb_le.
Qed.

(** Claim C7 (filter soundness).  Every item that [rank] returns comes from
    a candidate that passed all three filters: its id is not among the
    user's watched ids, none of its tags is an excluded tag and, when a
    maturity cap is set, its rating does not stand above the cap on the
    ladder G, PG, PG-13, R, NC-17 (a rating or a cap outside the ladder has
    no index, so it filters nothing).  The page is cut from the sequence
    after the editorial overrides, so editorial items are covered. *)
Theorem filter_soundness (self : RankingEngine) (now : Q)
    (candidates : list VideoMetadata) (user : UserSignals)
    (config : TenantRankingRules) (limit : Z) (cursor : option string)
    (page : list FeedItem) (next : option string) (more : bool) :
  rank self now candidates user config limit cursor = Returned (page, next, more) ->
  Forall (fun item =>
            exists v, v ∈ candidates /\ video_id v = item_id item
              /\ (item_id item ∉ watched_ids user)
              /\ (forall tag, tag ∈ tags v -> tag ∉ exclude_tags (filters config))
              /\ (forall cap i j,
                    max_maturity (filters config) = Some cap ->
                    index ratings (maturity_rating v) = Some i ->
                    index ratings cap = Some j -> (i <= j)%nat))
         page.
Proof.
  intros [offset ->]%rank_page.
  pose proof (ranked_from_kept self now candidates user config) as Hr.
  unfold slice. unfold _to_feed_items.
  apply Forall_fmap. eapply Forall_impl.
  - apply Forall_take, Forall_drop. exact Hr.
  - intros sv [Hin Hk]. cbn. exists (video sv).
    destruct (keeps_sound user config _ Hk) as (Hw & Ht & Hm). eauto 10.
Qed.

Lemma filter_soundness_witness :
  Forall (fun item => item_id item ∉ watched_ids Scenarios.user_sporty)
         Scenarios.first_page.1.1.
Proof.
  eapply Forall_impl.
  - apply (filter_soundness default_engine Scenarios.now0 Scenarios.sports
             Scenarios.user_sporty Scenarios.sports_config 3 None
             Scenarios.first_page.1.1 Scenarios.first_page.1.2
             Scenarios.first_page.2).
    vm_compute. reflexivity.
  - intros item (v & _ & _ & Hw & _). exact Hw.
Defined.

Section Pages.
Variables (self : RankingEngine) (now : Q).
Variables (candidates : list VideoMetadata) (user : UserSignals)
          (config : TenantRankingRules).

Local Abbreviation all_ranked := (ranked self now candidates user config).
Local Abbreviation total := (Z.of_nat (length all_ranked)).

Lemma feed_pages_from (limit : Z) (fuel : nat) :
  1 <= limit ->
  forall (cursor : option string) (offset : Z),
    _decode_cursor cursor = JInt offset -> 0 <= offset ->
    (1 <= fuel)%nat -> total - offset <= limit * Z.of_nat fuel ->
    feed_pages self now fuel candidates user config limit cursor
    = _to_feed_items now (drop (Z.to_nat offset) all_ranked).
Proof.
  intros Hl. induction fuel as [|fuel IH]; intros cursor o Hc Ho Hf Hn; [lia|].
  cbn [feed_pages].
  rewrite (rank_returns _ _ _ _ _ _ _ o) by (by rewrite Hc). cbv zeta.
  rewrite slice_take_drop by lia.
  destruct (Z.gtb_spec total (o + limit)) as [Hm|Hm].
  - rewrite (IH _ (o + limit)); [| apply decode_encode_cursor | lia | nia | nia].
    unfold _to_feed_items. rewrite <- map_app. f_equal.
    rewrite Z2Nat.inj_add by lia.
    rewrite <- drop_drop. apply take_drop.
  - by rewrite take_ge by (rewrite length_drop; lia).
Qed.
End Pages.

Lemma to_feed_items_ids (now : Q) (l : list ScoredVideo) :
  map item_id (_to_feed_items now l) = ids l
  /\ map item_title (_to_feed_items now l) = map (fun sv => video_title (video sv)) l.
Proof. unfold _to_feed_items, ids. by rewrite !map_map. Qed.

Lemma to_feed_items_of (now : Q) (l : list ScoredVideo) :
  Forall2 (fun item sv =>
             item_id item = video_id (video sv)
             /\ item_title item = video_title (video sv)
             /\ playback_url item
                = "https://cdn.example.com/v/" +:+ video_id (video sv) +:+ ".m3u8"
             /\ tracking_token item
                = "tok_" +:+ video_id (video sv) +:+ "_" +:+ str_int (int now)
             /\ debug_score item = Some (round2 (final_score sv)))
          (_to_feed_items now l) l.
Proof. unfold _to_feed_items. induction l as [|sv l IH]; constructor; done. Qed.

(** Claim C5, as amended (pagination round trip).  For requests that read
    the same clock, so that one sequence [ranked] is what the editorial
    overrides leave for all of them, and a limit of at least 1: a request
    whose cursor decodes to an integer offset returns the slice from offset
    to offset + limit, each item carrying the id, title, playback URL,
    token and rounded score of the scored video at its place in that slice,
    with [has_more] true exactly when the sequence is longer than
    offset + limit, [next_cursor] the encoding of offset + limit when
    [has_more] is true and absent otherwise; a cursor decodes to the offset
    it encodes; feeding [next_cursor] back returns the next slice; and the
    pages of size [limit], followed from no cursor until a page has no
    [next_cursor], put end to end are the page of one request whose limit
    covers the whole sequence, with the ids of the whole sequence in
    order. *)
Theorem pagination_round_trip (self : RankingEngine) (now : Q)
    (candidates : list VideoMetadata) (user : UserSignals)
    (config : TenantRankingRules) (limit : Z) :
  1 <= limit ->
  let sequence := ranked self now candidates user config in
  let total := Z.of_nat (length sequence) in
  (forall cursor offset,
     as_int (_decode_cursor cursor) = Some offset ->
     exists page next more,
       rank self now candidates user config limit cursor
       = Returned (page, next, more)
       /\ page = _to_feed_items now (slice sequence offset (offset + limit))
       /\ map item_id page = ids (slice sequence offset (offset + limit))
       /\ map item_title page
          = map (fun sv => video_title (video sv))
                (slice sequence offset (offset + limit))
       /\ Forall2 (fun item sv =>
                     item_id item = video_id (video sv)
                     /\ item_title item = video_title (video sv)
                     /\ playback_url item
                        = "https://cdn.example.com/v/" +:+ video_id (video sv)
                          +:+ ".m3u8"
                     /\ tracking_token item
                        = "tok_" +:+ video_id (video sv) +:+ "_" +:+ str_int (int now)
                     /\ debug_score item = Some (round2 (final_score sv)))
                  page (slice sequence offset (offset + limit))
       /\ (more = true <-> total > offset + limit)
       /\ (more = true -> next = Some (_encode_cursor (offset + limit)))
       /\ (more = false -> next = None))
  /\ (forall offset, _decode_cursor (Some (_encode_cursor offset)) = JInt offset)
  /\ (forall cursor offset page next more,
        _decode_cursor cursor = JInt offset -> 0 <= offset ->
        rank self now candidates user config limit cursor
        = Returned (page, Some next, more) ->
        page = _to_feed_items now (take (Z.to_nat limit)
                                        (drop (Z.to_nat offset) sequence))
        /\ exists next' more',
             rank self now candidates user config limit (Some next)
             = Returned (_to_feed_items now
                           (take (Z.to_nat limit)
                                 (drop (Z.to_nat (offset + limit)) sequence)),
                         next', more'))
  /\ (forall (fuel : nat) (whole : Z),
        (1 <= fuel)%nat -> total <= limit * Z.of_nat fuel -> total <= whole ->
        rank self now candidates user config whole None
        = Returned (feed_pages self now fuel candidates user config limit None,
                    None, false)
        /\ map item_id (feed_pages self now fuel candidates user config limit None)
           = ids sequence).
Proof.
  intros Hl sequence total. split; [|split; [|split]].
  - intros cursor offset Hc. eexists _, _, _. split; [by apply rank_returns|].
    fold sequence total. cbv zeta.
    split; [done|]. split; [apply to_feed_items_ids|].
    split; [apply to_feed_items_ids|]. split; [apply to_feed_items_of|].
    destruct (Z.gtb_spec total (offset + limit)); repeat split; try done; lia.
  - apply decode_encode_cursor.
  - intros cursor offset page next more Hc Ho Hr.
    rewrite (rank_returns _ _ _ _ _ _ _ offset) in Hr by (by rewrite Hc).
    cbv zeta in Hr. injection Hr as <- Hn _. split.
    + by rewrite slice_take_drop by lia.
    + destruct (_ >? _); [|done]. injection Hn as <-.
      eexists _, _.
      rewrite (rank_returns _ _ _ _ _ _ _ (offset + limit))
        by (by rewrite decode_encode_cursor).
      cbv zeta. by rewrite slice_take_drop by lia.
  - intros fuel whole Hf Hn Hw. subst total sequence.
    rewrite (rank_returns _ _ _ _ _ _ _ 0) by done. cbv zeta.
    rewrite (feed_pages_from _ _ _ _ _ limit fuel Hl None 0) by (done || lia).
    destruct (Z.gtb_spec (Z.of_nat (length (ranked self now candidates user config)))
                         (0 + whole)); [lia|].
    rewrite slice_prefix by lia. rewrite take_ge by lia.
    split; [done|]. apply to_feed_items_ids.
Qed.

Import Scenarios.

Lemma pagination_round_trip_witness :
  rank default_engine now0 sports user_sporty sports_config 10 None
  = Returned (feed_pages default_engine now0 3 sports user_sporty sports_config
                         2 None,
              None, false)
  /\ map item_id (feed_pages default_engine now0 3 sports user_sporty sports_config
                             2 None)
     = ["v1"; "v4"; "v5"; "v3"].
Proof.
  destruct (pagination_round_trip default_engine now0 sports user_sporty
              sports_config 2) as (_ & _ & _ & H); [lia|].
  destruct (H 3%nat 10) as [H1 H2]; [lia | by vm_compute | by vm_compute |].
  split; [exact H1|]. rewrite H2. vm_compute. reflexivity.
Defined.

(** Counterexample to claim C5 as stated: the pages of one client, read at
    two clock readings 100 seconds apart.  The recency boost of v5 decays in
    between and v5 falls behind v3, so the second page, which starts at
    offset 3 of the sequence as it is then, repeats v5 and never shows v3:
    the pages put end to end are not the page of any single request. *)
Lemma pages_read_at_different_times_overlap :
  let page_ids r :=
    match r with
    | Returned (page, _, _) => Some (map item_id page)
    | Raised _ => None
    end in
  let cursor_of r :=
    match r with
    | Returned (_, next, _) => next
    | Raised _ => None
    end in
  let request clock limit cursor :=
    rank default_engine clock sports user_sporty sports_config limit cursor in
  page_ids (request clock_first 3 None) = Some ["v1"; "v4"; "v5"]
  /\ cursor_of (request clock_first 3 None) = Some (_encode_cursor 3)
  /\ page_ids (request clock_second 3 (Some (_encode_cursor 3))) = Some ["v5"]
  /\ cursor_of (request clock_second 3 (Some (_encode_cursor 3))) = None
  /\ page_ids (request clock_first 10 None) = Some ["v1"; "v4"; "v5"; "v3"]
  /\ page_ids (request clock_second 10 None) = Some ["v1"; "v4"; "v3"; "v5"].
Proof. vm_compute. repeat split; reflexivity. Qed.

(** Claim C2, as amended (order of equal scores).  After scoring, the
    surviving candidates are sorted by [final_score], highest first, by a
    stable sort: the scored sequence lists the survivors in the order of the
    candidate list, the sorted sequence is a permutation of it in which no
    item is followed by one of a higher score, for every score the items
    of that score stand in the same order in both, and of two survivors
    with equal scores the one that comes first in the candidate list comes
    first in the sorted sequence.  The ids play no part.  Without
    editorial overrides this sorted sequence is the one [rank] pages. *)
Theorem sort_by_score_is_stable (self : RankingEngine) (now : Q)
    (candidates : list VideoMetadata) (user : UserSignals)
    (config : TenantRankingRules) :
  let survivors := _filter_candidates candidates user config in
  let scored := _score_candidates self now survivors user config in
  let sorted := sorted_scored self now candidates user config in
  map video scored = survivors
  /\ sorted ≡ₚ scored
  /\ StronglySorted (fun x y => (final_score y <= final_score x)%Q) sorted
  /\ (forall q : Q,
        List.filter (fun sv => Qeq_bool (final_score sv) q) sorted
        = List.filter (fun sv => Qeq_bool (final_score sv) q) scored)
  /\ (forall x y : ScoredVideo,
        (final_score x == final_score y)%Q ->
        precedes x y scored -> precedes x y sorted)
  /\ (editorial_boosts config = ∅ ->
      ranked self now candidates user config = sorted).
Proof.
  intros survivors scored sorted. split; [|split; [|split; [|split; [|split]]]].
  - subst scored. unfold _score_candidates. rewrite map_map.
    erewrite map_ext; [apply map_id|]. intros v. apply score_one_video.
  - apply sorted_desc_perm.
  - apply sorted_desc_sorted.
  - intros q. apply sorted_desc_stable.
  - intros x y Hq Hp. by apply sorted_desc_keeps_ties.
  - intros He. unfold ranked, _apply_editorial_boosts.
    by destruct (decide (editorial_boosts config = ∅)).
Qed.

(** Counterexample to claim C2 as stated: two candidates of equal final
    score are returned in the order of the candidate list, the larger id
    first. *)
Lemma ties_follow_input_not_id :
  ids (ranked default_engine now0 [tie_b; tie_a]
              (empty_signals "u") (default_rules "t")) = ["b"; "a"]
  /\ ~ ties_by_id (ranked default_engine now0 [tie_b; tie_a]
                          (empty_signals "u") (default_rules "t")).
Proof.
  split; [by vm_compute|]. intros H.
  set (l := ranked _ _ _ _ _) in H.
  assert (E : exists x y, l !! 1%nat = Some x /\ l !! 0%nat = Some y
                          /\ (final_score x == final_score y)%Q
                          /\ String.ltb (video_id (video x)) (video_id (video y)) = true).
  { vm_compute. eexists _, _. repeat split; reflexivity. }
  destruct E as (x & y & H1 & H0 & Hq & Hlt).
  specialize (H _ _ _ _ H1 H0 Hq Hlt). lia.
Qed.

Lemma insert_at {A} (l : list A) (i : Z) (x : A) :
  0 <= i <= Z.of_nat (length l) ->
  Py.insert l i x = take (Z.to_nat i) l ++ x :: drop (Z.to_nat i) l.
Proof.
  intros Hi. unfold Py.insert, slice_bound.
  destruct (i <? 0) eqn:E; [lia|]. by rewrite Z.min_l by lia.
Qed.

Lemma reinsert_at (R : list ScoredVideo) (p : Z) (item : ScoredVideo) :
  0 <= p ->
  let n := Z.to_nat (Z.min p (Z.of_nat (length R))) in
  reinsert R (p, item) = take n R ++ item :: drop n R /\ (n <= length R)%nat.
Proof.
  intros Hp n. unfold reinsert. rewrite insert_at by lia. split; [done|]. lia.
Qed.

(** The part of claim C3 that holds.  For a configuration with editorial
    overrides, when the scored items that have an override are bound to
    pairwise distinct positions: [rank] takes out every scored item whose id
    is a key of [editorial_boosts], and puts them back into the sequence of
    the other items one at a time, in increasing order of position, each at
    the index that is the smaller of its position and the current length;
    the result is a permutation of the scored sequence, so no editorial item
    is dropped. *)
Theorem editorial_reinsertion (self : RankingEngine) (now : Q)
    (candidates : list VideoMetadata) (user : UserSignals)
    (config : TenantRankingRules) :
  editorial_boosts config <> ∅ ->
  let scored := sorted_scored self now candidates user config in
  let boosted := editorial_pairs config scored in
  NoDup boosted.*1 ->
  let in_order := sorted_asc fst boosted in
  ranked self now candidates user config
  = fold_left reinsert in_order (non_editorial config scored)
  /\ in_order ≡ₚ boosted
  /\ StronglySorted (fun a b => a.1 <= b.1) in_order
  /\ (forall (result : list ScoredVideo) (position : Z) (item : ScoredVideo),
        0 <= position ->
        let index := Z.to_nat (Z.min position (Z.of_nat (length result))) in
        reinsert result (position, item)
        = take index result ++ item :: drop index result)
  /\ ranked self now candidates user config ≡ₚ scored
  /\ no_editorial_dropped config scored (ranked self now candidates user config).
Proof.
  intros Hne scored boosted Hnd in_order.
  assert (E : ranked self now candidates user config
              = fold_left reinsert in_order (non_editorial config scored)).
  { unfold ranked. by apply editorial_distinct. }
  assert (P : ranked self now candidates user config ≡ₚ scored).
  { rewrite E, reinsert_perm. subst in_order. rewrite sorted_asc_perm.
    apply editorial_partition. }
  split; [done|]. split; [apply sorted_asc_perm|].
  split; [apply sorted_asc_sorted|]. split.
  { intros result position item Hp. by apply reinsert_at. }
  split; [done|].
  intros i _ Hi. unfold ids in *. by rewrite P.
Qed.

Lemma editorial_reinsertion_witness :
  ids (ranked default_engine now0 sports user_sporty pinned)
  = ["v5"; "v3"; "v1"; "v4"].
Proof.
  destruct (editorial_reinsertion default_engine now0 sports user_sporty pinned)
    as (E & _).
  - intros H. apply (f_equal (fun m => m !! "v5")) in H. vm_compute in H.
    discriminate H.
  - refine (bool_decide_unpack _ _). vm_compute. exact I.
  - rewrite E. vm_compute. reflexivity.
Defined.

(** Claim C3, at an input where the code departs from it.  v1 and v4 are
    both pinned to position 0.  The dictionary of the boosted items holds
    one item per position, so v4 takes the place of v1 in it: v1, which the
    scored sequence holds, is not put back, and the sequence after the
    overrides has three items where the claim has four. *)
Theorem editorial_collision_drops_item :
  editorial_boosts pinned_twice !! "v1" = Some 0
  /\ editorial_boosts pinned_twice !! "v4" = Some 0
  /\ ids (sorted_scored default_engine now0 sports user_sporty pinned_twice)
     = ["v1"; "v4"; "v5"; "v3"]
  /\ ids (ranked default_engine now0 sports user_sporty pinned_twice)
     = ["v4"; "v5"; "v3"]
  /\ ~ no_editorial_dropped pinned_twice
        (sorted_scored default_engine now0 sports user_sporty pinned_twice)
        (ranked default_engine now0 sports user_sporty pinned_twice).
Proof.
  assert (E1 : ids (sorted_scored default_engine now0 sports user_sporty pinned_twice)
               = ["v1"; "v4"; "v5"; "v3"]) by (vm_compute; reflexivity).
  assert (E2 : ids (ranked default_engine now0 sports user_sporty pinned_twice)
               = ["v4"; "v5"; "v3"]) by (vm_compute; reflexivity).
  split; [by vm_compute|]. split; [by vm_compute|].
  split; [exact E1|]. split; [exact E2|].
  intros H. specialize (H "v1"). rewrite E1, E2 in H.
  assert (Hin : "v1" ∈ ["v4"; "v5"; "v3"]).
  { apply H; [|by left]. vm_compute. eauto. }
  apply list_elem_of_In in Hin. cbn in Hin. intuition discriminate.
Qed.

(** ** The circuit breaker *)

Section BreakerFacts.
Import Breaker.
Context {W T : Type} (clock : W -> Q).

Lemma failing_step (cb cb1 : CircuitBreaker) (func : callable (W:=W) (T:=T))
    fallback w e w1 :
  before_call clock cb w = Some cb1 ->
  func w = (Raised e, w1) ->
  (call clock cb func fallback w).1.2 = _on_failure clock cb1 w1
  /\ _failure_count cb1 = _failure_count cb
  /\ _failure_threshold cb1 = _failure_threshold cb
  /\ _recovery_timeout_sec cb1 = _recovery_timeout_sec cb
  /\ _name cb1 = _name cb.
Proof.
  intros Ha Hf. unfold call. rewrite Ha, Hf.
  split; [by destruct fallback as [fb|]; [destruct (fb w1)|]|].
  unfold before_call in Ha.
  destruct (_state cb); [by injection Ha as <-| |by injection Ha as <-].
  destruct (_should_attempt_reset clock cb w); [|done]. by injection Ha as <-.
Qed.

Lemma failing_calls_count (n : nat) (cb cb' : CircuitBreaker) :
  failing_calls clock (T:=T) n cb cb' ->
  _failure_count cb' = _failure_count cb + Z.of_nat n
  /\ _failure_threshold cb' = _failure_threshold cb
  /\ _recovery_timeout_sec cb' = _recovery_timeout_sec cb
  /\ _name cb' = _name cb
  /\ ((1 <= n)%nat ->
      (_failure_threshold cb <= _failure_count cb' -> _state cb' = OPEN)
      /\ is_Some (_last_failure_time cb')).
Proof.
  induction 1 as [cb|n cb cb1 func fallback w e w1 cb' cb'' Ha Hf Hc Hr IH].
  - repeat split; try lia.
  - destruct (failing_step cb cb1 func fallback w e w1 Ha Hf)
      as (E & Hn & Ht & Hs & Hm).
    subst cb'. rewrite E in IH, Hr. cbn in IH.
    destruct IH as (IHc & IHt & IHs & IHm & IHo).
    split; [lia|]. split; [congruence|]. split; [congruence|].
    split; [congruence|]. intros _.
    destruct n as [|n].
    * inversion Hr; subst. cbn. split; [|by eexists].
      intros Hle.
      destruct (Z.leb_spec (_failure_threshold cb1) (_failure_count cb1 + 1));
        [done|lia].
    * destruct IHo as [IH1 IH2]; [lia|]. split; [|done].
      intros Hle. apply IH1. lia.
Qed.

Lemma failing_calls_at_run (ts : list Q) (cb cb' : CircuitBreaker) :
  failing_calls_at clock (T:=T) ts cb cb' ->
  failing_calls clock (T:=T) (length ts) cb cb'.
Proof.
  induction 1 as [cb|ts cb cb1 func fallback w e w1 cb' cb'' Ha Hf Hc Hr IH];
    [constructor|].
  cbn [length]. by apply (failing_cons clock _ cb cb1 func fallback w e w1 cb').
Qed.

Lemma failing_calls_run_at (n : nat) (cb cb' : CircuitBreaker) :
  failing_calls clock (T:=T) n cb cb' ->
  exists ts, length ts = n /\ failing_calls_at clock (T:=T) ts cb cb'.
Proof.
  induction 1 as [cb|n cb cb1 func fallback w e w1 cb' cb'' Ha Hf Hc Hr (ts & Hl & IH)].
  - exists []. split; [done|constructor].
  - exists (clock w1 :: ts). split; [by rewrite <- Hl|].
    by apply (failing_at_cons clock ts cb cb1 func fallback w e w1 cb').
Qed.

(** The failure time that a run leaves in the breaker is the clock reading
    of its last failure. *)
Lemma failing_calls_at_last (ts : list Q) (cb cb' : CircuitBreaker) :
  failing_calls_at clock (T:=T) ts cb cb' -> ts <> [] ->
  _last_failure_time cb' = last ts.
Proof.
  induction 1 as [cb|ts cb cb1 func fallback w e w1 cb' cb'' Ha Hf Hc Hr IH];
    [done|].
  intros _. destruct ts as [|t ts].
  - inversion Hr; subst.
    by destruct (failing_step cb cb1 func fallback w e w1 Ha Hf) as (-> & _).
  - rewrite IH by done. by rewrite last_cons_cons.
Qed.
End BreakerFacts.

(** Claim C6 (circuit breaker).  From a CLOSED breaker, after
    [failure_threshold] consecutive calls whose primary is executed and
    raises, the breaker is OPEN and the failure time it holds is the clock
    reading of the last of these failures.  A next call that arrives before
    [recovery_timeout] has elapsed since that reading leaves the primary and
    the breaker untouched: it is the call of the fallback if one is given,
    and raises [CircuitBreakerOpenError] otherwise.  A call that arrives
    once the timeout has elapsed sets the state to HALF_OPEN and executes
    the primary: a success leaves the breaker CLOSED with a failure count of
    0, a failure leaves it OPEN, with the clock reading of this new failure
    for failure time. *)
Theorem breaker_opens_then_recovers {W T : Type} (clock : W -> Q)
    (cb cb' : Breaker.CircuitBreaker) (failures : list Q) :
  Breaker._state cb = Breaker.CLOSED ->
  0 <= Breaker._failure_count cb ->
  1 <= Breaker._failure_threshold cb ->
  length failures = Z.to_nat (Breaker._failure_threshold cb) ->
  Breaker.failing_calls_at clock (T:=T) failures cb cb' ->
  Breaker._state cb' = Breaker.OPEN
  /\ exists last_failure : Q,
       last failures = Some last_failure
       /\ Breaker._last_failure_time cb' = Some last_failure
       /\ forall (func : Breaker.callable (W:=W) (T:=T))
                 (fallback : option Breaker.callable) (w : W),
            (~ (Breaker._recovery_timeout_sec cb' <= clock w - last_failure)%Q ->
             Breaker.call clock cb' func fallback w
             = match fallback with
               | Some fb => ((fb w).1, cb', (fb w).2)
               | None => (Raised (CircuitBreakerOpenError (Breaker._name cb')), cb', w)
               end)
            /\ ((Breaker._recovery_timeout_sec cb' <= clock w - last_failure)%Q ->
                Breaker.before_call clock cb' w
                = Some (Breaker.with_state cb' Breaker.HALF_OPEN)
                /\ (forall v w1, func w = (Returned v, w1) ->
                      exists cb'',
                        Breaker.call clock cb' func fallback w = (Returned v, cb'', w1)
                        /\ Breaker._state cb'' = Breaker.CLOSED
                        /\ Breaker._failure_count cb'' = 0)
                /\ (forall e w1, func w = (Raised e, w1) ->
                      Breaker._state (Breaker.call clock cb' func fallback w).1.2
                      = Breaker.OPEN
                      /\ Breaker._last_failure_time
                           (Breaker.call clock cb' func fallback w).1.2
                         = Some (clock w1))).
Proof.
  intros Hs Hc Ht Hlen Hat.
  pose proof (failing_calls_at_run clock _ _ _ Hat) as Hr. rewrite Hlen in Hr.
  destruct (failing_calls_count clock _ _ _ Hr) as (Ec & Et & _ & _ & Ho).
  destruct Ho as [Hopen _]; [lia|].
  assert (Hst : Breaker._state cb' = Breaker.OPEN) by (apply Hopen; lia).
  assert (failures <> []) as Hne by (intros ->; simpl in Hlen; lia).
  pose proof (failing_calls_at_last clock _ _ _ Hat Hne) as Hl.
  destruct (last failures) as [t|] eqn:Hlast.
  2:{ destruct failures as [|x l]; [done|]. rewrite last_cons in Hlast.
      by destruct (last l). }
  split; [done|]. exists t. split; [done|]. split; [done|].
  intros func fallback w. split.
  - intros Hlt. unfold Breaker.call, Breaker.before_call, Breaker._should_attempt_reset.
    rewrite Hst, Hl.
    destruct (Qle_bool _ _) eqn:E; [by apply Qle_bool_iff in E|].
    destruct fallback as [fb|]; [by destruct (fb w)|done].
  - intros Hle.
    assert (Ha : Breaker.before_call clock cb' w
                 = Some (Breaker.with_state cb' Breaker.HALF_OPEN)).
    { unfold Breaker.before_call, Breaker._should_attempt_reset. rewrite Hst, Hl.
      by rewrite (proj2 (Qle_bool_iff _ _) Hle). }
    split; [done|]. split.
    + intros v w1 Hf. eexists. unfold Breaker.call. rewrite Ha, Hf. done.
    + intros e w1 Hf.
      destruct (failing_step clock cb' _ func fallback w e w1 Ha Hf) as (-> & _).
      cbn. split; [|done].
      destruct (Z.leb_spec (Breaker._failure_threshold cb')
                           (Breaker._failure_count cb' + 1)); [done|lia].
Qed.

Lemma breaker_opens_then_recovers_witness :
  Breaker._state tripped = Breaker.OPEN
  /\ Breaker._last_failure_time tripped = last [10%Q; 11%Q]
  /\ Breaker.call (fun w : Q => w) tripped failing None 20%Q
     = (Raised (CircuitBreakerOpenError "test"), tripped, 20%Q).
Proof.
  destruct (breaker_opens_then_recovers (T:=string) (fun w : Q => w)
              fresh_breaker tripped [10%Q; 11%Q]) as (Hs & t & Hlast & Ht & Hcall).
  - reflexivity.
  - cbn. lia.
  - cbn. lia.
  - reflexivity.
  - apply (Breaker.failing_at_cons (fun w : Q => w) [11%Q] fresh_breaker fresh_breaker
             failing None 10%Q (OtherError "Error") 10%Q
             (Breaker.mkBreaker "test" 2 30 Breaker.CLOSED 1 (Some 10%Q)));
      [reflexivity..|].
    apply (Breaker.failing_at_cons (fun w : Q => w) []
             (Breaker.mkBreaker "test" 2 30 Breaker.CLOSED 1 (Some 10%Q))
             (Breaker.mkBreaker "test" 2 30 Breaker.CLOSED 1 (Some 10%Q))
             failing None 11%Q (OtherError "Error") 11%Q tripped);
      [reflexivity..|].
    apply Breaker.failing_at_nil.
  - split; [exact Hs|]. split; [reflexivity|].
    injection Hlast as <-.
    apply (proj1 (Hcall failing None 20%Q)).
    cbn. intros H. vm_compute in H. by apply H.
Defined.

(** ** The cache *)

(** Claim C9, at the input where the code departs from it.  [set] with an
    explicit ttl of 0 stores an entry with no expiry at all, instead of the
    expiry [now + 0]: whatever the cache, the key and the clock readings,
    [get] returns the value at every later time and removes nothing. *)
Theorem set_with_zero_ttl_never_expires {V : Type} (c : Cache.InMemoryCache V)
    (key : string) (v : V) (now later : Q) :
  let c' := Cache.set c key v (Some 0%Q) now in
  Cache._store c' !! key = Some (Cache.mkEntry v None)
  /\ Cache.get c' key later = (Some v, c').
Proof.
  cbn. unfold Cache.get. cbn. rewrite lookup_insert_eq. done.
Qed.

(** The rest of claim C9 holds: [get] returns the value exactly when an
    entry exists and is not past its expiry (the expiry instant included),
    an expired entry is removed, and a ttl other than 0 gives the expiry
    [now + ttl]. *)
Lemma get_returns_until_expiry {V : Type} (c : Cache.InMemoryCache V)
    (key : string) (now : Q) :
  (forall v, (Cache.get c key now).1 = Some v <->
     exists e, Cache._store c !! key = Some e /\ Cache.value e = v
               /\ (forall t, Cache.expires_at e = Some t -> (now <= t)%Q))
  /\ (forall e t, Cache._store c !! key = Some e -> Cache.expires_at e = Some t ->
        (t < now)%Q ->
        Cache.get c key now
        = (None, Cache.mkCache (delete key (Cache._store c)) (Cache._default_ttl c))).
Proof.
  unfold Cache.get, Cache.is_expired. split.
  - intros v. destruct (Cache._store c !! key) as [e|]; cbn.
    + destruct (Cache.expires_at e) as [t|] eqn:Ee.
      * destruct (Qgtb now t) eqn:G; cbn.
        -- split; [done|]. intros (e' & [= <-] & _ & Ht).
           apply Qgtb_true in G. specialize (Ht t Ee).
           exfalso. by apply (Qlt_not_le _ _ G).
        -- apply Qgtb_false in G. split.
           ++ intros [= <-]. exists e. repeat split. intros t' Ht'. congruence.
           ++ by intros (e' & [= <-] & <- & _).
      * split.
        -- intros [= <-]. exists e. repeat split. intros t' Ht'. congruence.
        -- by intros (e' & [= <-] & <- & _).
    + split; [done|]. by intros (e' & ? & _).
  - intros e t -> -> Hlt.
    destruct (Qgtb now t) eqn:G; [done|].
    apply Qgtb_false in G. exfalso. by apply (Qlt_not_le _ _ Hlt).
Qed.

Lemma set_expiry {V : Type} (c : Cache.InMemoryCache V)
    (key : string) (v : V) (ttl_seconds : option Q) (now : Q) (ttl : Q) :
  (ttl_seconds = Some ttl \/ (ttl_seconds = None /\ Cache._default_ttl c = Some ttl)) ->
  ~ (ttl == 0)%Q ->
  Cache._store (Cache.set c key v ttl_seconds now) !! key
  = Some (Cache.mkEntry v (Some (now + ttl)%Q)).
Proof.
  intros Httl Hnz. unfold Cache.set. cbn. rewrite lookup_insert_eq.
  assert (truthy ttl = true) as Ht.
  { unfold truthy. apply negb_true_iff. destruct (Qeq_bool ttl 0) eqn:E; [|done].
    by apply Qeq_bool_iff in E. }
  destruct Httl as [->|[-> ->]]; by rewrite Ht.
Qed.

(** ** The HTTP edge *)

Lemma respond_not_modified (r : FeedResponse) (etag : string) :
  Router.compute_etag r = Some etag -> etag <> "" ->
  Router.respond r (Some etag) = Router.mkHttp 304 [] None.
Proof.
  intros He Hne. unfold Router.respond. rewrite He.
  rewrite String.eqb_refl. apply String.eqb_neq in Hne. by rewrite Hne.
Qed.

Lemma respond_ok (r : FeedResponse) (inm : option string) :
  inm <> Router.compute_etag r \/ Router.compute_etag r = None ->
  Router.status_code (Router.respond r inm) = 200
  /\ dict_get (Router.headers (Router.respond r inm)) "ETag" = Router.compute_etag r
  /\ Router.body (Router.respond r inm) = Some r.
Proof.
  intros Hne. unfold Router.respond.
  assert (Hhit : match inm, Router.compute_etag r with
                 | Some inm, Some e => negb (String.eqb inm "") && String.eqb inm e
                 | _, _ => false
                 end = false).
  { destruct inm as [x|], (Router.compute_etag r) as [e|]; try done.
    destruct Hne as [Hne|]; [|done].
    destruct (String.eqb_spec x e) as [->|]; [done|]. apply andb_false_r. }
  rewrite Hhit.
  destruct (Router.compute_etag r) as [e|],
    (is_personalized r), (degraded r); done.
Qed.

(** Claim C8, as amended (ETag).  For a feed response with items, the ETag
    is the weak validator made of the first 16 hex digits of the MD5 of the
    item ids put end to end in order; it is emitted on the 200 answer, and a
    request whose [If-None-Match] equals it is answered 304 with no header
    and no body.  A response with no items gets no ETag and is always
    answered 200.  The ETag depends on the items through the concatenation
    of their ids only: two responses whose ids concatenate to the same text,
    in particular two responses with the same sequence of ids, get the same
    ETag. *)
Theorem etag_of_item_ids (r : FeedResponse) :
  let ids := map item_id (items r) in
  let h := String.substring 0 16 (md5_hexdigest (String.concat "" ids)) in
  let etag := "W/" +:+ quoted h in
  (items r <> [] ->
     Router.compute_etag r = Some etag
     /\ (forall inm, inm <> Some etag ->
           Router.status_code (Router.respond r inm) = 200
           /\ dict_get (Router.headers (Router.respond r inm)) "ETag" = Some etag
           /\ Router.body (Router.respond r inm) = Some r)
     /\ Router.respond r (Some etag) = Router.mkHttp 304 [] None)
  /\ (items r = [] ->
        Router.compute_etag r = None
        /\ forall inm,
             Router.status_code (Router.respond r inm) = 200
             /\ dict_get (Router.headers (Router.respond r inm)) "ETag" = None
             /\ Router.body (Router.respond r inm) = Some r)
  /\ (forall r' : FeedResponse,
        items r <> [] -> items r' <> [] ->
        String.concat "" (map item_id (items r'))
        = String.concat "" (map item_id (items r)) ->
        Router.compute_etag r' = Router.compute_etag r)
  /\ (forall r' : FeedResponse,
        map item_id (items r') = map item_id (items r) ->
        Router.compute_etag r' = Router.compute_etag r).
Proof.
  intros ids h etag.
  assert (He : items r <> [] -> Router.compute_etag r = Some etag).
  { intros Hne. unfold Router.compute_etag. by destruct (items r). }
  assert (Hn : items r = [] -> Router.compute_etag r = None).
  { intros Hnil. unfold Router.compute_etag. by rewrite Hnil. }
  split; [|split; [|split]].
  - intros Hne. split; [by apply He|]. split.
    + intros inm Hinm. rewrite <- (He Hne). apply respond_ok. left.
      by rewrite (He Hne).
    + apply respond_not_modified; [by apply He|done].
  - intros Hnil. split; [by apply Hn|]. intros inm.
    rewrite <- (Hn Hnil). apply respond_ok. by right; apply Hn.
  - intros r' Hne Hne' Hc. unfold Router.compute_etag.
    destruct (items r), (items r'); try done. by rewrite Hc.
  - intros r' Hids. unfold Router.compute_etag.
    destruct (items r) as [|i l], (items r') as [|i' l']; try done.
    by rewrite Hids.
Qed.

Lemma etag_of_item_ids_witness :
  Router.respond (response_of_ids ["v1"; "v4"; "v5"; "v3"])
                 (Some ("W/" +:+ quoted "d440d8f23dc172df"))
  = Router.mkHttp 304 [] None.
Proof.
  destruct (etag_of_item_ids (response_of_ids ["v1"; "v4"; "v5"; "v3"]))
    as (H & _).
  destruct H as (_ & _ & H); [discriminate|].
  vm_compute in H. vm_compute. exact H.
Defined.

(** Counterexample to claim C8 as stated: a change of ids, and a change of
    order, that leave the ETag as it was. *)
Lemma etag_ignores_id_boundaries :
  map item_id (items (response_of_ids ["ab"; "c"]))
  <> map item_id (items (response_of_ids ["a"; "bc"]))
  /\ Router.compute_etag (response_of_ids ["ab"; "c"])
     = Router.compute_etag (response_of_ids ["a"; "bc"])
  /\ map item_id (items (response_of_ids ["a"; "aa"]))
     <> map item_id (items (response_of_ids ["aa"; "a"]))
  /\ Router.compute_etag (response_of_ids ["a"; "aa"])
     = Router.compute_etag (response_of_ids ["aa"; "a"]).
Proof. repeat split; (discriminate || (vm_compute; reflexivity)). Qed.

(** ** The feed service *)

Section FeedFacts.
Variables (settings : Settings) (now : Q) (self : Feed.FeedService).
Variables (tenant user : string) (limit : Z) (cursor : option string).

Local Abbreviation personalizes := (Feed.personalizes settings self tenant user).

Lemma get_feed_gated :
  ~ personalizes ->
  Feed.get_feed settings now self tenant user limit cursor
  = (Feed._get_fallback_feed now self tenant limit false,
     Feed._circuit_breaker self).
Proof.
  unfold Feed.personalizes, Feed.in_rollout, Feed.get_feed. intros Hn.
  destruct (Z.leb_spec (ROLLOUT_PERCENTAGE settings)
              (foldr Z.add 0 (Feed.code_points user) mod 100)); [done|].
  destruct (is_personalization_enabled _ tenant user); [|done].
  exfalso. by apply Hn.
Qed.

Lemma get_feed_personalizes :
  personalizes ->
  Feed.get_feed settings now self tenant user limit cursor
  = match Feed._get_personalized_feed now self tenant user limit cursor with
    | (Returned feed_response, cb) => (Returned feed_response, cb)
    | (Raised e, cb) => (Feed._get_fallback_feed now self tenant limit true, cb)
    end.
Proof.
  unfold Feed.personalizes, Feed.in_rollout, Feed.get_feed. intros [-> Hr].
  destruct (Z.leb_spec (ROLLOUT_PERCENTAGE settings)
              (foldr Z.add 0 (Feed.code_points user) mod 100)); [lia|done].
Qed.

Lemma fallback_feed_shape (flag : bool) (r : FeedResponse) :
  0 <= limit ->
  Feed._get_fallback_feed now self tenant limit flag = Returned r ->
  exists fallback_videos,
    get_fallback_feed (Feed._repos self) tenant = Returned fallback_videos
    /\ items r = map (Feed.fallback_item now "fallback_")
                     (take (Z.to_nat limit) fallback_videos)
    /\ length (items r) = Nat.min (Z.to_nat limit) (length fallback_videos)
    /\ next_cursor r = None /\ has_more r = false
    /\ is_personalized r = false /\ degraded r = flag.
Proof.
  intros Hl. unfold Feed._get_fallback_feed.
  destruct (get_fallback_feed _ tenant) as [fb|]; [|done].
  intros [= <-]. exists fb. cbn. rewrite slice_prefix by done.
  repeat split. by rewrite length_map, length_take.
Qed.
End FeedFacts.

Lemma fallback_items_of (now : Q) (prefix : string) (videos : list VideoMetadata) :
  Forall2 (fun item v =>
             item_id item = video_id v /\ item_title item = video_title v
             /\ playback_url item
                = "https://cdn.example.com/v/" +:+ video_id v +:+ ".m3u8"
             /\ tracking_token item
                = prefix +:+ video_id v +:+ "_" +:+ str_int (int now)
             /\ debug_score item = Some (video_score v))
          (map (Feed.fallback_item now prefix) videos) videos.
Proof. induction videos as [|v l IH]; constructor; done. Qed.

(** Claim C10 (fallback responses are not paginated).  For a limit that is
    not negative, every response built by [_get_fallback_feed] has no
    [next_cursor], [has_more] false, [is_personalized] false, and for items
    the first min(limit, length) videos of the tenant's fallback feed, in
    order, each with its id, title, playback URL, fallback token and
    popularity score; so it stops at [limit] items with no cursor also when
    the fallback feed holds more.  [get_feed] answers with it, whatever the cursor of the request,
    when the kill switch is active, when the feature flag or the rollout
    gate excludes the user, when the tenant has no candidates, and when the
    personalized path raises. *)
Theorem fallback_feed_is_never_paginated (settings : Settings) (now : Q)
    (self : Feed.FeedService) (tenant user : string) (limit : Z)
    (cursor : option string) :
  0 <= limit ->
  let fallback flag := Feed._get_fallback_feed now self tenant limit flag in
  (forall flag r,
     fallback flag = Returned r ->
     exists fallback_videos,
       get_fallback_feed (Feed._repos self) tenant = Returned fallback_videos
       /\ items r = map (Feed.fallback_item now "fallback_")
                        (take (Z.to_nat limit) fallback_videos)
       /\ Forall2 (fun item v =>
                     item_id item = video_id v /\ item_title item = video_title v
                     /\ playback_url item
                        = "https://cdn.example.com/v/" +:+ video_id v +:+ ".m3u8"
                     /\ tracking_token item
                        = "fallback_" +:+ video_id v +:+ "_" +:+ str_int (int now)
                     /\ debug_score item = Some (video_score v))
                  (items r) (take (Z.to_nat limit) fallback_videos)
       /\ length (items r) = Nat.min (Z.to_nat limit) (length fallback_videos)
       /\ ((Z.to_nat limit < length fallback_videos)%nat ->
           length (items r) = Z.to_nat limit)
       /\ next_cursor r = None /\ has_more r = false
       /\ is_personalized r = false /\ degraded r = flag)
  /\ (forall flags : FeatureFlags.ConfigBasedFeatureFlagService,
        Feed._feature_flags self = FeatureFlags.service settings flags ->
        KILL_SWITCH_ACTIVE settings = true ->
        Feed.get_feed settings now self tenant user limit cursor
        = (fallback false, Feed._circuit_breaker self))
  /\ (~ Feed.personalizes settings self tenant user ->
      Feed.get_feed settings now self tenant user limit cursor
      = (fallback false, Feed._circuit_breaker self))
  /\ (Feed.personalizes settings self tenant user ->
      (forall signals config,
         get_signals (Feed._repos self) user = Returned signals ->
         get_candidates (Feed._repos self) tenant = Returned [] ->
         get_config (Feed._repos self) tenant = Returned config ->
         Feed.get_feed settings now self tenant user limit cursor
         = (fallback true, Feed._circuit_breaker self))
      /\ (forall e cb,
            Feed._get_personalized_feed now self tenant user limit cursor
            = (Raised e, cb) ->
            Feed.get_feed settings now self tenant user limit cursor
            = (fallback true, cb))).
Proof.
  intros Hl fallback. split; [|split; [|split]].
  - intros flag r Hr.
    destruct (fallback_feed_shape now self tenant limit flag r Hl Hr)
      as (videos & Hv & Hi & Hlen & Hrest).
    exists videos. split; [done|]. split; [done|].
    split; [rewrite Hi; apply fallback_items_of|].
    split; [done|]. split; [lia|done].
  - intros flags Hf Hk. apply get_feed_gated. intros [He _].
    rewrite Hf in He. cbn in He.
    unfold FeatureFlags.personalization_enabled, FeatureFlags.kill_switch in He.
    by rewrite Hk in He.
  - apply get_feed_gated.
  - intros Hp. split.
    + intros signals config Hs Hc Hg.
      rewrite get_feed_personalizes by done.
      unfold Feed._get_personalized_feed. rewrite Hs, Hc, Hg.
      fold (fallback true). by destruct (fallback true).
    + intros e cb He. rewrite get_feed_personalizes by done. by rewrite He.
Qed.

Lemma fallback_feed_is_never_paginated_witness :
  map video_id (default [] (Memory.fallback_cache now0 !! "tenant_sports"))
  = ["v1"; "v4"; "v2"]
  /\ Feed.get_feed kill_switch_settings now0 gated_service "tenant_sports"
                   "user_sporty" 2 (Some (_encode_cursor 2))
     = (Returned
          (mkFeedResponse
             [mkFeedItem "v1" "Amazing Goal Messi" "https://cdn.example.com/v/v1.m3u8"
                         "fallback_v1_1700000000" (Some 95%Q);
              mkFeedItem "v4" "Funny Cat Fails" "https://cdn.example.com/v/v4.m3u8"
                         "fallback_v4_1700000000" (Some 85%Q)]
             None false false false),
        Feed._circuit_breaker gated_service).
Proof.
  split; [vm_compute; reflexivity|].
  destruct (fallback_feed_is_never_paginated kill_switch_settings now0 gated_service
              "tenant_sports" "user_sporty" 2 (Some (_encode_cursor 2)))
    as (_ & H & _); [lia|].
  rewrite (H (FeatureFlags.mkService 100)) by reflexivity.
  vm_compute. reflexivity.
Defined.

(** When the call through the circuit breaker falls back (the breaker is
    OPEN and short-circuits, or ranking raises), [get_feed] wraps the inline
    fallback in a response marked personalized and not degraded. *)
Lemma breaker_fallback_response (settings : Settings) (now : Q)
    (self : Feed.FeedService) (tenant user : string) (limit : Z)
    (cursor : option string) signals first others config :
  Feed.personalizes settings self tenant user ->
  get_signals (Feed._repos self) user = Returned signals ->
  get_candidates (Feed._repos self) tenant = Returned (first :: others) ->
  get_config (Feed._repos self) tenant = Returned config ->
  let candidates := if (200 <? length (first :: others))%nat
                    then slice (first :: others) 0 200 else first :: others in
  (Breaker.before_call (fun w : Q => w) (Feed._circuit_breaker self) now = None
   \/ exists e,
        rank (Feed._ranking_engine self) now candidates
             (default (empty_signals user) signals)
             (default (get_default_config (Feed._repos self) tenant) config)
             limit cursor = Raised e) ->
  (Feed.get_feed settings now self tenant user limit cursor).1
  = Returned (mkFeedResponse (Feed._get_fallback_items_sync now candidates limit).1.1
                             None false false true).
Proof.
  intros Hp Hs Hc Hg candidates Hfail.
  rewrite get_feed_personalizes by done.
  unfold Feed._get_personalized_feed. rewrite Hs, Hc, Hg.
  fold candidates. unfold Breaker.call.
  destruct Hfail as [Ha|[e He]].
  - by rewrite Ha.
  - rewrite He. by destruct (Breaker.before_call _ _ now).
Qed.

(** Claim C1, at inputs where the code departs from it.  A request whose
    cursor makes [rank] raise, and a request that meets an OPEN breaker, are
    both answered with the inline popularity-sorted fallback, and both
    answers carry [is_personalized = true] and [degraded = false], where the
    claim has false and true. *)
Theorem breaker_fallback_is_served_as_personalized :
  let answer :=
    Feed.get_feed default_settings now0 service "tenant_sports" "user_sporty" 3
                  (Some cursor_text) in
  let open := Breaker.mkBreaker "ranking_service" 5 30 Breaker.OPEN 5 (Some now0) in
  let answer' :=
    Feed.get_feed default_settings now0 (Feed.with_breaker service open)
                  "tenant_sports" "user_sporty" 3 None in
  let inline_fallback r :=
    match r with
    | Returned r =>
        map tracking_token (items r)
        = ["cb_fallback_v1_1700000000"; "cb_fallback_v4_1700000000";
           "cb_fallback_v2_1700000000"]
        /\ next_cursor r = None /\ has_more r = false
    | Raised _ => False
    end in
  let flags r :=
    match r with
    | Returned r => (is_personalized r, degraded r)
    | Raised _ => (false, false)
    end in
  inline_fallback answer.1 /\ flags answer.1 = (true, false)
  /\ Breaker._failure_count answer.2 = 1
  /\ inline_fallback answer'.1 /\ flags answer'.1 = (true, false)
  /\ answer'.2 = open.
Proof. vm_compute. repeat split; reflexivity. Qed.

(** A missing, empty or undecodable cursor is read as offset 0. *)
Lemma decode_cursor_missing :
  _decode_cursor None = JInt 0 /\ _decode_cursor (Some "") = JInt 0.
Proof. done. Qed.

Lemma decode_cursor_undecodable (c : string) :
  b64decode c = None
  \/ (exists bytes, b64decode c = Some bytes /\ utf8_decode bytes = None)
  \/ (exists bytes text, b64decode c = Some bytes /\ utf8_decode bytes = Some text
                         /\ json_loads text = None) ->
  _decode_cursor (Some c) = JInt 0.
Proof.
  unfold _decode_cursor. destruct c as [|a c]; [done|].
  intros [->|[(bytes & -> & ->)|(bytes & text & -> & -> & ->)]]; done.
Qed.

(** Claim C4, at inputs where the code departs from it.  A cursor that
    decodes to a payload whose offset is a text makes [rank] raise
    [TypeError]; a cursor whose offset is -1 is not read as offset 0: the
    page it yields is empty, where the first page has two items. *)
Theorem cursor_offset_is_not_validated :
  let page_ids r :=
    match r with
    | Returned (page, _, _) => Some (map item_id page)
    | Raised _ => None
    end in
  let request := rank default_engine now0 sports user_sporty sports_config 2 in
  _decode_cursor (Some cursor_text) = JStr "x"
  /\ request (Some cursor_text) = Raised TypeError
  /\ _decode_cursor (Some cursor_negative) = JInt (-1)
  /\ page_ids (request None) = Some ["v1"; "v4"]
  /\ request (Some cursor_negative) = Returned ([], Some (_encode_cursor 1), true).
Proof. vm_compute. repeat split; reflexivity. Qed.

(** * Further properties of the code *)

(** ** The cache: [get_or_set], [cleanup_expired], [delete] *)

Section CacheFacts.
Context {V : Type}.
Implicit Types (c : Cache.InMemoryCache V) (key : string) (e : Cache.CacheEntry V).

Lemma is_expired_later e (t t' : Q) :
  (t <= t')%Q -> Cache.is_expired e t = true -> Cache.is_expired e t' = true.
Proof.
  unfold Cache.is_expired. destruct (Cache.expires_at e) as [x|]; [|done].
  intros Hle Ht. apply Qgtb_true in Ht.
  unfold Qgtb. apply negb_true_iff. destruct (Qle_bool t' x) eqn:E; [|done].
  apply Qle_bool_iff in E. exfalso.
  apply (Qlt_irrefl x). apply Qlt_le_trans with t; [exact Ht|].
  by apply Qle_trans with t'.
Qed.

Lemma get_value c key (now : Q) :
  (Cache.get c key now).1
  = match Cache._store c !! key with
    | Some e => if Cache.is_expired e now then None else Some (Cache.value e)
    | None => None
    end.
Proof.
  unfold Cache.get. destruct (Cache._store c !! key) as [e|]; [|done].
  by destruct (Cache.is_expired e now).
Qed.

Lemma get_store c key (now : Q) (k : string) :
  Cache._store (Cache.get c key now).2 !! k
  = match Cache._store c !! k with
    | Some e => if decide (k = key) then
                  if Cache.is_expired e now then None else Some e
                else Some e
    | None => None
    end.
Proof.
  unfold Cache.get. destruct (Cache._store c !! key) as [e|] eqn:E.
  - destruct (Cache.is_expired e now) eqn:X; simpl.
    + destruct (decide (k = key)) as [->|n].
      * rewrite lookup_delete_eq, E, X. done.
      * rewrite lookup_delete_ne by done. by destruct (_ !! k).
    + destruct (decide (k = key)) as [->|n]; [by rewrite E, X|by destruct (_ !! k)].
  - simpl. destruct (decide (k = key)) as [->|n]; [by rewrite E|by destruct (_ !! k)].
Qed.

End CacheFacts.

Section CacheOps.
Context {V : Type}.
Implicit Types (c : Cache.InMemoryCache V) (key : string) (e : Cache.CacheEntry V).

Lemma foldl_delete_lookup (keys : list string) (m : gmap string (Cache.CacheEntry V))
    (k : string) :
  foldl (fun store key => delete key store) m keys !! k
  = if decide (k ∈ keys) then None else m !! k.
Proof.
  revert m. induction keys as [|x keys IH]; intros m; simpl.
  - destruct (decide (k ∈ [])) as [i|n]; [by apply elem_of_nil in i|done].
  - rewrite IH. destruct (decide (k ∈ keys)) as [i|n];
      destruct (decide (k ∈ x :: keys)) as [i'|n']; try done.
    + exfalso. apply n'. by right.
    + apply elem_of_cons in i' as [->|i']; [apply lookup_delete_eq|done].
    + apply lookup_delete_ne. intros ->. apply n'. by left.
Qed.

Lemma foldl_delete_size (keys : list string) :
  forall m : gmap string (Cache.CacheEntry V),
    NoDup keys -> (forall k, k ∈ keys -> is_Some (m !! k)) ->
    (size (foldl (fun store key => delete key store) m keys) + length keys
     = size m)%nat.
Proof.
  induction keys as [|x keys IH]; intros m Hnd Hin; simpl; [lia|].
  apply NoDup_cons in Hnd as [Hx Hnd].
  destruct (Hin x) as [e He]; [by left|].
  pose proof (map_size_delete_Some x m (mk_is_Some _ _ He)) as Hd.
  pose proof (map_size_ne_0_lookup_2 m x (mk_is_Some _ _ He)) as Hz.
  specialize (IH (delete x m) Hnd).
  rewrite Hd in IH.
  assert (forall k, k ∈ keys -> is_Some (delete x m !! k)) as Hin'.
  { intros k Hk. rewrite lookup_delete_ne; [apply Hin; by right|].
    intros ->. done. }
  specialize (IH Hin'). lia.
Qed.

Lemma expired_keys_spec c (reading : string -> Q) (k : string) :
  k ∈ (List.filter (fun kv => Cache.is_expired kv.2 (reading kv.1))
                   (map_to_list (Cache._store c))).*1
  <-> exists e, Cache._store c !! k = Some e /\ Cache.is_expired e (reading k) = true.
Proof.
  rewrite list_elem_of_fmap. split.
  - intros ([k' e] & -> & Hin). apply list_elem_of_In, List.filter_In in Hin as [Hin Hexp].
    apply list_elem_of_In, elem_of_map_to_list in Hin. by exists e.
  - intros (e & He & Hexp). exists (k, e). split; [done|].
    apply list_elem_of_In, List.filter_In. split; [|done].
    by apply list_elem_of_In, elem_of_map_to_list.
Qed.

Lemma NoDup_fst_filter {A B} (f : A * B -> bool) (l : list (A * B)) :
  NoDup l.*1 -> NoDup (List.filter f l).*1.
Proof.
  induction l as [|x l IH]; simpl; [done|].
  intros [Hx Hnd]%NoDup_cons. destruct (f x); [|by apply IH].
  simpl. apply NoDup_cons. split; [|by apply IH].
  intros Hin. apply Hx. apply list_elem_of_fmap in Hin as (y & -> & Hy).
  apply list_elem_of_fmap. exists y. split; [done|].
  by apply list_elem_of_In, List.filter_In in Hy as [?%list_elem_of_In _].
Qed.

Lemma cleanup_store c (reading : string -> Q) (k : string) :
  Cache._store (Cache.cleanup_expired c reading).2 !! k
  = match Cache._store c !! k with
    | Some e => if Cache.is_expired e (reading k) then None else Some e
    | None => None
    end.
Proof.
  unfold Cache.cleanup_expired. cbn [snd Cache._store].
  rewrite foldl_delete_lookup.
  destruct (decide _) as [i|n].
  - apply expired_keys_spec in i as (e & -> & ->). done.
  - destruct (Cache._store c !! k) as [e|] eqn:E; [|done].
    destruct (Cache.is_expired e (reading k)) eqn:X; [|done].
    exfalso. apply n. apply expired_keys_spec. by exists e.
Qed.

End CacheOps.

Lemma get_or_set_live {V W : Type} (clock : W -> Q)
    (c : Cache.InMemoryCache V) (key : string)
    (factory : W -> outcome V * W) (ttl_seconds : option Q) (w : W)
    (e : Cache.CacheEntry V) :
  Cache._store c !! key = Some e -> Cache.is_expired e (clock w) = false ->
  Cache.get_or_set clock c key factory ttl_seconds w = (Returned (Cache.value e), c, w).
Proof.
  intros He Hx. unfold Cache.get_or_set, Cache.get. by rewrite He, Hx.
Qed.

(** X1.  [get_or_set] on a key whose entry [get] still returns: the cached
    value is the result, the factory is not run (the world is as before) and
    the cache is left as it was. *)
Theorem get_or_set_returns_live_entry {V W : Type} (clock : W -> Q)
    (c : Cache.InMemoryCache V) (key : string)
    (factory : W -> outcome V * W) (ttl_seconds : option Q) (w : W) (v : V) :
  (Cache.get c key (clock w)).1 = Some v ->
  Cache.get_or_set clock c key factory ttl_seconds w = (Returned v, c, w).
Proof.
  unfold Cache.get_or_set, Cache.get.
  destruct (Cache._store c !! key) as [e|]; [|done].
  destruct (Cache.is_expired e (clock w)); [done|].
  simpl. by intros [= ->].
Qed.

Lemma get_or_set_returns_live_entry_witness :
  Cache.get_or_set (fun w : Q => w)
    (Cache.set (Cache.init None) "k" 7 (Some 30%Q) 0%Q) "k"
    (fun w => (Raised ValueError, (w + 1)%Q)) None 30%Q
  = (Returned 7, Cache.set (Cache.init None) "k" 7 (Some 30%Q) 0%Q, 30%Q).
Proof. apply (get_or_set_returns_live_entry (V:=Z)). reflexivity. Defined.

(** X2.  [get_or_set] on a key that [get] does not return runs the factory
    once and stores its value with an expiry counted from the moment the
    factory returned; a later [get_or_set] that arrives before that expiry
    (or at any time, when the time to live is absent or 0) returns the
    stored value without running its factory and changes nothing. *)
Theorem get_or_set_computes_once {V W : Type} (clock : W -> Q)
    (c : Cache.InMemoryCache V) (key : string)
    (factory factory' : W -> outcome V * W) (ttl_seconds ttl_seconds' : option Q)
    (w w1 w2 : W) (v : V) :
  (Cache.get c key (clock w)).1 = None ->
  factory w = (Returned v, w1) ->
  (forall ttl : Q,
     match ttl_seconds with
     | Some t => Some t
     | None => Cache._default_ttl c
     end = Some ttl ->
     ~ (ttl == 0)%Q -> (clock w2 <= clock w1 + ttl)%Q) ->
  let c' := Cache.set (Cache.get c key (clock w)).2 key v ttl_seconds (clock w1) in
  Cache.get_or_set clock c key factory ttl_seconds w = (Returned v, c', w1)
  /\ Cache.get_or_set clock c' key factory' ttl_seconds' w2 = (Returned v, c', w2).
Proof.
  intros Hmiss Hf Hlive c'. split.
  - unfold Cache.get_or_set. destruct (Cache.get c key (clock w)) as [r c1] eqn:G.
    simpl in Hmiss. subst r. rewrite Hf. done.
  - assert (Cache._default_ttl (Cache.get c key (clock w)).2 = Cache._default_ttl c)
      as Hdef.
    { unfold Cache.get. destruct (_ !! key) as [e|]; [|done].
      by destruct (Cache.is_expired e (clock w)). }
    assert (exists e, Cache._store c' !! key = Some e /\ Cache.value e = v
                      /\ Cache.is_expired e (clock w2) = false) as (e & He & Hv & Hx).
    { subst c'. unfold Cache.set. cbn [Cache._store]. rewrite lookup_insert_eq, Hdef.
      eexists. split; [done|]. split; [done|].
      destruct (match ttl_seconds with Some t => Some t | None => Cache._default_ttl c end)
        as [t|] eqn:T; [|done].
      unfold truthy. destruct (Qeq_bool t 0) eqn:Z; [done|]. simpl.
      unfold Cache.is_expired, Qgtb. simpl.
      assert (Qle_bool (clock w2) (clock w1 + t) = true) as ->; [|done].
      apply Qle_bool_iff, Hlive; [done|].
      intros Heq. apply Qeq_bool_neq in Z. done. }
    rewrite <- Hv. by apply get_or_set_live.
Qed.

Lemma get_or_set_computes_once_witness :
  let c' := Cache.set (Cache.init (Some 60%Q)) "k" 7 None 5%Q in
  Cache.get_or_set (fun w : Q => w) (Cache.init (Some 60%Q)) "k"
    (fun w => (Returned 7, (w + 5)%Q)) None 0%Q = (Returned 7, c', 5%Q)
  /\ Cache.get_or_set (fun w : Q => w) c' "k"
       (fun w => (Returned 8, (w + 5)%Q)) None 65%Q = (Returned 7, c', 65%Q).
Proof.
  apply (get_or_set_computes_once (V:=Z) (fun w : Q => w) (Cache.init (Some 60%Q))
           "k" (fun w => (Returned 7, (w + 5)%Q)) (fun w => (Returned 8, (w + 5)%Q))
           None None 0%Q 5%Q 65%Q 7).
  - reflexivity.
  - reflexivity.
  - intros ttl [= <-] _. vm_compute. discriminate.
Defined.

(** X3.  A factory that raises is not cached: [get_or_set] lets the
    exception through, stores nothing under the key, and the next
    [get_or_set] for the key runs its factory again. *)
Theorem get_or_set_does_not_cache_failures {V W : Type} (clock : W -> Q)
    (c : Cache.InMemoryCache V) (key : string)
    (factory factory' : W -> outcome V * W) (ttl_seconds ttl_seconds' : option Q)
    (w w1 w2 : W) (err : exn) :
  (Cache.get c key (clock w)).1 = None ->
  factory w = (Raised err, w1) ->
  let c1 := (Cache.get c key (clock w)).2 in
  Cache.get_or_set clock c key factory ttl_seconds w = (Raised err, c1, w1)
  /\ Cache._store c1 !! key = None
  /\ Cache.get_or_set clock c1 key factory' ttl_seconds' w2
     = match factory' w2 with
       | (Returned v, w3) =>
           (Returned v, Cache.set c1 key v ttl_seconds' (clock w3), w3)
       | (Raised err', w3) => (Raised err', c1, w3)
       end.
Proof.
  intros Hmiss Hf c1.
  assert (Cache._store c1 !! key = None) as Hnone.
  { subst c1. rewrite get_store. rewrite get_value in Hmiss.
    destruct (Cache._store c !! key) as [e|]; [|done].
    rewrite decide_True by done. by destruct (Cache.is_expired e (clock w)). }
  split; [|split; [done|]].
  - unfold Cache.get_or_set. subst c1.
    destruct (Cache.get c key (clock w)) as [r c1] eqn:G.
    simpl in Hmiss. subst r. rewrite Hf. done.
  - unfold Cache.get_or_set, Cache.get at 1. rewrite Hnone.
    destruct (factory' w2) as [[v|err'] w3]; done.
Qed.

Lemma get_or_set_does_not_cache_failures_witness :
  Cache.get_or_set (fun w : Q => w) (Cache.init None) "k"
    (fun w => (Raised ValueError, (w + 1)%Q)) None 0%Q
  = (Raised ValueError, Cache.init (V:=Z) None, 1%Q).
Proof.
  apply (get_or_set_does_not_cache_failures (V:=Z) (fun w : Q => w) (Cache.init None)
           "k" (fun w => (Raised ValueError, (w + 1)%Q))
           (fun w => (Raised ValueError, (w + 1)%Q)) None None 0%Q 1%Q 1%Q ValueError);
    reflexivity.
Defined.

(** X4.  [cleanup_expired] removes exactly the entries that are expired
    when they are examined and returns their number; what [get] returns at
    any later time is the same with and without the clean-up. *)
Theorem cleanup_expired_removes_expired_only {V : Type}
    (c : Cache.InMemoryCache V) (reading : string -> Q) :
  let removed := (Cache.cleanup_expired c reading).1 in
  let c' := (Cache.cleanup_expired c reading).2 in
  (removed + Cache.size c' = Cache.size c)%nat
  /\ (forall k,
        Cache._store c' !! k
        = match Cache._store c !! k with
          | Some e => if Cache.is_expired e (reading k) then None else Some e
          | None => None
          end)
  /\ (forall k (now : Q),
        (reading k <= now)%Q ->
        (Cache.get c' k now).1 = (Cache.get c k now).1).
Proof.
  intros removed c'. split; [|split].
  - subst removed c'. unfold Cache.cleanup_expired, Cache.size.
    cbn [fst snd Cache._store]. rewrite Nat.add_comm. apply foldl_delete_size.
    + apply NoDup_fst_filter, NoDup_fst_map_to_list.
    + intros k (e & He & _)%expired_keys_spec. by exists e.
  - intros k. apply cleanup_store.
  - intros k now Hle. rewrite !get_value. subst c'. rewrite cleanup_store.
    destruct (Cache._store c !! k) as [e|]; [|done].
    destruct (Cache.is_expired e (reading k)) eqn:X; [|done].
    by rewrite (is_expired_later e (reading k) now).
Qed.

(** X5.  [delete] answers [True] exactly when the store holds an entry
    under the key, expired or not, and removes it; so for an expired entry
    [delete] answers [True] where [get] finds nothing, and [False] once a
    [get] has removed the entry. *)
Theorem delete_reports_stored_entries {V : Type} (c : Cache.InMemoryCache V)
    (key : string) :
  ((Cache.delete c key).1 = true <-> is_Some (Cache._store c !! key))
  /\ Cache._store (Cache.delete c key).2 !! key = None
  /\ (forall now : Q, (Cache.get (Cache.delete c key).2 key now).1 = None)
  /\ Cache.size (Cache.delete c key).2
     = (Cache.size c - (if (Cache.delete c key).1 then 1 else 0))%nat
  /\ (forall (e : Cache.CacheEntry V) (now : Q),
        Cache._store c !! key = Some e -> Cache.is_expired e now = true ->
        (Cache.get c key now).1 = None
        /\ (Cache.delete c key).1 = true
        /\ (Cache.delete (Cache.get c key now).2 key).1 = false).
Proof.
  assert (Cache._store (Cache.delete c key).2 !! key = None) as Hgone.
  { unfold Cache.delete. destruct (Cache._store c !! key) eqn:E; simpl; [|done].
    apply lookup_delete_eq. }
  split; [|split; [done|split; [|split]]].
  - unfold Cache.delete. destruct (Cache._store c !! key); simpl.
    + split; [by eexists|done].
    + split; [done|by intros [? ?]].
  - intros now. by rewrite get_value, Hgone.
  - unfold Cache.delete, Cache.size.
    destruct (Cache._store c !! key) as [e|] eqn:E; simpl; [|lia].
    rewrite (map_size_delete_Some key _ (mk_is_Some _ _ E)). lia.
  - intros e now He Hx. split; [|split].
    + by rewrite get_value, He, Hx.
    + unfold Cache.delete. by rewrite He.
    + unfold Cache.delete. rewrite get_store, He, decide_True, Hx by done. done.
Qed.

(** X6.  The operations on one key leave every other key alone: what
    [get] returns for [k] is the same before and after a [set], a [delete],
    a [get] or a [get_or_set] on another key. *)
Theorem cache_keys_are_independent {V W : Type} (clock : W -> Q)
    (c : Cache.InMemoryCache V) (key k : string) (v : V)
    (ttl_seconds : option Q) (now t : Q)
    (factory : W -> outcome V * W) (w : W) :
  k <> key ->
  (Cache.get (Cache.set c key v ttl_seconds now) k t).1 = (Cache.get c k t).1
  /\ (Cache.get (Cache.delete c key).2 k t).1 = (Cache.get c k t).1
  /\ (Cache.get (Cache.get c key now).2 k t).1 = (Cache.get c k t).1
  /\ (Cache.get (Cache.get_or_set clock c key factory ttl_seconds w).1.2 k t).1
     = (Cache.get c k t).1.
Proof.
  intros Hne.
  assert (forall c0 : Cache.InMemoryCache V,
            Cache._store c0 !! k = Cache._store c !! k ->
            (Cache.get c0 k t).1 = (Cache.get c k t).1) as Hsame.
  { intros c0 H0. by rewrite !get_value, H0. }
  assert (forall now0, Cache._store (Cache.get c key now0).2 !! k
                       = Cache._store c !! k) as Hget.
  { intros now0. rewrite get_store. destruct (Cache._store c !! k); [|done].
    by rewrite decide_False. }
  split; [|split; [|split]]; apply Hsame.
  - unfold Cache.set. cbn [Cache._store]. by apply lookup_insert_ne.
  - unfold Cache.delete. destruct (Cache._store c !! key); simpl; [|done].
    by apply lookup_delete_ne.
  - apply Hget.
  - unfold Cache.get_or_set.
    pose proof (Hget (clock w)) as Hg.
    destruct (Cache.get c key (clock w)) as [[x|] c1]; simpl in *; [done|].
    destruct (factory w) as [[x|err] w1]; simpl; [|done].
    rewrite lookup_insert_ne by done. done.
Qed.

Lemma cache_keys_are_independent_witness :
  (Cache.get (Cache.delete (Cache.set (Cache.init None) "a" 1 None 0%Q) "b").2
             "a" 5%Q).1 = Some 1.
Proof.
  pose proof (cache_keys_are_independent (V:=Z) (fun w : Q => w)
                (Cache.set (Cache.init None) "a" 1 None 0%Q) "b" "a" 2 None 0%Q 5%Q
                (fun w => (Returned 3, w)) 0%Q) as H.
  destruct H as (_ & H & _); [done|]. rewrite H. reflexivity.
Defined.

(** X7.  Expiry is final and the removal done by [get] is not observable:
    a key for which [get] finds nothing stays absent at every later time
    until it is set again, and a [get] at any time leaves what later [get]s
    return, for the same key or another, as it would have been. *)
Theorem expired_entries_stay_absent {V : Type} (c : Cache.InMemoryCache V)
    (key k : string) (now later : Q) :
  (now <= later)%Q ->
  ((Cache.get c key now).1 = None -> (Cache.get c key later).1 = None)
  /\ (Cache.get (Cache.get c key now).2 k later).1 = (Cache.get c k later).1.
Proof.
  intros Hle. split.
  - rewrite !get_value. destruct (Cache._store c !! key) as [e|]; [|done].
    destruct (Cache.is_expired e now) eqn:X; [|done].
    by rewrite (is_expired_later e now later).
  - rewrite !get_value, get_store.
    destruct (Cache._store c !! k) as [e|]; [|done].
    destruct (decide (k = key)) as [->|]; [|done].
    destruct (Cache.is_expired e now) eqn:X; [|done].
    by rewrite (is_expired_later e now later).
Qed.

Lemma expired_entries_stay_absent_witness :
  (Cache.get (Cache.get (Cache.set (Cache.init None) "k" 1 (Some 10%Q) 0%Q)
                        "k" 11%Q).2 "k" 12%Q).1
  = (Cache.get (Cache.set (Cache.init None) "k" 1 (Some 10%Q) 0%Q) "k" 12%Q).1.
Proof.
  apply (expired_entries_stay_absent (V:=Z)
           (Cache.set (Cache.init None) "k" 1 (Some 10%Q) 0%Q) "k" "k" 11%Q 12%Q).
  vm_compute. discriminate.
Defined.

(** X8.  A value set with a time to live other than 0 (given to [set], or
    the default of the cache) can be read back up to and including the
    instant [now + ttl] and at no later time; a value set with no time to
    live at all can be read back at any time. *)
Theorem set_then_get_within_ttl {V : Type} (c : Cache.InMemoryCache V)
    (key : string) (v : V) (ttl_seconds : option Q) (now later : Q) :
  let ttl := match ttl_seconds with
             | Some t => Some t
             | None => Cache._default_ttl c
             end in
  let read := (Cache.get (Cache.set c key v ttl_seconds now) key later).1 in
  (forall t : Q, ttl = Some t -> ~ (t == 0)%Q ->
     (read = Some v <-> (later <= now + t)%Q) /\ (read = None <-> (now + t < later)%Q))
  /\ (ttl = None -> read = Some v).
Proof.
  intros ttl read. subst read. rewrite get_value.
  unfold Cache.set. cbn [Cache._store]. rewrite lookup_insert_eq. fold ttl.
  split.
  - intros t -> Hnz. unfold truthy.
    destruct (Qeq_bool t 0) eqn:Z; [by apply Qeq_bool_iff in Z|]. simpl.
    unfold Cache.is_expired, Qgtb. simpl.
    destruct (Qle_bool later (now + t)) eqn:L; simpl.
    + apply Qle_bool_iff in L. split; split; try done.
      intros Hlt. exfalso. apply (Qlt_irrefl later).
      by apply Qle_lt_trans with (now + t)%Q.
    + assert (now + t < later)%Q as Hlt.
      { apply Qnot_le_lt. intros Hle. apply Qle_bool_iff in Hle. congruence. }
      split; split; try done.
      intros Hle. exfalso. apply (Qlt_irrefl later).
      by apply Qle_lt_trans with (now + t)%Q.
  - intros ->. done.
Qed.

(** ** The circuit breaker between calls *)

Section BreakerStates.
Import Breaker.
Context {W T : Type} (clock : W -> Q).

Lemma before_call_cases (cb cb1 : CircuitBreaker) (w : W) :
  before_call clock cb w = Some cb1 ->
  (_state cb <> OPEN /\ cb1 = cb)
  \/ (_state cb = OPEN /\ cb1 = with_state cb HALF_OPEN).
Proof.
  unfold before_call. destruct (_state cb) eqn:S.
  - intros [= <-]. by left.
  - destruct (_should_attempt_reset clock cb w); [|done]. intros [= <-]. by right.
  - intros [= <-]. by left.
Qed.

Lemma call_breaker (cb : CircuitBreaker) (func : callable (W:=W) (T:=T))
    (fallback : option callable) (w : W) :
  (call clock cb func fallback w).1.2
  = match before_call clock cb w with
    | None => cb
    | Some cb1 =>
        match (func w).1 with
        | Returned _ => _on_success cb1
        | Raised _ => _on_failure clock cb1 (func w).2
        end
    end.
Proof.
  unfold call. destruct (before_call clock cb w) as [cb1|].
  - destruct (func w) as [[v|e] w1]; simpl; [done|].
    destruct fallback as [fb|]; [|done]. by destruct (fb w1).
  - destruct fallback as [fb|]; [|done]. by destruct (fb w).
Qed.

Lemma reachable_inv (cb : CircuitBreaker) :
  reachable clock (T:=T) cb ->
  _state cb <> HALF_OPEN
  /\ 0 <= _failure_count cb
  /\ (_state cb = OPEN ->
      _failure_threshold cb <= _failure_count cb
      /\ 1 <= _failure_count cb
      /\ is_Some (_last_failure_time cb)).
Proof.
  induction 1 as [name th to|cb func fallback w Hr (Hh & Hc & Ho)|cb Hr IH].
  - simpl. done.
  - rewrite call_breaker.
    destruct (before_call clock cb w) as [cb1|] eqn:B; [|done].
    apply before_call_cases in B as [[Hs ->]|[Hs ->]].
    + assert (_state cb = CLOSED) as Hcl by (by destruct (_state cb)).
      destruct (func w).1.
      * unfold _on_success. rewrite Hcl. simpl. done.
      * unfold _on_failure. simpl. rewrite Hcl.
        destruct (_failure_threshold cb <=? _failure_count cb + 1) eqn:L.
        -- apply Z.leb_le in L. repeat split; try done; lia.
        -- repeat split; try done; lia.
    + destruct (Ho Hs) as (Hth & H1 & Hl).
      destruct (func w).1.
      * unfold _on_success. simpl. done.
      * unfold _on_failure. simpl.
        assert ((_failure_threshold cb <=? _failure_count cb + 1) = true) as ->
          by (apply Z.leb_le; lia).
        repeat split; try done; lia.
  - simpl. done.
Qed.

End BreakerStates.

(** X9.  Between calls a circuit breaker is CLOSED or OPEN, never
    HALF_OPEN: whatever the sequence of calls and resets since it was
    built, with whatever outcomes.  When it is OPEN its failure count has
    reached the threshold and the time of the last failure is recorded, so
    the decision to attempt a reset is always taken on a recorded time. *)
Theorem breaker_is_never_left_half_open {W T : Type} (clock : W -> Q)
    (cb : Breaker.CircuitBreaker) :
  Breaker.reachable clock (T:=T) cb ->
  (Breaker._state cb = Breaker.CLOSED \/ Breaker._state cb = Breaker.OPEN)
  /\ 0 <= Breaker._failure_count cb
  /\ (Breaker._state cb = Breaker.OPEN ->
      Breaker._failure_threshold cb <= Breaker._failure_count cb
      /\ exists last_failure : Q,
           Breaker._last_failure_time cb = Some last_failure
           /\ forall w : W,
                Breaker._should_attempt_reset clock cb w
                = Qle_bool (Breaker._recovery_timeout_sec cb) (clock w - last_failure)).
Proof.
  intros (Hh & Hc & Ho)%reachable_inv. split; [|split; [done|]].
  - destruct (Breaker._state cb); auto. done.
  - intros Hs. destruct (Ho Hs) as (Hth & _ & [t Ht]). split; [done|].
    exists t. split; [done|]. intros w.
    unfold Breaker._should_attempt_reset. by rewrite Ht.
Qed.

Lemma breaker_is_never_left_half_open_witness :
  Breaker._state
    (Breaker.call (fun w : Q => w) (Breaker.init "test" 1 30) failing None 10%Q).1.2
  = Breaker.OPEN.
Proof.
  destruct (breaker_is_never_left_half_open (T:=string) (fun w : Q => w)
              (Breaker.call (fun w : Q => w) (Breaker.init "test" 1 30)
                            failing None 10%Q).1.2) as ([H|H] & _).
  - apply Breaker.reachable_call, Breaker.reachable_init.
  - vm_compute in H. discriminate.
  - exact H.
Defined.

(** X10.  The readiness endpoint reports the breaker that the requests have
    left behind as "closed" or "open", never as "half_open", and as "open"
    exactly when the breaker is OPEN. *)
Theorem readiness_reports_closed_or_open {W T : Type} (clock : W -> Q)
    (settings : Settings) (cb : Breaker.CircuitBreaker) :
  Breaker.reachable clock (T:=T) cb ->
  let report := Health.readiness_check settings cb in
  (Health.circuit_breaker_state report = "closed"
   \/ Health.circuit_breaker_state report = "open")
  /\ (Health.circuit_breaker_state report = "open"
      <-> Breaker._state cb = Breaker.OPEN)
  /\ Health.circuit_breaker_name report = Breaker._name cb.
Proof.
  intros (Hh & _)%reachable_inv. simpl.
  destruct (Breaker._state cb); simpl; try done; repeat split; auto; done.
Qed.

Lemma readiness_reports_closed_or_open_witness :
  Health.circuit_breaker_state
    (Health.readiness_check default_settings
       (Breaker.call (fun w : Q => w) (Breaker.init "ranking_service" 5 30)
                     failing None 10%Q).1.2)
  = "closed".
Proof.
  destruct (readiness_reports_closed_or_open (T:=string) (fun w : Q => w)
              default_settings
              (Breaker.call (fun w : Q => w) (Breaker.init "ranking_service" 5 30)
                            failing None 10%Q).1.2) as ([H|H] & _).
  - apply Breaker.reachable_call, Breaker.reachable_init.
  - exact H.
  - vm_compute in H. discriminate.
Defined.

Section BreakerRuns.
Import Breaker.
Context {W T : Type} (clock : W -> Q).

Lemma failing_calls_below_threshold (n : nat) (cb cb' : CircuitBreaker) :
  failing_calls clock (T:=T) n cb cb' ->
  _state cb = CLOSED ->
  _failure_count cb + Z.of_nat n < _failure_threshold cb ->
  _state cb' = CLOSED /\ _failure_count cb' = _failure_count cb + Z.of_nat n.
Proof.
  induction 1 as [cb|n cb cb1 func fallback w e w1 cb' cb'' Hb Hf Hc Hrun IH];
    intros Hs Hlt.
  - split; [done|]. simpl. lia.
  - destruct (failing_step clock cb cb1 func fallback w e w1 Hb Hf)
      as (Hcall & _).
    rewrite Hcall in Hc.
    apply before_call_cases in Hb as [[_ ->]|[Ho _]]; [|congruence].
    assert (_state cb' = CLOSED /\ _failure_count cb' = _failure_count cb + 1
            /\ _failure_threshold cb' = _failure_threshold cb) as (Hs' & Hc' & Ht').
    { subst cb'. unfold _on_failure. simpl.
      assert ((_failure_threshold cb <=? _failure_count cb + 1) = false) as ->
        by (apply Z.leb_gt; lia).
      done. }
    destruct IH as [IH1 IH2]; [done|lia|]. split; [done|]. lia.
Qed.

End BreakerRuns.

(** X11.  The breaker counts consecutive failures only.  A call whose
    primary is executed and returns leaves the breaker CLOSED with a failure
    count of 0, whatever the count was, and returns the result of the
    primary without running the fallback; from there, a run of failing
    calls shorter than the threshold leaves the breaker CLOSED. *)
Theorem success_resets_failure_count {W T : Type} (clock : W -> Q)
    (cb : Breaker.CircuitBreaker) (func : Breaker.callable (W:=W) (T:=T))
    (fallback : option Breaker.callable) (w w1 : W) (v : T) :
  Breaker.before_call clock cb w <> None ->
  func w = (Returned v, w1) ->
  let after := (Breaker.call clock cb func fallback w).1.2 in
  Breaker.call clock cb func fallback w = (Returned v, after, w1)
  /\ Breaker._state after = Breaker.CLOSED
  /\ Breaker._failure_count after = 0
  /\ Breaker._failure_threshold after = Breaker._failure_threshold cb
  /\ forall (n : nat) (cb' : Breaker.CircuitBreaker),
       Breaker.failing_calls clock (T:=T) n after cb' ->
       Z.of_nat n < Breaker._failure_threshold cb ->
       Breaker._state cb' = Breaker.CLOSED
       /\ Breaker._failure_count cb' = Z.of_nat n.
Proof.
  intros Hb Hf after.
  assert (Breaker.call clock cb func fallback w = (Returned v, after, w1)
          /\ Breaker._state after = Breaker.CLOSED
          /\ Breaker._failure_count after = 0
          /\ Breaker._failure_threshold after = Breaker._failure_threshold cb)
    as (H1 & H2 & H3 & H4).
  { subst after. unfold Breaker.call.
    destruct (Breaker.before_call clock cb w) as [cb1|] eqn:B; [|done].
    rewrite Hf. simpl.
    apply before_call_cases in B as [[Hs ->]|[Hs ->]]; simpl.
    - destruct (Breaker._state cb); done.
    - done. }
  repeat split; try done.
  - destruct (failing_calls_below_threshold clock n after cb' H) as [? ?];
      [done|lia|done].
  - destruct (failing_calls_below_threshold clock n after cb' H) as [? ?];
      [done|lia|lia].
Qed.

Lemma success_resets_failure_count_witness :
  Breaker.call (fun w : Q => w) tripped (fun w => (Returned "ok", w)) None 50%Q
  = (Returned "ok", Breaker.mkBreaker "test" 2 30 Breaker.CLOSED 0 (Some 11%Q), 50%Q).
Proof.
  destruct (success_resets_failure_count (T:=string) (fun w : Q => w) tripped
              (fun w => (Returned "ok", w)) None 50%Q 50%Q "ok") as (H & _).
  - vm_compute. discriminate.
  - reflexivity.
  - rewrite H. reflexivity.
Defined.

(** ** Filtering *)

Lemma keeps_complete (user : UserSignals) (config : TenantRankingRules)
    (v : VideoMetadata) :
  video_id v ∉ watched_ids user ->
  (forall tag, tag ∈ tags v -> tag ∉ exclude_tags (filters config)) ->
  (forall cap i j, max_maturity (filters config) = Some cap ->
     index ratings (maturity_rating v) = Some i ->
     index ratings cap = Some j -> (i <= j)%nat) ->
  keeps user config v = true.
Proof.
  intros Hw Ht Hm. unfold keeps.
  rewrite bool_decide_eq_false_2 by done.
  assert (existsb (fun tag => bool_decide (tag ∈ exclude_tags (filters config)))
                  (tags v) = false) as ->.
  { apply not_true_is_false. intros (tag & Hin & Hex)%List.existsb_exists.
    apply bool_decide_eq_true in Hex. apply list_elem_of_In in Hin.
    by apply (Ht tag). }
  destruct (max_maturity (filters config)) as [cap|] eqn:C; [|done].
  destruct (String.eqb cap ""); simpl; [done|].
  unfold _is_maturity_allowed.
  destruct (index ratings (maturity_rating v)) as [i|] eqn:I; [|done].
  destruct (index ratings cap) as [j|] eqn:J; [|done].
  assert ((i <=? j)%nat = true) as ->; [|done].
  apply Nat.leb_le. by apply (Hm cap).
Qed.

Lemma sublist_List_filter {A} (f : A -> bool) (l : list A) :
  sublist (List.filter f l) l.
Proof.
  induction l as [|x l IH]; simpl; [constructor|].
  destruct (f x); by constructor.
Qed.

Lemma filter_candidates_elem (candidates : list VideoMetadata)
    (user : UserSignals) (config : TenantRankingRules) (v : VideoMetadata) :
  v ∈ _filter_candidates candidates user config <->
  v ∈ candidates
  /\ (video_id v ∉ watched_ids user)
  /\ (forall tag, tag ∈ tags v -> tag ∉ exclude_tags (filters config))
  /\ (forall cap i j,
        max_maturity (filters config) = Some cap ->
        index ratings (maturity_rating v) = Some i ->
        index ratings cap = Some j -> (i <= j)%nat).
Proof.
  unfold _filter_candidates.
  rewrite list_elem_of_In, List.filter_In, <- list_elem_of_In. split.
  - intros [Hin Hk]. split; [done|]. by apply (keeps_sound user config).
  - intros (Hin & Hw & Ht & Hm). split; [done|]. by apply keeps_complete.
Qed.

(** X12.  The filter drops nothing but what it must.  Its output is the
    candidate list with some candidates left out, in the same order, and a
    candidate is kept exactly when its id is not among the user's watched
    ids, none of its tags is excluded, and it does not stand above the
    maturity cap on the ladder. *)
Theorem filter_keeps_every_eligible_candidate (candidates : list VideoMetadata)
    (user : UserSignals) (config : TenantRankingRules) :
  let filtered := _filter_candidates candidates user config in
  sublist filtered candidates
  /\ (forall v : VideoMetadata,
        v ∈ filtered <->
        v ∈ candidates
        /\ (video_id v ∉ watched_ids user)
        /\ (forall tag, tag ∈ tags v -> tag ∉ exclude_tags (filters config))
        /\ (forall cap i j,
              max_maturity (filters config) = Some cap ->
              index ratings (maturity_rating v) = Some i ->
              index ratings cap = Some j -> (i <= j)%nat))
  /\ _filter_candidates filtered user config = filtered.
Proof.
  intros filtered. subst filtered.
  split; [apply sublist_List_filter|split].
  - intros v. apply filter_candidates_elem.
  - unfold _filter_candidates. induction candidates as [|x l IH]; simpl; [done|].
    destruct (keeps user config x) eqn:K; simpl; [|done].
    by rewrite K, IH.
Qed.

(** ** Scoring *)

Lemma Qgtb_spec (a b : Q) : if Qgtb a b then (b < a)%Q else (a <= b)%Q.
Proof.
  destruct (Qgtb a b) eqn:E; [by apply Qgtb_true|by apply Qgtb_false].
Qed.

Lemma Qle_bool_spec (a b : Q) : if Qle_bool a b then (a <= b)%Q else (b < a)%Q.
Proof.
  destruct (Qle_bool a b) eqn:E; [by apply Qle_bool_iff|].
  apply Qnot_le_lt. intros H. apply Qle_bool_iff in H. congruence.
Qed.

(** The age in hours that [RecencyScoring] works with. *)
Lemma recency_boost_cases (now : Q) (video : VideoMetadata) (user : UserSignals)
    (config : TenantRankingRules) :
  let x := ((now - inject_Z (published_at video)) / 3600)%Q in
  let b := (calculate_boost RecencyScoring now video user config).1 in
  let w := weight config "recency" in
  ((x <= 0)%Q /\ b = (w * (1 - 0 / 48))%Q)
  \/ ((0 < x)%Q /\ (x < 48)%Q /\ b = (w * (1 - x / 48))%Q)
  \/ ((48 <= x)%Q /\ b = 0%Q).
Proof.
  intros x b w. subst b. simpl. unfold DECAY_HOURS. fold x. fold w.
  pose proof (Qgtb_spec x 0) as Hx. destruct (Qgtb x 0).
  - pose proof (Qle_bool_spec 48 x) as Hd.
    destruct (Qle_bool 48 x); [right; right|right; left]; done.
  - left. split; [done|].
    assert (Qle_bool 48 0 = false) as -> by done. done.
Qed.

(** X13.  The recency boost decays linearly with the age of the video: it
    is the full recency weight for a video published now or in the future,
    nothing from 48 hours on, and for a weight that is not negative it lies
    between 0 and the weight and a video published later never gets less. *)
Theorem recency_boost_decays_with_age (now : Q) (video video' : VideoMetadata)
    (user : UserSignals) (config : TenantRankingRules) :
  let boost v := (calculate_boost RecencyScoring now v user config).1 in
  let w := weight config "recency" in
  (calculate_boost RecencyScoring now video user config).2 = "recency"
  /\ ((now <= inject_Z (published_at video))%Q -> (boost video == w)%Q)
  /\ ((inject_Z (published_at video) + 48 * 3600 <= now)%Q -> (boost video == 0)%Q)
  /\ ((0 <= w)%Q ->
      (0 <= boost video)%Q /\ (boost video <= w)%Q
      /\ (published_at video <= published_at video' ->
          (boost video <= boost video')%Q)).
Proof.
  intros boost w.
  pose proof (recency_boost_cases now video user config) as H. cbv zeta in H.
  pose proof (recency_boost_cases now video' user config) as H'. cbv zeta in H'.
  subst boost. cbv beta.
  set (b := (calculate_boost RecencyScoring now video user config).1) in *.
  set (b' := (calculate_boost RecencyScoring now video' user config).1) in *.
  fold w in H, H'.
  set (p := inject_Z (published_at video)) in *.
  set (p' := inject_Z (published_at video')) in *.
  unfold Qdiv in H, H'.
  change (/ 3600)%Q with (1 # 3600)%Q in H, H'.
  change (/ 48)%Q with (1 # 48)%Q in H, H'.
  assert (published_at video <= published_at video' -> (p <= p')%Q) as Hmono.
  { intros Hpp. subst p p'. by rewrite <- Zle_Qle. }
  clearbody b b' w p p'.
  split; [done|].
  split; [|split; [|intros Hw; split; [|split]]].
  - intros Hle. destruct H as [[Hx ->]|[(Hx & _ & _)|[Hx _]]]; lra.
  - intros Hle. destruct H as [[Hx _]|[(_ & Hx & _)|[_ ->]]]; lra.
  - destruct H as [[_ ->]|[(Hx & Hx' & ->)|[_ ->]]]; [lra|nra|lra].
  - destruct H as [[_ ->]|[(Hx & Hx' & ->)|[_ ->]]]; [lra|nra|lra].
  - intros Hpp.
    pose proof (Hmono Hpp) as Hq.
    destruct H as [[Hx ->]|[(Hx & Hx2 & ->)|[Hx ->]]];
      destruct H' as [[Hy ->]|[(Hy & Hy2 & ->)|[Hy ->]]]; try lra; nra.
Qed.

Section Affinity.
Variable user : UserSignals.

Local Abbreviation affinity := (fun tag : string => default 0%Q (affinities user !! tag)).
Local Abbreviation step :=
  (fun (acc : Q) (tag : string) =>
     if Qgtb (affinity tag) acc then affinity tag else acc).

Lemma max_affinity_fold (tags : list string) (acc : Q) :
  let m := fold_left step tags acc in
  (acc <= m)%Q
  /\ (forall tag, tag ∈ tags -> (affinity tag <= m)%Q)
  /\ (m = acc \/ exists tag, tag ∈ tags /\ m = affinity tag).
Proof.
  revert acc. induction tags as [|t tags IH]; intros acc; simpl.
  - split; [apply Qle_refl|]. split; [|by left]. by intros tag ?%elem_of_nil.
  - destruct (IH (step acc t)) as (H1 & H2 & H3).
    assert (acc <= step acc t /\ affinity t <= step acc t)%Q as [Ha Ht].
    { cbv beta. pose proof (Qgtb_spec (affinity t) acc) as G. cbv beta in G.
      destruct (Qgtb (default 0%Q (affinities user !! t)) acc).
      - split; [by apply Qlt_le_weak|apply Qle_refl].
      - split; [apply Qle_refl|done]. }
    split; [by apply Qle_trans with (step acc t)|]. split.
    + intros tag [->|Hin]%elem_of_cons; [|by apply H2].
      by apply Qle_trans with (step acc t).
    + destruct H3 as [H3|(tag & Hin & H3)].
      * cbv beta in H3.
        destruct (Qgtb (default 0%Q (affinities user !! t)) acc) eqn:G.
        -- right. exists t. split; [by left|done].
        -- by left.
      * right. exists tag. split; [by right|done].
Qed.

End Affinity.

(** X14.  The affinity boost is the affinity weight times the highest
    affinity of the user among the tags of the video, and never less than
    the weight times 0: a tag without affinity counts as 0, a negative
    affinity is ignored, and a video without tags, or a user without
    affinities, gets the boost of affinity 0. *)
Theorem affinity_boost_is_highest_affinity (now : Q) (video : VideoMetadata)
    (user : UserSignals) (config : TenantRankingRules) :
  let affinity tag := default 0%Q (affinities user !! tag) in
  exists m : Q,
    calculate_boost AffinityScoring now video user config
    = ((weight config "user_affinity" * m)%Q, "affinity")
    /\ (0 <= m)%Q
    /\ (forall tag, tag ∈ tags video -> (affinity tag <= m)%Q)
    /\ (m = 0%Q \/ exists tag, tag ∈ tags video /\ m = affinity tag)
    /\ ((forall tag, tag ∈ tags video -> affinities user !! tag = None) -> m = 0%Q).
Proof.
  intros affinity.
  pose proof (max_affinity_fold user (tags video) 0%Q) as H. cbv zeta in H.
  set (m := fold_left _ (tags video) 0%Q) in H.
  destruct H as (H1 & H2 & H3).
  exists m. split; [reflexivity|]. split; [done|]. split; [done|]. split; [done|].
  intros Hnone. destruct H3 as [H3|(tag & Hin & H3)]; [done|].
  rewrite H3. subst affinity. cbv beta. by rewrite (Hnone tag Hin).
Qed.

(** ** Scores *)

Lemma dict_get_set {K A} `{EqDecision K} (d : list (K * A)) (k : K) (v : A) :
  dict_get (dict_set d k v) k = Some v.
Proof.
  induction d as [|[k' v'] d IH]; simpl.
  - by rewrite decide_True.
  - destruct (decide (k' = k)) as [->|n]; simpl.
    + by rewrite decide_True.
    + by rewrite decide_False.
Qed.

Lemma dict_get_set_ne {K A} `{EqDecision K} (d : list (K * A)) (k k0 : K) (v : A) :
  k0 <> k -> dict_get (dict_set d k v) k0 = dict_get d k0.
Proof.
  intros Hne. induction d as [|[k' v'] d IH]; simpl.
  - by rewrite decide_False.
  - destruct (decide (k' = k)) as [->|n]; simpl.
    + rewrite !decide_False; done.
    + destruct (decide (k' = k0)); done.
Qed.

Section Scores.
Variables (self : RankingEngine) (now : Q).
Variables (user : UserSignals) (config : TenantRankingRules).


Lemma score_one_final (w : Q) (v : VideoMetadata) :
  exists (total_boost : Q) (breakdown : list (string * Q)),
    let base := (video_score v * w)%Q in
    final_score (score_one self now user config w v) = (base * (1 + total_boost))%Q
    /\ score_breakdown (score_one self now user config w v)
       = dict_set (dict_set breakdown "total_boost" total_boost) "final"
                  (base * (1 + total_boost))%Q.
Proof.
  unfold score_one.
  destruct (fold_left _ (_strategies self) _) as [total bd].
  exists total, bd. done.
Qed.


End Scores.



(** ** Sorting an ordered sequence *)

Lemma sorted_desc_of_sorted {A} (key : A -> Q) (l : list A) :
  StronglySorted (fun x y => (key y <= key x)%Q) l -> sorted_desc key l = l.
Proof.
  induction 1 as [|x l Hs IH Hx]; [done|].
  unfold sorted_desc in *. simpl. rewrite IH.
  destruct l as [|y l]; [done|]. simpl.
  apply Forall_cons in Hx as [Hy _].
  pose proof (Qgtb_spec (key y) (key x)) as G.
  destruct (Qgtb (key y) (key x)); [|done].
  exfalso. apply (Qlt_irrefl (key x)). by apply Qlt_le_trans with (key y).
Qed.

Lemma map_video_score_candidates (self : RankingEngine) (now : Q)
    (l : list VideoMetadata) (user : UserSignals) (config : TenantRankingRules) :
  map video (_score_candidates self now l user config) = l.
Proof.
  unfold _score_candidates. rewrite map_map.
  rewrite (map_ext _ id); [apply map_id|].
  intros v. apply score_one_video.
Qed.

(** X16.  A popularity weight of 0 switches the ranking off: every base
    score, and so every final score, is 0, the stable sort leaves the
    sequence as it is, and without editorial overrides the videos are
    ranked in the order of the candidate list, whatever their scores, ages
    and affinities. *)
Theorem zero_popularity_weight_keeps_candidate_order (self : RankingEngine)
    (now : Q) (candidates : list VideoMetadata) (user : UserSignals)
    (config : TenantRankingRules) :
  (weight config "popularity" == 0)%Q ->
  Forall (fun sv => (final_score sv == 0)%Q)
         (sorted_scored self now candidates user config)
  /\ map video (sorted_scored self now candidates user config)
     = _filter_candidates candidates user config
  /\ (editorial_boosts config = ∅ ->
      map video (ranked self now candidates user config)
      = _filter_candidates candidates user config).
Proof.
  intros Hw.
  set (survivors := _filter_candidates candidates user config).
  assert (Forall (fun sv => (final_score sv == 0)%Q)
                 (_score_candidates self now survivors user config)) as Hz.
  { unfold _score_candidates. apply Forall_forall.
    intros sv (v & <- & Hv)%list_elem_of_In%List.in_map_iff.
    destruct (score_one_final self now user config
                (calculate_boost PopularityScoring now
                   match survivors with
                   | [] => mkVideo "" "" 0 [] "G" 0
                   | v0 :: _ => v0
                   end user config).1 v) as (total & bd & Hf & _).
    cbv zeta in Hf. rewrite Hf. simpl. rewrite Hw. ring. }
  assert (sorted_scored self now candidates user config
          = _score_candidates self now survivors user config) as Hsame.
  { unfold sorted_scored. fold survivors. apply sorted_desc_of_sorted.
    revert Hz. generalize (_score_candidates self now survivors user config).
    induction l as [|x l IH]; intros Hz; constructor.
    - apply IH. by apply Forall_cons in Hz as [_ ?].
    - apply Forall_cons in Hz as [Hx Hl]. apply Forall_forall.
      intros y Hy. rewrite Forall_forall in Hl. rewrite Hx, (Hl y Hy).
      apply Qle_refl. }
  rewrite Hsame. split; [done|]. split.
  - apply map_video_score_candidates.
  - intros He. unfold ranked, _apply_editorial_boosts.
    rewrite decide_True by done. rewrite Hsame.
    apply map_video_score_candidates.
Qed.

Lemma zero_popularity_weight_keeps_candidate_order_witness :
  map video (ranked default_engine now0 sports user_sporty
               (mkRules "tenant_sports" (<["popularity" := 0%Q]> ∅)
                        (mkFilters [] None) ∅))
  = _filter_candidates sports user_sporty
      (mkRules "tenant_sports" (<["popularity" := 0%Q]> ∅) (mkFilters [] None) ∅).
Proof.
  apply (zero_popularity_weight_keeps_candidate_order default_engine now0 sports
           user_sporty
           (mkRules "tenant_sports" (<["popularity" := 0%Q]> ∅) (mkFilters [] None) ∅));
    reflexivity.
Defined.

(** ** Editorial overrides: positions *)

Lemma reinsert_length (R : list ScoredVideo) (e : Z * ScoredVideo) :
  length (reinsert R e) = S (length R).
Proof.
  destruct e as [p item]. unfold reinsert.
  by rewrite (Permutation_length (insert_perm R _ item)).
Qed.

Lemma fold_reinsert_length (B : list (Z * ScoredVideo)) (R : list ScoredVideo) :
  length (fold_left reinsert B R) = (length R + length B)%nat.
Proof.
  revert R. induction B as [|e B IH]; intros R; cbn [fold_left length]; [lia|].
  rewrite IH, reinsert_length. lia.
Qed.

Lemma fold_reinsert_keeps (B : list (Z * ScoredVideo)) :
  forall (R : list ScoredVideo) (i : nat) (x : ScoredVideo),
    R !! i = Some x ->
    Forall (fun e => Z.of_nat i < e.1) B ->
    fold_left reinsert B R !! i = Some x.
Proof.
  induction B as [|[q y] B IH]; intros R i x Hx HB; cbn [fold_left]; [done|].
  apply Forall_cons in HB as [Hq HB]. simpl in Hq.
  apply IH; [|done].
  pose proof (lookup_lt_Some _ _ _ Hx) as Hlt.
  destruct (reinsert_at R q y) as [-> Hn]; [lia|].
  rewrite lookup_app_l by (rewrite length_take; lia).
  rewrite lookup_take_lt by lia. done.
Qed.

Lemma sorted_split_strict (B B1 B2 : list (Z * ScoredVideo)) (e : Z * ScoredVideo) :
  StronglySorted (fun a b => a.1 <= b.1) B -> NoDup B.*1 ->
  B = B1 ++ e :: B2 ->
  Forall (fun a => a.1 < e.1) B1 /\ Forall (fun a => e.1 < a.1) B2.
Proof.
  intros Hs Hnd ->. rewrite fmap_app, fmap_cons in Hnd.
  apply NoDup_app in Hnd as (_ & Hd & Hnd2).
  apply NoDup_cons in Hnd2 as [He2 _].
  split.
  - apply Forall_forall. intros a Ha.
    assert (a.1 <= e.1) as Hle.
    { clear Hd He2. induction B1 as [|b B1 IH]; [by apply elem_of_nil in Ha|].
      simpl in Hs. apply StronglySorted_inv in Hs as [Hs Hb].
      apply elem_of_cons in Ha as [->|Ha]; [|by apply IH].
      rewrite Forall_forall in Hb. apply Hb. apply elem_of_app. right. by left. }
    assert (a.1 <> e.1); [|lia].
    intros Heq. apply (Hd a.1); [by apply list_elem_of_fmap_2|].
    rewrite Heq. by left.
  - assert (StronglySorted (fun a b => a.1 <= b.1) (e :: B2)) as Hs2.
    { clear Hd He2. induction B1 as [|b B1 IH]; [done|].
      simpl in Hs. apply StronglySorted_inv in Hs as [Hs _]. by apply IH. }
    apply StronglySorted_inv in Hs2 as [_ Hb].
    apply Forall_forall. intros a Ha. rewrite Forall_forall in Hb.
    assert (a.1 <> e.1); [|specialize (Hb a Ha); lia].
    intros Heq. apply He2. rewrite <- Heq. by apply list_elem_of_fmap_2.
Qed.

Lemma filter_below_prefix (B1 B2 : list (Z * ScoredVideo)) (e : Z * ScoredVideo) :
  Forall (fun a => a.1 < e.1) B1 -> Forall (fun a => e.1 < a.1) B2 ->
  List.filter (fun a => a.1 <? e.1) (B1 ++ e :: B2) = B1.
Proof.
  intros H1 H2. rewrite List.filter_app. simpl.
  rewrite Z.ltb_irrefl.
  assert (List.filter (fun a => a.1 <? e.1) B1 = B1) as ->.
  { induction H1 as [|a B1 Ha _ IH]; [done|]. simpl.
    assert ((a.1 <? e.1) = true) as -> by (apply Z.ltb_lt; lia). by rewrite IH. }
  assert (List.filter (fun a => a.1 <? e.1) B2 = []) as ->.
  { induction H2 as [|a B2 Ha _ IH]; [done|]. simpl.
    assert ((a.1 <? e.1) = false) as -> by (apply Z.ltb_ge; lia). done. }
  by rewrite app_nil_r.
Qed.

Lemma filter_length_perm {A} (f : A -> bool) (l l' : list A) :
  l ≡ₚ l' -> length (List.filter f l) = length (List.filter f l').
Proof.
  induction 1 as [|x l l' _ IH|x y l|l l' l'' _ IH1 _ IH2]; simpl.
  - done.
  - destruct (f x); simpl; by rewrite IH.
  - destruct (f x), (f y); done.
  - by rewrite IH1.
Qed.

Lemma fold_reinsert_position (B : list (Z * ScoredVideo)) (R : list ScoredVideo)
    (p : Z) (item : ScoredVideo) :
  StronglySorted (fun a b => a.1 <= b.1) B -> NoDup B.*1 ->
  (p, item) ∈ B -> 0 <= p ->
  let ahead := (length R
                + length (List.filter (fun a : Z * ScoredVideo => (a.1 <? p)%Z) B))%nat in
  fold_left reinsert B R !! Z.to_nat (Z.min p (Z.of_nat ahead)) = Some item.
Proof.
  intros Hs Hnd Hin Hp ahead.
  apply list_elem_of_split in Hin as (B1 & B2 & HB).
  destruct (sorted_split_strict B B1 B2 (p, item) Hs Hnd HB) as [H1 H2].
  simpl in H1, H2.
  assert (ahead = (length R + length B1)%nat) as ->.
  { subst ahead. rewrite HB.
    pose proof (filter_below_prefix B1 B2 (p, item) H1 H2) as Hf.
    simpl in Hf. by rewrite Hf. }
  rewrite HB, fold_left_app. cbn [fold_left].
  set (R1 := fold_left reinsert B1 R).
  assert (length R1 = (length R + length B1)%nat) as HR1
    by apply fold_reinsert_length.
  rewrite <- HR1.
  apply fold_reinsert_keeps.
  - destruct (reinsert_at R1 p item Hp) as [-> Hn]. cbv zeta in Hn.
    rewrite lookup_app_r by (rewrite length_take; lia).
    rewrite length_take. rewrite Nat.min_l by lia. by rewrite Nat.sub_diag.
  - apply Forall_forall. intros a Ha. rewrite Forall_forall in H2.
    specialize (H2 a Ha). lia.
Qed.

(** X17.  An editorial override puts its video at the position it names.
    When the overrides that apply bind distinct positions, an item pinned to
    a position [p] that is not negative stands at index [p] of the sequence
    after the overrides, provided at least [p] items come before it: the
    items without override and the pinned items of smaller positions.  With
    fewer, it stands right behind them. *)
Theorem editorial_item_lands_at_its_position (scored : list ScoredVideo)
    (config : TenantRankingRules) (item : ScoredVideo) (p : Z) :
  NoDup (editorial_pairs config scored).*1 ->
  item ∈ scored ->
  editorial_boosts config !! video_id (video item) = Some p ->
  0 <= p ->
  let ahead :=
    (length (non_editorial config scored)
     + length (List.filter (fun e : Z * ScoredVideo => (e.1 <? p)%Z)
                           (editorial_pairs config scored)))%nat in
  _apply_editorial_boosts scored config !! Z.to_nat (Z.min p (Z.of_nat ahead))
  = Some item
  /\ (p <= Z.of_nat ahead ->
      _apply_editorial_boosts scored config !! Z.to_nat p = Some item).
Proof.
  intros Hnd Hin Hb Hp ahead.
  assert (_apply_editorial_boosts scored config !! Z.to_nat (Z.min p (Z.of_nat ahead))
          = Some item) as H.
  { rewrite editorial_distinct; [|by intros He; rewrite He in Hb|done].
    subst ahead.
    rewrite (filter_length_perm _ _ _
               (symmetry (sorted_asc_perm fst (editorial_pairs config scored)))).
    apply fold_reinsert_position; [apply sorted_asc_sorted| | |done].
    - by rewrite (sorted_asc_perm fst (editorial_pairs config scored)).
    - rewrite (sorted_asc_perm fst (editorial_pairs config scored)).
      unfold editorial_pairs. apply list_elem_of_omap. exists item.
      split; [done|]. by rewrite Hb. }
  split; [done|]. intros Hle. by rewrite Z.min_l in H by lia.
Qed.

Lemma editorial_item_lands_at_its_position_witness :
  _apply_editorial_boosts
    [mkScored tie_b 3 []; mkScored tie_a 2 []] (mkRules "t" ∅ (mkFilters [] None) (<["a" := 0]> ∅))
  !! 0%nat = Some (mkScored tie_a 2 []).
Proof.
  destruct (editorial_item_lands_at_its_position
              [mkScored tie_b 3 []; mkScored tie_a 2 []]
              (mkRules "t" ∅ (mkFilters [] None) (<["a" := 0]> ∅))
              (mkScored tie_a 2 []) 0) as [H _].
  - vm_compute. apply NoDup_singleton.
  - right. left.
  - reflexivity.
  - lia.
  - exact H.
Defined.

Section EditorialOrder.
Variable config : TenantRankingRules.

Local Abbreviation pinned_item :=
  (fun item : ScoredVideo =>
     is_Some (editorial_boosts config !! video_id (video item))).

Lemma extract_remaining (scored : list ScoredVideo) b r :
  (fold_left (extract_step config) scored (b, r)).2
  = r ++ non_editorial config scored.
Proof.
  revert b r. induction scored as [|item scored IH]; intros b r; cbn.
  - by rewrite app_nil_r.
  - unfold non_editorial in *. cbn.
    destruct (editorial_boosts config !! video_id (video item)) as [p|] eqn:E; cbn.
    + by rewrite IH.
    + rewrite IH. by rewrite <- app_assoc.
Qed.

Lemma extract_pinned (scored : list ScoredVideo) b r :
  Forall pinned_item b.*2 ->
  Forall pinned_item (fold_left (extract_step config) scored (b, r)).1.*2.
Proof.
  revert b r. induction scored as [|item scored IH]; intros b r Hb; cbn; [done|].
  destruct (editorial_boosts config !! video_id (video item)) as [p|] eqn:E.
  - apply IH. apply Forall_forall.
    intros x [[k y] [-> Hin]]%list_elem_of_fmap.
    apply dict_set_elem in Hin as [Hin|[= -> ->]].
    2:{ change (is_Some (editorial_boosts config !! video_id (video item))).
        by rewrite E. }
    rewrite Forall_forall in Hb. apply Hb. apply list_elem_of_fmap. by exists (k, y).
  - by apply IH.
Qed.

Lemma non_editorial_app (l1 l2 : list ScoredVideo) :
  non_editorial config (l1 ++ l2) = non_editorial config l1 ++ non_editorial config l2.
Proof. unfold non_editorial. apply List.filter_app. Qed.

Lemma non_editorial_insert (l : list ScoredVideo) (i : Z) (item : ScoredVideo) :
  pinned_item item ->
  non_editorial config (Py.insert l i item) = non_editorial config l.
Proof.
  intros [p Hp]. unfold Py.insert.
  set (n := Z.to_nat _). rewrite non_editorial_app.
  rewrite <- (take_drop n l) at 3. rewrite non_editorial_app. f_equal.
  unfold non_editorial. cbn [List.filter].
  rewrite bool_decide_eq_false_2; [done|]. by rewrite Hp.
Qed.

Lemma non_editorial_reinsert (B : list (Z * ScoredVideo)) (R : list ScoredVideo) :
  Forall pinned_item B.*2 ->
  non_editorial config (fold_left reinsert B R) = non_editorial config R.
Proof.
  revert R. induction B as [|[q y] B IH]; intros R HB; cbn [fold_left]; [done|].
  rewrite fmap_cons in HB. apply Forall_cons in HB as [Hy HB].
  rewrite IH by done. unfold reinsert. by apply non_editorial_insert.
Qed.

Lemma non_editorial_idemp (l : list ScoredVideo) :
  non_editorial config (non_editorial config l) = non_editorial config l.
Proof.
  unfold non_editorial. induction l as [|x l IH]; cbn; [done|].
  destruct (bool_decide _) eqn:E; cbn; [|done]. by rewrite E, IH.
Qed.

End EditorialOrder.

(** X18.  Overrides for videos that are not among the scored items change
    nothing: the sequence after the overrides is the sorted sequence. *)
Theorem overrides_for_absent_videos_change_nothing (scored : list ScoredVideo)
    (config : TenantRankingRules) :
  (forall item, item ∈ scored ->
                editorial_boosts config !! video_id (video item) = None) ->
  _apply_editorial_boosts scored config = scored.
Proof.
  intros Habs. unfold _apply_editorial_boosts.
  destruct (decide (editorial_boosts config = ∅)); [done|].
  assert (editorial_pairs config scored = []) as Hp.
  { unfold editorial_pairs. induction scored as [|x l IH]; [done|]. cbn.
    rewrite (Habs x) by (by left). cbn. apply IH.
    intros item Hin. apply Habs. by right. }
  assert (non_editorial config scored = scored) as Hn.
  { unfold non_editorial. induction scored as [|x l IH]; [done|]. cbn.
    rewrite (Habs x) by (by left). rewrite bool_decide_eq_true_2 by done.
    f_equal. apply IH.
    - intros item Hin. apply Habs. by right.
    - cbn in Hp. rewrite (Habs x) in Hp by (by left). done. }
  unfold extract_boosted. rewrite extract_distinct.
  - rewrite Hp, Hn. done.
  - rewrite Hp. cbn. constructor.
Qed.

Lemma overrides_for_absent_videos_change_nothing_witness :
  _apply_editorial_boosts [mkScored tie_b 3 []; mkScored tie_a 2 []]
    (mkRules "t" ∅ (mkFilters [] None) (<["z" := 0]> ∅))
  = [mkScored tie_b 3 []; mkScored tie_a 2 []].
Proof.
  apply overrides_for_absent_videos_change_nothing.
  intros item [->|[->|H%elem_of_nil]%elem_of_cons]%elem_of_cons; done.
Defined.

(** X19.  The overrides never reorder the other items: whatever the
    overrides, colliding or not, the items without override stand in the
    sequence after the overrides exactly as in the sorted sequence, and in
    the same order. *)
Theorem overrides_keep_the_order_of_other_items (scored : list ScoredVideo)
    (config : TenantRankingRules) :
  non_editorial config (_apply_editorial_boosts scored config)
  = non_editorial config scored
  /\ sublist (non_editorial config scored) (_apply_editorial_boosts scored config).
Proof.
  assert (non_editorial config (_apply_editorial_boosts scored config)
          = non_editorial config scored) as H.
  { unfold _apply_editorial_boosts.
    destruct (decide (editorial_boosts config = ∅)); [done|].
    unfold extract_boosted.
    pose proof (extract_remaining config scored [] []) as Hr.
    pose proof (extract_pinned config scored [] [] (List.Forall_nil _)) as Hb.
    destruct (fold_left (extract_step config) scored ([], [])) as [b r].
    cbn in Hr, Hb. subst r.
    rewrite non_editorial_reinsert.
    - apply non_editorial_idemp.
    - rewrite (sorted_asc_perm fst b). done. }
  split; [done|]. rewrite <- H. apply sublist_List_filter.
Qed.

(** ** Pages *)

Lemma slice_length_le {A} (l : list A) (a n : Z) :
  0 <= n -> (length (slice l a (a + n)) <= Z.to_nat n)%nat.
Proof.
  intros Hn. unfold slice, slice_bound. rewrite length_take, length_drop.
  destruct (a <? 0) eqn:Ea; destruct (a + n <? 0) eqn:Eb; lia.
Qed.

Lemma slice_past_end {A} (l : list A) (a b : Z) :
  Z.of_nat (length l) <= a -> slice l a b = [].
Proof.
  intros Ha. unfold slice, slice_bound.
  assert ((a <? 0) = false) as -> by lia.
  rewrite (Z.min_r a) by lia. rewrite drop_ge by lia. by rewrite take_nil.
Qed.

(** X20.  A page never holds more items than the limit, whatever the
    cursor: for every limit that is not negative and every offset the cursor
    may decode to, negative ones included.  A request whose offset lies at
    or past the end of the ranked sequence gets an empty page with
    [has_more] false and no cursor. *)
Theorem page_never_exceeds_limit (self : RankingEngine) (now : Q)
    (candidates : list VideoMetadata) (user : UserSignals)
    (config : TenantRankingRules) (limit : Z) (cursor : option string)
    (page : list FeedItem) (next : option string) (more : bool) :
  0 <= limit ->
  rank self now candidates user config limit cursor = Returned (page, next, more) ->
  (length page <= Z.to_nat limit)%nat
  /\ (length page <= length (ranked self now candidates user config))%nat
  /\ (forall offset : Z,
        as_int (_decode_cursor cursor) = Some offset ->
        Z.of_nat (length (ranked self now candidates user config)) <= offset ->
        page = [] /\ next = None /\ more = false).
Proof.
  intros Hl Hr. unfold rank in Hr.
  destruct (as_int (_decode_cursor cursor)) as [o|] eqn:E; [|done].
  injection Hr as <- <- <-. unfold _to_feed_items. rewrite length_map.
  split; [by apply slice_length_le|]. split.
  - unfold slice. rewrite length_take, length_drop. lia.
  - intros offset [= <-] Hpast. rewrite slice_past_end by done.
    assert ((Z.of_nat (length (ranked self now candidates user config)) >? o + limit)
            = false) as -> by lia.
    done.
Qed.

Lemma page_never_exceeds_limit_witness :
  (length first_page.1.1 <= Z.to_nat 3)%nat.
Proof.
  apply (page_never_exceeds_limit default_engine now0 sports user_sporty
           sports_config 3 None first_page.1.1 first_page.1.2 first_page.2);
    [lia|reflexivity].
Defined.

(** X21.  A cursor that cannot be read is treated as no cursor.  The empty
    text, a text that is not base64, bytes that are not UTF-8, a text that
    is not JSON, a JSON value that is not an object and an object without
    "offset" all give exactly the answer of a request without cursor. *)
Theorem unreadable_cursor_gives_first_page (self : RankingEngine) (now : Q)
    (candidates : list VideoMetadata) (user : UserSignals)
    (config : TenantRankingRules) (limit : Z) (c : string) :
  c = ""
  \/ b64decode c = None
  \/ (exists bytes, b64decode c = Some bytes /\ utf8_decode bytes = None)
  \/ (exists bytes text,
        b64decode c = Some bytes /\ utf8_decode bytes = Some text
        /\ (json_loads text = None
            \/ (exists v, json_loads text = Some v /\ forall d, v <> JDict d)
            \/ (exists d, json_loads text = Some (JDict d)
                          /\ dict_get d "offset" = None))) ->
  _decode_cursor (Some c) = JInt 0
  /\ rank self now candidates user config limit (Some c)
     = rank self now candidates user config limit None.
Proof.
  intros H.
  assert (_decode_cursor (Some c) = JInt 0) as Hd.
  { destruct H as [->|H]; [done|].
    unfold _decode_cursor. destruct c as [|a c]; [done|].
    destruct H as [->|[(bytes & -> & ->)|(bytes & text & -> & -> & H)]]; try done.
    destruct H as [->|[(v & -> & Hv)|(d & -> & ->)]]; try done.
    destruct v; try done. by destruct (Hv d). }
  split; [done|]. unfold rank. by rewrite Hd.
Qed.

Lemma unreadable_cursor_gives_first_page_witness :
  rank default_engine now0 sports user_sporty sports_config 3 (Some "W10=")
  = rank default_engine now0 sports user_sporty sports_config 3 None.
Proof.
  apply (unreadable_cursor_gives_first_page default_engine now0 sports user_sporty
           sports_config 3 "W10=").
  right. right. right. exists "[]", "[]".
  split; [reflexivity|]. split; [reflexivity|].
  right. left. exists (JList []). split; [reflexivity|]. discriminate.
Defined.

(** ** The inline fallback of the circuit breaker *)

Lemma sorted_app_le {A} (R : A -> A -> Prop) (l1 l2 : list A) :
  StronglySorted R (l1 ++ l2) ->
  StronglySorted R l1 /\ forall x y, x ∈ l1 -> y ∈ l2 -> R x y.
Proof.
  induction l1 as [|a l1 IH]; simpl; intros Hs.
  - split; [constructor|]. by intros x y ?%elem_of_nil.
  - apply StronglySorted_inv in Hs as [Hs Ha]. destruct (IH Hs) as [IH1 IH2].
    rewrite Forall_forall in Ha. split.
    + constructor; [done|]. apply Forall_forall. intros x Hx. apply Ha.
      apply elem_of_app. by left.
    + intros x y [->|Hx]%elem_of_cons Hy; [|by apply IH2].
      apply Ha. apply elem_of_app. by right.
Qed.

(** X22.  The inline fallback returns the most popular candidates: for a
    limit that is not negative its items are the first min(limit, length)
    candidates in the order of decreasing popularity score, so that no
    candidate left out has a higher score than one returned; it never
    paginates. *)
Theorem inline_fallback_returns_most_popular (now : Q)
    (candidates : list VideoMetadata) (limit : Z) :
  0 <= limit ->
  exists top rest : list VideoMetadata,
    Feed._get_fallback_items_sync now candidates limit
    = (map (Feed.fallback_item now "cb_fallback_") top, None, false)
    /\ top ++ rest ≡ₚ candidates
    /\ length top = Nat.min (Z.to_nat limit) (length candidates)
    /\ StronglySorted (fun x y => (video_score y <= video_score x)%Q) top
    /\ (forall x y, x ∈ top -> y ∈ rest -> (video_score y <= video_score x)%Q).
Proof.
  intros Hl.
  set (sorted := sorted_desc video_score candidates).
  exists (take (Z.to_nat limit) sorted), (drop (Z.to_nat limit) sorted).
  pose proof (sorted_desc_perm video_score candidates) as Hp. fold sorted in Hp.
  pose proof (sorted_desc_sorted video_score candidates) as Hs. fold sorted in Hs.
  rewrite <- (take_drop (Z.to_nat limit) sorted) in Hs.
  apply sorted_app_le in Hs as [Hs1 Hs2].
  split; [|split; [|split; [|split]]].
  - unfold Feed._get_fallback_items_sync. fold sorted.
    by rewrite slice_prefix by done.
  - by rewrite take_drop.
  - rewrite length_take. by rewrite (Permutation_length Hp).
  - done.
  - done.
Qed.

Lemma inline_fallback_returns_most_popular_witness :
  map item_id (Feed._get_fallback_items_sync now0 sports 3).1.1 = ["v1"; "v4"; "v2"].
Proof.
  destruct (inline_fallback_returns_most_popular now0 sports 3) as (top & rest & H & _);
    [lia|].
  reflexivity.
Defined.

(** ** The feed service: which path answers *)

Section FeedPaths.
Variables (settings : Settings) (now : Q) (self : Feed.FeedService).
Variables (tenant user : string) (limit : Z) (cursor : option string).

Local Abbreviation repos := (Feed._repos self).

(** The candidates that reach the ranking step. *)
Lemma bounded_candidates (candidates : list VideoMetadata) :
  (if (200 <? length candidates)%nat then slice candidates 0 200 else candidates)
  = take 200 candidates.
Proof.
  destruct (200 <? length candidates)%nat eqn:E.
  - by rewrite slice_prefix by lia.
  - apply Nat.ltb_ge in E. by rewrite take_ge.
Qed.

(** The call through the circuit breaker: it returns what [rank] returns,
    or the inline fallback. *)
Lemma breaker_step (cb : Breaker.CircuitBreaker) (candidates : list VideoMetadata)
    (signals : UserSignals) (config : TenantRankingRules) :
  let call :=
    Breaker.call (fun w : Q => w) cb
      (fun w => (rank (Feed._ranking_engine self) w candidates signals config
                      limit cursor, w))
      (Some (fun w => (Returned (Feed._get_fallback_items_sync now candidates limit), w)))
      now in
  call.1.1 = Returned (Feed._get_fallback_items_sync now candidates limit)
  \/ (exists answer,
        rank (Feed._ranking_engine self) now candidates signals config limit cursor
        = Returned answer
        /\ call.1.1 = Returned answer).
Proof.
  intros call. subst call. unfold Breaker.call.
  destruct (Breaker.before_call _ cb now) as [cb1|]; [|by left].
  destruct (rank _ now candidates signals config limit cursor) as [answer|e] eqn:R.
  - right. exists answer. done.
  - by left.
Qed.

Lemma personalized_feed_cases (r : outcome FeedResponse) (cb : Breaker.CircuitBreaker) :
  Feed._get_personalized_feed now self tenant user limit cursor = (r, cb) ->
  ((exists e, r = Raised e
      /\ (get_signals repos user = Raised e
          \/ get_candidates repos tenant = Raised e
          \/ get_config repos tenant = Raised e))
   /\ cb = Feed._circuit_breaker self)
  \/ (get_candidates repos tenant = Returned []
      /\ r = Feed._get_fallback_feed now self tenant limit true
      /\ cb = Feed._circuit_breaker self)
  \/ (exists signals candidates config items next more,
        get_signals repos user = Returned signals
        /\ get_candidates repos tenant = Returned candidates
        /\ candidates <> []
        /\ get_config repos tenant = Returned config
        /\ r = Returned (mkFeedResponse items next more false true)
        /\ let bounded := take 200 candidates in
           let signals := default (empty_signals user) signals in
           let config := default (get_default_config repos tenant) config in
           ((items, next, more) = Feed._get_fallback_items_sync now bounded limit
            \/ rank (Feed._ranking_engine self) now bounded signals config limit cursor
               = Returned (items, next, more))).
Proof.
  unfold Feed._get_personalized_feed.
  destruct (get_signals repos user) as [signals|e] eqn:S.
  2:{ intros [= <- <-]. left. split; [|done]. exists e. auto. }
  destruct (get_candidates repos tenant) as [candidates|e] eqn:C.
  2:{ intros [= <- <-]. left. split; [|done]. exists e. auto. }
  destruct (get_config repos tenant) as [config|e] eqn:G.
  2:{ intros [= <- <-]. left. split; [|done]. exists e. auto. }
  destruct candidates as [|first others].
  { intros [= <- <-]. right. left. done. }
  rewrite bounded_candidates.
  set (bounded := take 200 (first :: others)).
  pose proof (breaker_step (Feed._circuit_breaker self) bounded
                (default (empty_signals user) signals)
                (default (get_default_config repos tenant) config)) as Hstep.
  cbv zeta in Hstep.
  destruct (Breaker.call _ _ _ _ now) as [[res cb'] w'].
  simpl in Hstep.
  destruct Hstep as [->|([[items next] more] & Hrank & ->)].
  - destruct (Feed._get_fallback_items_sync now bounded limit)
      as [[items next] more] eqn:F.
    intros [= <- <-]. right. right.
    exists signals, (first :: others), config, items, next, more.
    split_and!; try done. cbv zeta. left. symmetry. exact F.
  - intros [= <- <-]. right. right.
    exists signals, (first :: others), config, items, next, more.
    split_and!; try done. cbv zeta. by right.
Qed.

Lemma get_feed_cases :
  Feed.get_feed settings now self tenant user limit cursor
  = (Feed._get_fallback_feed now self tenant limit false, Feed._circuit_breaker self)
  \/ (Feed.personalizes settings self tenant user
      /\ exists r cb,
           Feed._get_personalized_feed now self tenant user limit cursor = (r, cb)
           /\ Feed.get_feed settings now self tenant user limit cursor
              = (match r with
                 | Returned _ => r
                 | Raised _ => Feed._get_fallback_feed now self tenant limit true
                 end, cb)).
Proof.
  destruct (decide (is_personalization_enabled (Feed._feature_flags self) tenant user
                    = true)) as [He|He].
  - destruct (Z_lt_dec (foldr Z.add 0 (Feed.code_points user) mod 100)
                       (ROLLOUT_PERCENTAGE settings)) as [Hr|Hr].
    + right. split; [by split|].
      rewrite get_feed_personalizes by (by split).
      destruct (Feed._get_personalized_feed now self tenant user limit cursor)
        as [[r|e] cb]; eexists _, _; done.
    + left. apply get_feed_gated. by intros [_ ?].
  - left. apply get_feed_gated. by intros [? _].
Qed.

End FeedPaths.

(** X23.  [get_feed] degrades instead of failing.  Whatever the
    repositories of signals, candidates and configuration do, whatever the
    cursor, the ranking and the state of the breaker, a request is answered
    with a response as long as the fallback feed can be fetched; the only
    exception [get_feed] lets through is one raised by the fallback
    repository. *)
Theorem get_feed_fails_only_with_the_fallback_feed (settings : Settings) (now : Q)
    (self : Feed.FeedService) (tenant user : string) (limit : Z)
    (cursor : option string) :
  (forall videos,
     get_fallback_feed (Feed._repos self) tenant = Returned videos ->
     exists r cb,
       Feed.get_feed settings now self tenant user limit cursor = (Returned r, cb))
  /\ (forall e cb,
        Feed.get_feed settings now self tenant user limit cursor = (Raised e, cb) ->
        get_fallback_feed (Feed._repos self) tenant = Raised e).
Proof.
  assert (forall flag,
            match get_fallback_feed (Feed._repos self) tenant with
            | Returned _ => exists r, Feed._get_fallback_feed now self tenant limit flag
                                      = Returned r
            | Raised e => Feed._get_fallback_feed now self tenant limit flag = Raised e
            end) as Hfb.
  { intros flag. unfold Feed._get_fallback_feed.
    destruct (get_fallback_feed _ tenant); [by eexists|done]. }
  destruct (get_feed_cases settings now self tenant user limit cursor)
    as [H|(_ & r & cb & _ & H)]; rewrite H; clear H.
  - specialize (Hfb false). split.
    + intros videos Hv. rewrite Hv in Hfb. destruct Hfb as [r ->]. by eexists _, _.
    + intros e cb. destruct (get_fallback_feed _ tenant) as [v|e'].
      * destruct Hfb as [r ->]. done.
      * rewrite Hfb. by intros [= <- _].
  - specialize (Hfb true). destruct r as [r|e0].
    + split; [by eexists _, _|done].
    + split.
      * intros videos Hv. rewrite Hv in Hfb. destruct Hfb as [r ->]. by eexists _, _.
      * intros e cb'. destruct (get_fallback_feed _ tenant) as [v|e'].
        -- destruct Hfb as [r ->]. done.
        -- rewrite Hfb. by intros [= <- _].
Qed.

(** X24.  Only the ranking step touches the circuit breaker.  A request
    that is gated out, a request that meets a failing repository and a
    request for a tenant without candidates leave the breaker exactly as it
    was; the last two are answered with the fallback feed marked
    degraded. *)
Theorem repository_failures_leave_the_breaker_alone (settings : Settings) (now : Q)
    (self : Feed.FeedService) (tenant user : string) (limit : Z)
    (cursor : option string) :
  let answer := Feed.get_feed settings now self tenant user limit cursor in
  let repos := Feed._repos self in
  (~ Feed.personalizes settings self tenant user ->
   answer.2 = Feed._circuit_breaker self)
  /\ (Feed.personalizes settings self tenant user ->
      (exists e, get_signals repos user = Raised e)
      \/ (exists e, get_candidates repos tenant = Raised e)
      \/ (exists e, get_config repos tenant = Raised e)
      \/ get_candidates repos tenant = Returned [] ->
      answer = (Feed._get_fallback_feed now self tenant limit true,
                Feed._circuit_breaker self)).
Proof.
  intros answer repos. subst answer. split.
  - intros Hn. by rewrite get_feed_gated.
  - intros Hp Hfail. rewrite get_feed_personalizes by done.
    unfold Feed._get_personalized_feed. fold repos.
    destruct (get_signals repos user) as [signals|e] eqn:S; [|done].
    destruct (get_candidates repos tenant) as [candidates|e] eqn:C; [|done].
    destruct (get_config repos tenant) as [config|e] eqn:G; [|done].
    destruct candidates as [|first others].
    + by destruct (Feed._get_fallback_feed now self tenant limit true).
    + exfalso. destruct Hfail as [[e ?]|[[e ?]|[[e ?]|?]]]; done.
Qed.

Lemma slice_subseteq {A} (l : list A) (a b : Z) : slice l a b ⊆ l.
Proof.
  unfold slice. etrans; [apply subseteq_take|apply subseteq_drop].
Qed.

(** X25.  At most the first 200 candidates of a tenant are ever ranked:
    every item of a response marked personalized comes, with its id and its
    title, from one of the first 200 candidates that the repository
    returned. *)
Theorem personalized_items_come_from_first_200 (settings : Settings) (now : Q)
    (self : Feed.FeedService) (tenant user : string) (limit : Z)
    (cursor : option string) (r : FeedResponse) (cb : Breaker.CircuitBreaker)
    (candidates : list VideoMetadata) :
  Feed.get_feed settings now self tenant user limit cursor = (Returned r, cb) ->
  is_personalized r = true ->
  get_candidates (Feed._repos self) tenant = Returned candidates ->
  Forall (fun item =>
            exists v, v ∈ take 200 candidates
                      /\ video_id v = item_id item /\ video_title v = item_title item)
         (items r).
Proof.
  intros Hget Hp Hc.
  assert (forall flag, Feed._get_fallback_feed now self tenant limit flag
                       <> Returned r) as Hnf.
  { intros flag. unfold Feed._get_fallback_feed.
    destruct (get_fallback_feed _ tenant); [|done].
    intros [= <-]. done. }
  destruct (get_feed_cases settings now self tenant user limit cursor)
    as [H|(_ & r' & cb' & Hpers & H)]; rewrite H in Hget.
  { injection Hget as Hget _. by destruct (Hnf false). }
  destruct r' as [r'|e]; [|injection Hget as Hget _; by destruct (Hnf true)].
  injection Hget as -> ->.
  apply personalized_feed_cases in Hpers
    as [[(e & ? & _) _]|[(_ & Hf & _)|Hrank]]; [done|by destruct (Hnf true)|].
  destruct Hrank as (signals & cands & config & page & next & more
                     & _ & Hc' & _ & _ & [= ->] & Hsrc).
  rewrite Hc in Hc'. injection Hc' as <-. cbv zeta in Hsrc. cbn [items].
  apply Forall_forall. intros item Hin.
  destruct Hsrc as [Hsync|Hrank].
  - unfold Feed._get_fallback_items_sync in Hsync. injection Hsync as -> _ _.
    apply list_elem_of_fmap in Hin as (v & -> & Hv).
    exists v. split; [|done].
    apply slice_subseteq in Hv.
    by rewrite (sorted_desc_perm video_score (take 200 candidates)) in Hv.
  - apply rank_page in Hrank as [offset ->].
    unfold _to_feed_items in Hin.
    apply list_elem_of_In, List.in_map_iff in Hin as (sv & <- & Hsv).
    apply list_elem_of_In, slice_subseteq in Hsv.
    pose proof (ranked_from_kept (Feed._ranking_engine self) now (take 200 candidates)
                  (default (empty_signals user) signals)
                  (default (get_default_config (Feed._repos self) tenant) config)) as Hk.
    rewrite Forall_forall in Hk. destruct (Hk sv Hsv) as [Hv _].
    exists (video sv). done.
Qed.

(** X26.  The rollout gate of [get_feed] at its bounds.  With a rollout
    percentage of 0 or less no user is personalized: every request is
    answered with the fallback feed, not degraded, and the breaker is not
    touched.  With 100 or more the gate lets every user through, and the
    feature-flag service alone decides. *)
Theorem rollout_percentage_bounds (settings : Settings) (now : Q)
    (self : Feed.FeedService) (tenant user : string) (limit : Z)
    (cursor : option string) :
  (ROLLOUT_PERCENTAGE settings <= 0 ->
   Feed.get_feed settings now self tenant user limit cursor
   = (Feed._get_fallback_feed now self tenant limit false, Feed._circuit_breaker self))
  /\ (100 <= ROLLOUT_PERCENTAGE settings ->
      Feed.in_rollout settings user
      /\ (Feed.personalizes settings self tenant user
          <-> is_personalization_enabled (Feed._feature_flags self) tenant user = true)).
Proof.
  pose proof (Z.mod_pos_bound (foldr Z.add 0 (Feed.code_points user)) 100) as Hm.
  split.
  - intros Hz. apply get_feed_gated. unfold Feed.personalizes, Feed.in_rollout.
    intros [_ ?]. lia.
  - intros Hh. unfold Feed.personalizes, Feed.in_rollout. split; [lia|].
    split; [by intros [? _]|]. intros ?. split; [done|lia].
Qed.

Lemma personalized_items_come_from_first_200_witness :
  Forall (fun item =>
            exists v, v ∈ take 200 sports
                      /\ video_id v = item_id item /\ video_title v = item_title item)
         first_page.1.1.
Proof.
  apply (personalized_items_come_from_first_200 default_settings now0 service
           "tenant_sports" "user_sporty" 3 None
           (mkFeedResponse first_page.1.1 first_page.1.2 first_page.2 false true)
           (Breaker.init "ranking_service" 5 30) sports); reflexivity.
Defined.

(** ** The HTTP edge: limits and cache headers *)

Section FeedSize.
Variables (settings : Settings) (now : Q) (self : Feed.FeedService).
Variables (tenant user : string) (limit : Z) (cursor : option string).

Lemma get_feed_size (r : FeedResponse) (cb : Breaker.CircuitBreaker) :
  0 <= limit ->
  Feed.get_feed settings now self tenant user limit cursor = (Returned r, cb) ->
  Z.of_nat (length (items r)) <= limit.
Proof.
  intros Hl Hget.
  assert (forall flag, Feed._get_fallback_feed now self tenant limit flag = Returned r ->
                       Z.of_nat (length (items r)) <= limit) as Hfb.
  { intros flag H.
    destruct (fallback_feed_shape now self tenant limit flag r Hl H)
      as (fb & _ & _ & Hlen & _). lia. }
  destruct (get_feed_cases settings now self tenant user limit cursor)
    as [H|(_ & r' & cb' & Hpers & H)]; rewrite H in Hget.
  { injection Hget as Hget _. by apply (Hfb false). }
  destruct r' as [r'|e]; [|injection Hget as Hget _; by apply (Hfb true)].
  injection Hget as -> ->.
  apply personalized_feed_cases in Hpers
    as [[(e & ? & _) _]|[(_ & Hf & _)|Hrank]]; [done|by apply (Hfb true)|].
  destruct Hrank as (signals & cands & config & page & next & more
                     & _ & _ & _ & _ & [= ->] & Hsrc).
  cbv zeta in Hsrc. cbn [items].
  destruct Hsrc as [Hsync|Hrank].
  - unfold Feed._get_fallback_items_sync in Hsync. injection Hsync as -> _ _.
    rewrite length_map, slice_prefix, length_take by done. lia.
  - apply rank_page in Hrank as [offset ->].
    unfold _to_feed_items. rewrite length_map.
    pose proof (slice_length_le
                  (ranked (Feed._ranking_engine self) now (take 200 cands)
                     (default (empty_signals user) signals)
                     (default (get_default_config (Feed._repos self) tenant) config))
                  offset limit Hl). lia.
Qed.

End FeedSize.

Lemma respond_body (r r' : FeedResponse) (inm : option string) :
  Router.body (Router.respond r inm) = Some r' -> r' = r.
Proof.
  unfold Router.respond.
  destruct (match inm with Some _ => _ | None => _ end); simpl; [done|].
  by intros [= ->].
Qed.

(** X27.  The endpoint never answers with more items than asked for, nor
    with more than [MAX_FEED_LIMIT]: on every path (ranking, inline
    fallback, fallback feed) and for every cursor, the body of a 200 answer
    holds at most min(limit, MAX_FEED_LIMIT) items. *)
Theorem answer_never_exceeds_the_limit (settings : Settings) (now : Q)
    (feed_service : Feed.FeedService) (limit : Z) (cursor : option string)
    (user_hash x_tenant_id : string) (if_none_match : option string)
    (http : Router.HttpResponse) (cb : Breaker.CircuitBreaker) (r : FeedResponse) :
  0 <= Z.min limit (MAX_FEED_LIMIT settings) ->
  Router.get_feed settings now feed_service limit cursor user_hash x_tenant_id
                  if_none_match = (Returned http, cb) ->
  Router.body http = Some r ->
  Z.of_nat (length (items r)) <= limit
  /\ Z.of_nat (length (items r)) <= MAX_FEED_LIMIT settings.
Proof.
  intros Hl. unfold Router.get_feed.
  destruct (Feed.get_feed settings now feed_service x_tenant_id user_hash
              (Z.min limit (MAX_FEED_LIMIT settings)) cursor) as [[r0|e] cb0] eqn:G;
    [|done].
  intros [= <- <-] Hb. apply respond_body in Hb as ->.
  pose proof (get_feed_size settings now feed_service x_tenant_id user_hash _ cursor
                r0 cb0 Hl G). lia.
Qed.

Lemma answer_never_exceeds_the_limit_witness :
  Z.of_nat (length first_page.1.1) <= 3
  /\ Z.of_nat (length first_page.1.1) <= MAX_FEED_LIMIT default_settings.
Proof.
  apply (answer_never_exceeds_the_limit default_settings now0 service 3 None
           "user_sporty" "tenant_sports" None
           (Router.respond
              (mkFeedResponse first_page.1.1 first_page.1.2 first_page.2 false true)
              None)
           (Breaker.init "ranking_service" 5 30)
           (mkFeedResponse first_page.1.1 first_page.1.2 first_page.2 false true)).
  - vm_compute. discriminate.
  - reflexivity.
  - reflexivity.
Defined.

Lemma respond_headers (r : FeedResponse) (inm : option string) :
  Router.respond r inm = Router.mkHttp 304 [] None
  \/ (Router.status_code (Router.respond r inm) = 200
      /\ Router.body (Router.respond r inm) = Some r
      /\ dict_get (Router.headers (Router.respond r inm)) "Cache-Control"
         = Some (if is_personalized r && negb (degraded r)
                 then "private, max-age=30"
                 else "public, max-age=30, stale-while-revalidate=15")
      /\ dict_get (Router.headers (Router.respond r inm)) "Vary"
         = Some (if is_personalized r && negb (degraded r)
                 then "X-User-Hash" else "Accept-Encoding")
      /\ dict_get (Router.headers (Router.respond r inm)) "X-Personalized"
         = Some (if is_personalized r then "true" else "false")).
Proof.
  unfold Router.respond.
  destruct (match inm with Some _ => _ | None => _ end); [by left|right].
  destruct (is_personalized r && negb (degraded r)); cbn [Router.status_code
    Router.body Router.headers]; split_and!; try done;
    rewrite ?dict_get_set; try done;
    repeat (rewrite dict_get_set_ne by done); by rewrite ?dict_get_set.
Qed.

(** X28.  Only a personalized answer is marked private.  Every answer of
    the endpoint is a 304 without header and body, or a 200 whose
    [Cache-Control] is private and whose [Vary] names the user hash exactly
    when the response is personalized and not degraded, and public with
    [Vary: Accept-Encoding] otherwise; [X-Personalized] repeats the flag of
    the body.  A user whom the gates exclude is always answered from the
    public side. *)
Theorem only_personalized_answers_are_private (settings : Settings) (now : Q)
    (feed_service : Feed.FeedService) (limit : Z) (cursor : option string)
    (user_hash x_tenant_id : string) (if_none_match : option string)
    (http : Router.HttpResponse) (cb : Breaker.CircuitBreaker) :
  Router.get_feed settings now feed_service limit cursor user_hash x_tenant_id
                  if_none_match = (Returned http, cb) ->
  http = Router.mkHttp 304 [] None
  \/ exists r : FeedResponse,
       Router.status_code http = 200 /\ Router.body http = Some r
       /\ dict_get (Router.headers http) "Cache-Control"
          = Some (if is_personalized r && negb (degraded r)
                  then "private, max-age=30"
                  else "public, max-age=30, stale-while-revalidate=15")
       /\ dict_get (Router.headers http) "Vary"
          = Some (if is_personalized r && negb (degraded r)
                  then "X-User-Hash" else "Accept-Encoding")
       /\ dict_get (Router.headers http) "X-Personalized"
          = Some (if is_personalized r then "true" else "false")
       /\ (~ Feed.personalizes settings feed_service x_tenant_id user_hash ->
           is_personalized r = false /\ degraded r = false).
Proof.
  unfold Router.get_feed.
  destruct (Feed.get_feed settings now feed_service x_tenant_id user_hash
              (Z.min limit (MAX_FEED_LIMIT settings)) cursor) as [[r0|e] cb0] eqn:G;
    [|done].
  intros [= <- <-].
  destruct (respond_headers r0 if_none_match) as [H|(H1 & H2 & H3 & H4 & H5)];
    [by left|right].
  exists r0. split_and!; try done.
  intros Hn. rewrite get_feed_gated in G by done.
  unfold Feed._get_fallback_feed in G.
  destruct (get_fallback_feed _ x_tenant_id); [|done].
  by injection G as <- _.
Qed.

Lemma only_personalized_answers_are_private_witness :
  dict_get (Router.headers
              (Router.respond
                 (mkFeedResponse first_page.1.1 first_page.1.2 first_page.2 false true)
                 None)) "Cache-Control"
  = Some "private, max-age=30".
Proof.
  destruct (only_personalized_answers_are_private default_settings now0 service 3 None
              "user_sporty" "tenant_sports" None
              (Router.respond
                 (mkFeedResponse first_page.1.1 first_page.1.2 first_page.2 false true)
                 None)
              (Breaker.init "ranking_service" 5 30)) as [H|(r & _ & Hb & Hc & _)].
  - reflexivity.
  - vm_compute in H. discriminate.
  - apply respond_body in Hb as ->. exact Hc.
Defined.

(** ** The feature flags: rollout *)

Lemma clamp_percentage (p : Q) :
  let q := Py.max 0 (Py.min 100 p) in
  (0 <= q)%Q /\ (q <= 100)%Q
  /\ ((p <= 0)%Q -> (q == 0)%Q) /\ ((100 <= p)%Q -> (q == 100)%Q)
  /\ ((0 <= p)%Q -> (p <= 100)%Q -> (q == p)%Q).
Proof.
  unfold Py.max, Py.min.
  pose proof (Qgtb_spec 100 p) as H1. destruct (Qgtb 100 p).
  - pose proof (Qgtb_spec p 0) as H2. destruct (Qgtb p 0); split_and!; intros; lra.
  - pose proof (Qgtb_spec 100 0) as H2. destruct (Qgtb 100 0); split_and!; intros; lra.
Qed.

Lemma Qgtb_proper (a a' b b' : Q) :
  (a == a')%Q -> (b == b')%Q -> Qgtb a b = Qgtb a' b'.
Proof.
  intros Ha Hb. pose proof (Qgtb_spec a b) as H. pose proof (Qgtb_spec a' b') as H'.
  destruct (Qgtb a b), (Qgtb a' b'); try done; exfalso; lra.
Qed.

Lemma bucket_bounds (user_hash : string) :
  let bucket := FeatureFlags.be_word (take 4 (md5_digest (bytes_of user_hash))) 0 mod 100 in
  (0 <= inject_Z bucket)%Q /\ (inject_Z bucket < 100)%Q.
Proof.
  intros bucket.
  pose proof (Z.mod_pos_bound
                (FeatureFlags.be_word (take 4 (md5_digest (bytes_of user_hash))) 0) 100)
    as H. fold bucket in H.
  split.
  - change 0%Q with (inject_Z 0). rewrite <- Zle_Qle. lia.
  - change 100%Q with (inject_Z 100). rewrite <- Zlt_Qlt. lia.
Qed.

(** X29.  Widening the rollout never takes personalization away from a
    user.  [set_rollout_percentage] clamps the percentage into 0..100; a
    user who is enabled at one percentage is enabled at every higher one;
    at 0 or below nobody is enabled, and at 100 or above everybody is whom
    the kill switch and the global flag let through. *)
Theorem widening_the_rollout_keeps_users (settings : Settings)
    (self : FeatureFlags.ConfigBasedFeatureFlagService)
    (tenant_id user_hash : string) (p p' : Q) :
  (p <= p')%Q ->
  let enabled q :=
    FeatureFlags.personalization_enabled settings
      (FeatureFlags.set_rollout_percentage self q) tenant_id user_hash in
  let percentage q :=
    FeatureFlags._rollout_percentage (FeatureFlags.set_rollout_percentage self q) in
  ((0 <= percentage p)%Q /\ (percentage p <= 100)%Q)
  /\ (enabled p = true -> enabled p' = true)
  /\ ((p <= 0)%Q -> enabled p = false)
  /\ ((100 <= p')%Q ->
      enabled p' = negb (KILL_SWITCH_ACTIVE settings) && PERSONALIZATION_ENABLED settings).
Proof.
  intros Hpp enabled percentage. subst enabled percentage. cbv beta.
  unfold FeatureFlags.personalization_enabled, FeatureFlags.kill_switch,
    FeatureFlags.set_rollout_percentage, FeatureFlags._is_user_in_rollout.
  cbn [FeatureFlags._rollout_percentage].
  pose proof (clamp_percentage p) as (A1 & A2 & A3 & A4 & A5).
  pose proof (clamp_percentage p') as (B1 & B2 & B3 & B4 & B5).
  cbv zeta in A1, A2, A3, A4, A5, B1, B2, B3, B4, B5.
  set (q := Py.max 0 (Py.min 100 p)) in *.
  set (q' := Py.max 0 (Py.min 100 p')) in *.
  pose proof (bucket_bounds user_hash) as [C1 C2]. cbv zeta in C1, C2.
  set (bucket := inject_Z _) in *.
  assert (q <= q')%Q as Hqq.
  { destruct (Qlt_le_dec p 0) as [?|?]; [rewrite A3 by lra; lra|].
    destruct (Qlt_le_dec 100 p') as [?|?]; [rewrite B4 by lra; lra|].
    destruct (Qlt_le_dec 100 p) as [?|?]; [lra|].
    rewrite A5, B5 by lra. done. }
  clearbody q q' bucket.
  split; [done|].
  pose proof (Qgtb_spec 100 q) as G1. pose proof (Qgtb_spec 100 q') as G2.
  pose proof (Qgtb_spec q bucket) as G3. pose proof (Qgtb_spec q' bucket) as G4.
  destruct (KILL_SWITCH_ACTIVE settings), (PERSONALIZATION_ENABLED settings);
    cbn [negb andb]; try done.
  split; [|split].
  - destruct (Qgtb 100 q), (Qgtb 100 q'), (Qgtb q bucket), (Qgtb q' bucket);
      try done; intros _; exfalso; lra.
  - intros Hp0. specialize (A3 Hp0).
    destruct (Qgtb 100 q); [|exfalso; lra].
    destruct (Qgtb q bucket); [exfalso; lra|done].
  - intros Hp1. specialize (B4 Hp1).
    destruct (Qgtb 100 q'); [exfalso; lra|done].
Qed.

Lemma widening_the_rollout_keeps_users_witness :
  FeatureFlags.personalization_enabled default_settings
    (FeatureFlags.set_rollout_percentage (FeatureFlags.mkService 100) (-5)) "t" "u"
  = false.
Proof.
  destruct (widening_the_rollout_keeps_users default_settings
              (FeatureFlags.mkService 100) "t" "u" (-5) 50) as (_ & _ & H & _).
  - vm_compute. discriminate.
  - apply H. vm_compute. discriminate.
Defined.

(** ** The in-memory repositories *)

(** X30.  Signals that were saved are the signals returned: with a cache
    without default time to live, as the repository builds it,
    [get_signals] returns what [save_signals] stored for the user at every
    later time and leaves the cache as it was.  For a user the cache holds
    nothing for, it returns the cold-start signals of that user. *)
Theorem saved_signals_are_returned (cache : Cache.InMemoryCache UserSignals)
    (signals : UserSignals) (t later : Q) (h : string) :
  Cache._default_ttl cache = None ->
  let saved := Memory.save_signals cache signals t in
  Memory.get_signals saved (user_hash signals) later = (signals, saved)
  /\ (h <> user_hash signals ->
      (Memory.get_signals saved h later).1 = (Memory.get_signals cache h later).1)
  /\ (Cache._store cache !! h = None ->
      Memory.get_signals cache h later = (empty_signals h, cache)
      /\ is_cold_start (Memory.get_signals cache h later).1 = true).
Proof.
  intros Hd saved. split; [|split].
  - unfold Memory.get_signals, Cache.get, saved, Memory.save_signals, Cache.set.
    cbn [Cache._store Cache._default_ttl]. rewrite lookup_insert_eq, Hd. done.
  - intros Hne. unfold Memory.get_signals.
    pose proof (get_value saved h later) as H1.
    pose proof (get_value cache h later) as H2.
    destruct (Cache.get saved h later) as [s1 c1].
    destruct (Cache.get cache h later) as [s2 c2]. simpl in *.
    rewrite H1, H2. unfold saved, Memory.save_signals, Cache.set.
    cbn [Cache._store]. by rewrite lookup_insert_ne.
  - intros Hnone. unfold Memory.get_signals, Cache.get. rewrite Hnone. done.
Qed.

Lemma saved_signals_are_returned_witness :
  (Memory.get_signals
     (Memory.save_signals (Cache.init None) user_sporty 0%Q) "user_sporty" 1000%Q).1
  = user_sporty.
Proof.
  destruct (saved_signals_are_returned (Cache.init None) user_sporty 0%Q 1000%Q "x")
    as [H _]; [reflexivity|].
  change (user_hash user_sporty) with "user_sporty" in H. by rewrite H.
Defined.
